(** * NoveLV vocabulary analysis pipeline: a shallow embedding of
    [flaskr/__init__.py] and the properties its specification states.

    The pipeline splits a text into chunks, sends each chunk to the Yomitan
    tokenizer (with a local fallback), filters the tokens, resolves a frequency
    rank per unique word, classifies the words as known / ignored / unknown,
    merges duplicates and aggregates statistics.

    Modelling conventions.
    - A Python [str] is the list of its Unicode code points ([pystr]); [len],
      indexing and slicing count code points, as in Python 3.
    - A Python [int] is a [Z]; a Python [float] is a binary64 [float].
    - A decoded JSON document is a [pyval]; JSON numbers are integers in this
      model (the service's frequency ranks are), there is no float constructor.
    - [set] objects are [gset pystr], the dictionaries keyed by word or by run
      identifier are [gmap]s, and dictionaries whose iteration order is
      observable ([Counter], the deduplication table) are association lists in
      insertion order.
    - The process-wide globals ([frequency_cache], [progress_tracker],
      [active_yomitan_operations]), the ignored-words file and the log of HTTP
      requests form the [world]; effectful functions are state transformers
      over it.  Console output ([print]) is not modelled.
    - A [while] loop is a fixpoint on fuel; [None] stands for a computation
      that has not produced a result. *)

From Stdlib Require Import ZArith List Floats Lia Permutation Sorted.
From Stdlib Require Import DecimalString.
From stdpp Require Import base gmap sets list strings.
Import ListNotations.

Local Open Scope Z_scope.

(** ** Python strings *)

(** A character is its code point; [char] and [pystr] only abbreviate the
    types. *)
Abbreviation char := Z (only parsing).
Abbreviation pystr := (list Z) (only parsing).

Definition len (s : pystr) : Z := Z.of_nat (length s).

Definition pystr_eqb (a b : pystr) : bool := bool_decide (a = b).

(** UTF-8 decoding of a source literal into code points, so that the
    literals below read as they do in the Python source. *)
Fixpoint utf8_decode (bs : list Z) : pystr :=
  match bs with
  | [] => []
  | b0 :: r0 =>
    if b0 <? 0x80 then b0 :: utf8_decode r0
    else match r0 with
    | [] => []
    | b1 :: r1 =>
      if b0 <? 0xE0 then ((b0 - 0xC0) * 64 + (b1 - 0x80)) :: utf8_decode r1
      else match r1 with
      | [] => []
      | b2 :: r2 =>
        if b0 <? 0xF0
        then ((b0 - 0xE0) * 4096 + (b1 - 0x80) * 64 + (b2 - 0x80)) :: utf8_decode r2
        else match r2 with
        | [] => []
        | b3 :: r3 =>
          ((b0 - 0xF0) * 262144 + (b1 - 0x80) * 4096 + (b2 - 0x80) * 64 + (b3 - 0x80))
            :: utf8_decode r3
        end
      end
    end
  end.

Definition u (s : string) : pystr :=
  utf8_decode (map (fun a => Z.of_N (Ascii.N_of_ascii a)) (String.list_ascii_of_string s)).

(** [str.isspace] for one code point (CPython's [_PyUnicode_IsWhitespace]);
    [str.strip()] with no argument and the regex escape [\s] on [str]
    patterns use the same table. *)
Definition isspace (c : char) : bool :=
  ((0x09 <=? c) && (c <=? 0x0D)) || ((0x1C <=? c) && (c <=? 0x1F))
  || (c =? 0x20) || (c =? 0x85) || (c =? 0xA0) || (c =? 0x1680)
  || ((0x2000 <=? c) && (c <=? 0x200A))
  || (c =? 0x2028) || (c =? 0x2029) || (c =? 0x202F) || (c =? 0x205F)
  || (c =? 0x3000).

Fixpoint lstrip (s : pystr) : pystr :=
  match s with
  | [] => []
  | c :: r => if isspace c then lstrip r else s
  end.

(** [s.strip()] *)
Definition strip (s : pystr) : pystr := rev (lstrip (rev (lstrip s))).

(** Python's index normalisation for slices: a negative index counts from
    the end, and both ends are clipped to [0, len]. *)
Definition norm_index (n i : Z) : Z :=
  if i <? 0 then Z.max (n + i) 0 else Z.min i n.

(** [s[lo:hi]] *)
Definition slice (s : pystr) (lo hi : Z) : pystr :=
  let lo' := norm_index (len s) lo in
  let hi' := norm_index (len s) hi in
  take (Z.to_nat (hi' - lo')) (drop (Z.to_nat lo') s).

(** [s[lo:]] *)
Definition slice_from (s : pystr) (lo : Z) : pystr :=
  drop (Z.to_nat (norm_index (len s) lo)) s.

(** [s[i]] for [0 <= i < len(s)]; [None] is Python's [IndexError]
    (negative indices are not used by the code below). *)
Definition index (s : pystr) (i : Z) : option char :=
  if i <? 0 then None else s !! Z.to_nat i.

(** Scan for the last occurrence of [c], the positions being numbered from
    [i]; [acc] is the best position so far. *)
Fixpoint last_index_of (c : char) (s : pystr) (i acc : Z) : Z :=
  match s with
  | [] => acc
  | x :: r => last_index_of c r (i + 1) (if x =? c then i else acc)
  end.

(** [s.rfind(c, start)] for a one-character needle: the highest index
    [>= start] holding [c], or [-1]. *)
Definition rfind (s : pystr) (c : char) (start : Z) : Z :=
  let st := if start <? 0 then Z.max (len s + start) 0 else start in
  last_index_of c (drop (Z.to_nat st) s) st (-1).

(** [str(n)] for an integer, as used by the f-strings of progress messages. *)
Definition str_of_int (n : Z) : pystr :=
  u (NilZero.string_of_int (Z.to_int n)).

(** ** Python numbers *)

(** [float(n)]: the binary64 value nearest to the integer [n]. *)
Definition float_of_int (n : Z) : float :=
  SF2Prim (binary_normalize prec emax n 0 false).

(** An integer as an exact (unrounded) operand of a float operation. *)
Definition exact_int (n : Z) : spec_float :=
  match n with
  | Z0 => S754_zero false
  | Zpos p => S754_finite false p 0
  | Zneg p => S754_finite true p 0
  end.

(** [a / b] on integers (true division): the binary64 value nearest to the
    exact quotient.  Callers guard [b <> 0]. *)
Definition int_truediv (a b : Z) : float :=
  SF2Prim (SFdiv prec emax (exact_int a) (exact_int b)).

(** A number that is either a Python [int] or a Python [float]. *)
Inductive pynum :=
| NInt (n : Z)
| NFloat (x : float).

(** [x >= k] for an integer literal [k] exactly representable in binary64. *)
Definition pynum_ge_int (x : pynum) (k : Z) : bool :=
  match x with
  | NInt n => k <=? n
  | NFloat f => PrimFloat.leb (float_of_int k) f
  end.

(** ** Decoded JSON documents *)

#[warnings="-register-all"] Inductive pyval :=
| PNone
| PBool (b : bool)
| PInt (n : Z)
| PStr (s : pystr)
| PList (l : list pyval)
| PDict (d : list (pystr * pyval)).

(** The exceptions the code distinguishes: the three [requests] classes it
    names, and any other [Exception]. *)
Inductive exn :=
| Timeout
| ConnectionError
| RequestException
| OtherException.

Inductive outcome (A : Type) :=
| Returns (a : A)
| Raises (e : exn).
Arguments Returns {A} a.
Arguments Raises {A} e.

Definition obind {A B} (m : outcome A) (f : A -> outcome B) : outcome B :=
  match m with
  | Returns a => f a
  | Raises e => Raises e
  end.

#[global] Instance outcome_ret : MRet outcome := fun A a => Returns a.
#[global] Instance outcome_bind : MBind outcome := fun A B f m => obind m f.

(** Truth value of a decoded document ([if x:]). *)
Definition truthy (v : pyval) : bool :=
  match v with
  | PNone => false
  | PBool b => b
  | PInt n => negb (n =? 0)
  | PStr s => negb (bool_decide (s = []))
  | PList l => match l with [] => false | _ => true end
  | PDict d => match d with [] => false | _ => true end
  end.

Definition isinstance_list (v : pyval) : bool :=
  match v with PList _ => true | _ => false end.

(** [len(v)]; a [TypeError] for objects without a length. *)
Definition py_len (v : pyval) : outcome Z :=
  match v with
  | PStr s => Returns (len s)
  | PList l => Returns (Z.of_nat (length l))
  | PDict d => Returns (Z.of_nat (length d))
  | _ => Raises OtherException
  end.

Fixpoint dict_get (d : list (pystr * pyval)) (k : pystr) : option pyval :=
  match d with
  | [] => None
  | (k', v) :: r => if pystr_eqb k' k then Some v else dict_get r k
  end.

(** [needle in s] for strings: substring search. *)
Fixpoint is_prefix (p s : pystr) : bool :=
  match p, s with
  | [], _ => true
  | _ :: _, [] => false
  | a :: p', b :: s' => (a =? b) && is_prefix p' s'
  end.
Fixpoint is_substring (p s : pystr) : bool :=
  is_prefix p s || match s with [] => false | _ :: s' => is_substring p s' end.

(** [v == k] where [k] is a string: only an equal string compares equal. *)
Definition eq_str (v : pyval) (k : pystr) : bool :=
  match v with PStr s => pystr_eqb s k | _ => false end.

(** [k in v] for a string key [k]: key lookup on a dict, element search on
    a list, substring search on a string, [TypeError] otherwise. *)
Definition py_contains (k : pystr) (v : pyval) : outcome bool :=
  match v with
  | PDict d => Returns (match dict_get d k with Some _ => true | None => false end)
  | PList l => Returns (existsb (fun x => eq_str x k) l)
  | PStr s => Returns (is_substring k s)
  | _ => Raises OtherException
  end.

(** [v[k]] for a string key: [KeyError] on a dict without the key,
    [TypeError] on anything that is not a dict. *)
Definition py_getitem (v : pyval) (k : pystr) : outcome pyval :=
  match v with
  | PDict d => match dict_get d k with Some x => Returns x | None => Raises OtherException end
  | _ => Raises OtherException
  end.

(** The elements a [for] loop sees: list items, dict keys, the characters
    of a string; [TypeError] for anything else. *)
Definition py_iter (v : pyval) : outcome (list pyval) :=
  match v with
  | PList l => Returns l
  | PDict d => Returns (map (fun kv => PStr (fst kv)) d)
  | PStr s => Returns (map (fun c => PStr [c]) s)
  | _ => Raises OtherException
  end.

(** [''.join(parts)]: every part must be a string. *)
Fixpoint str_join (parts : list pyval) : outcome pystr :=
  match parts with
  | [] => Returns []
  | PStr s :: r => t ← str_join r; Returns (s ++ t)
  | _ :: _ => Raises OtherException
  end.

(** Integer value of a number-like object ([bool] is a subclass of [int]). *)
Definition as_int (v : pyval) : option Z :=
  match v with
  | PInt n => Some n
  | PBool b => Some (if b then 1 else 0)
  | _ => None
  end.

(** Lexicographic [<] on strings by code point. *)
Fixpoint str_lt (a b : pystr) : bool :=
  match a, b with
  | [], [] => false
  | [], _ :: _ => true
  | _ :: _, [] => false
  | x :: a', y :: b' => if x =? y then str_lt a' b' else x <? y
  end.

(** [a == b] on decoded documents. *)
Fixpoint py_eq (a b : pyval) {struct a} : bool :=
  match a, b with
  | PNone, PNone => true
  | PStr s, PStr t => pystr_eqb s t
  | PList l1, PList l2 =>
    (fix go (l1 l2 : list pyval) {struct l1} : bool :=
       match l1, l2 with
       | [], [] => true
       | x :: xs, y :: ys => py_eq x y && go xs ys
       | _, _ => false
       end) l1 l2
  | PDict d1, PDict d2 =>
    (length d1 =? length d2)%nat &&
    (fix go (d : list (pystr * pyval)) {struct d} : bool :=
       match d with
       | [] => true
       | (k, v) :: r =>
         match dict_get d2 k with
         | Some v' => py_eq v v' && go r
         | None => false
         end
       end) d1
  | _, _ =>
    match as_int a, as_int b with
    | Some m, Some n => m =? n
    | _, _ => false
    end
  end.

(** [a < b] on decoded documents: numeric on numbers, lexicographic on
    strings and lists, [TypeError] on everything else. *)
Fixpoint py_lt (a b : pyval) {struct a} : outcome bool :=
  match a, b with
  | PStr s, PStr t => Returns (str_lt s t)
  | PList l1, PList l2 =>
    (fix go (l1 l2 : list pyval) {struct l1} : outcome bool :=
       match l1, l2 with
       | [], [] => Returns false
       | [], _ :: _ => Returns true
       | _ :: _, [] => Returns false
       | x :: xs, y :: ys => if py_eq x y then go xs ys else py_lt x y
       end) l1 l2
  | _, _ =>
    match as_int a, as_int b with
    | Some m, Some n => Returns (m <? n)
    | _, _ => Raises OtherException
    end
  end.

(** [v <= k] for an integer literal [k]. *)
Definition py_le_int (v : pyval) (k : Z) : outcome bool :=
  match as_int v with
  | Some n => Returns (n <=? k)
  | None => Raises OtherException
  end.

(** ** ChunkSplitter: [_split_text_into_chunks] *)

(** Sentence endings, other punctuation and whitespace, each in the order
    the source tries them. *)
Definition sentence_endings : list char :=
  Eval vm_compute in u "。！？…』」".
Definition other_punctuation : list char :=
  Eval vm_compute in u "、・）｝".
Definition whitespace_breaks : list char :=
  Eval vm_compute in [0x0A; 0x20; 0x3000].

(** One [for punct in [...]] loop: the position found for the first
    character of the list that occurs at or after [from], if any. *)
Fixpoint find_break (chunk_text : pystr) (from : Z) (puncts : list char) : option Z :=
  match puncts with
  | [] => None
  | punct :: rest =>
    let punct_pos := rfind chunk_text punct from in
    if negb (punct_pos =? -1) then Some punct_pos
    else find_break chunk_text from rest
  end.

(** The end of the chunk that starts at [start]: after the best break
    point of the last 200 characters of the window, or the window's end. *)
Definition chunk_end (text : pystr) (chunk_size start : Z) : Z :=
  let end_ := start + chunk_size in
  let search_start := Z.max start (end_ - 200) in
  let chunk_text := slice text start end_ in
  match find_break chunk_text (search_start - start) sentence_endings with
  | Some punct_pos => start + punct_pos + 1
  | None =>
    match find_break chunk_text (search_start - start) other_punctuation with
    | Some punct_pos => start + punct_pos + 1
    | None =>
      match find_break chunk_text (search_start - start) whitespace_breaks with
      | Some ws_pos => start + ws_pos + 1
      | None => end_
      end
    end
  end.

(** The [while start < len(text)] loop. *)
Fixpoint split_loop (fuel : nat) (text : pystr) (chunk_size start : Z)
    (chunks : list pystr) : option (list pystr) :=
  if negb (start <? len text) then Some chunks
  else match fuel with
  | O => None
  | S fuel' =>
    let end_ := start + chunk_size in
    if end_ >=? len text then Some (chunks ++ [slice_from text start])
    else
      let end' := chunk_end text chunk_size start in
      split_loop fuel' text chunk_size end' (chunks ++ [slice text start end'])
  end.

(** [_split_text_into_chunks(text, chunk_size)].  The loop is given
    [len(text)] iterations, which is enough whenever it terminates at all
    (see [split_loop_fuel] and [split_loop_diverges]); [None] is a loop that
    never ends. *)
Definition _split_text_into_chunks (text : pystr) (chunk_size : Z) : option (list pystr) :=
  if len text <=? chunk_size then Some [text]
  else split_loop (length text) text chunk_size 0 [].

(** ** FallbackTokenizer: [_simple_japanese_tokenize] *)

(** The set literal [common_i_adjectives], in source order.  Python
    iterates a set in an unspecified order; no element is a prefix of
    another one, so at most one matches at a position and the order is
    immaterial (see [find_adjective_order]). *)
Definition common_i_adjectives : list pystr :=
  Eval vm_compute in map u
  [ "熱い"; "冷たい"; "暖かい"; "涼しい"; "温かい";
    "固い"; "柔らかい"; "硬い"; "軟らかい";
    "重い"; "軽い"; "厚い"; "薄い"; "太い"; "細い";
    "高い"; "低い"; "長い"; "短い"; "広い"; "狭い";
    "新しい"; "古い"; "若い"; "美しい"; "可愛い";
    "大きい"; "小さい"; "多い"; "少ない";
    "早い"; "遅い"; "速い"; "安い"; "高い";
    "良い"; "悪い"; "正しい"; "間違い"; "危ない";
    "楽しい"; "悲しい"; "嬉しい"; "苦しい"; "痛い";
    "難しい"; "易しい"; "忙しい"; "暇い";
    "面白い"; "詰まらない"; "珍しい"; "普通い";
    "眠い"; "疲れい"; "元気い"; "健康い" ]%string.

(** [for adj in common_i_adjectives: if text[i:i+len(adj)] == adj: ... break] *)
Fixpoint find_adjective (text : pystr) (i : Z) (adjs : list pystr) : option pystr :=
  match adjs with
  | [] => None
  | adj :: rest =>
    if pystr_eqb (slice text i (i + len adj)) adj then Some adj
    else find_adjective text i rest
  end.

(** The [while i < len(text)] loop. *)
Fixpoint simple_tokenize_loop (fuel : nat) (text : pystr) (i : Z)
    (tokens : list pystr) : option (list pystr) :=
  if negb (i <? len text) then Some tokens
  else match fuel with
  | O => None
  | S fuel' =>
    match find_adjective text i common_i_adjectives with
    | Some adj => simple_tokenize_loop fuel' text (i + len adj) (tokens ++ [adj])
    | None =>
      match index text i with
      | None => None
      | Some c =>
        simple_tokenize_loop fuel' text (i + 1)
          (if negb (isspace c) then tokens ++ [[c]] else tokens)
      end
    end
  end.

Definition _simple_japanese_tokenize (text : pystr) : option (list pystr) :=
  if bool_decide (text = []) then Some []
  else simple_tokenize_loop (length text) text 0 [].

(** ** TokenFilter: [filter_japanese_tokens] *)

Definition in_range (lo hi c : Z) : bool := (lo <=? c) && (c <=? hi).
Definition in_chars (cs : pystr) (c : char) : bool := existsb (Z.eqb c) cs.

Definition punct_chars : pystr :=
  Eval vm_compute in u "。、！？「」『』（）・…ー～〜♡♥★☆◇◆■□▪▫●○◎▲△▼▽◀▶▲▼←→↑↓♪♫※".
Definition symbol_chars : pystr :=
  Eval vm_compute in u "♡♥★☆◇◆■□▪▫●○◎▲△▼▽◀▶▲▼←→↑↓♪♫※。、！？「」『』（）・…ー～〜".
Definition conjugation_chars : pystr :=
  Eval vm_compute in u "っつくぐすむぶぬたるれ".

(** The character class of the pure-punctuation pattern. *)
Definition punct_class (c : char) : bool :=
  in_chars punct_chars c
  || isspace c || (c =? 0x2D)
  || in_range 0x2000 0x206F c || in_range 0x2E00 0x2E7F c
  || in_range 0x3000 0x303F c || in_range 0xFF00 0xFFEF c.

(** The character class of the symbol-counting pattern. *)
Definition symbol_class (c : char) : bool :=
  in_chars symbol_chars c
  || isspace c || (c =? 0x2D)
  || in_range 0x2000 0x206F c || in_range 0x2E00 0x2E7F c
  || in_range 0x3000 0x303F c || in_range 0xFF00 0xFFEF c.

Definition hiragana (c : char) : bool := in_range 0x3040 0x309F c.
Definition katakana (c : char) : bool := in_range 0x30A0 0x30FF c.
Definition japanese (c : char) : bool :=
  in_range 0x3040 0x309F c || in_range 0x30A0 0x30FF c || in_range 0x4E00 0x9FAF c.
Definition conjugation_ending (c : char) : bool :=
  in_chars conjugation_chars c.

(** [re.match(r'^[cls]{lo,hi}$', s)] (no upper bound when [hi] is [None]):
    between [lo] and [hi] characters of the class, up to the end of the
    string or up to a newline that ends it, which is where [$] matches. *)
Definition count_ok (lo : nat) (hi : option nat) (n : nat) : bool :=
  (lo <=? n)%nat && match hi with Some h => (n <=? h)%nat | None => true end.

Definition match_class_rep (cls : char -> bool) (lo : nat) (hi : option nat)
    (s : pystr) : bool :=
  (forallb cls s && count_ok lo hi (length s))
  || match rev s with
     | c :: r => (c =? 0x0A) && forallb cls r && count_ok lo hi (length r)
     | [] => false
     end.

(** [len(re.findall(r'[cls]', s))] *)
Definition count_class (cls : char -> bool) (s : pystr) : Z :=
  Z.of_nat (length (filter (fun c => cls c = true) s)).

Definition particles : pystr :=
  Eval vm_compute in u "はをにがでとやかのもてだよねなをれしたっつくぐすむぶぬ".
Definition important_single : list pystr :=
  Eval vm_compute in map u
  ["い"; "う"; "き"; "く"; "し"; "す"; "つ"; "ぬ"; "ふ"; "む"; "ゆ"; "る"]%string.
Definition allowed_short : list pystr :=
  Eval vm_compute in map u
  ["です"; "ます"; "この"; "その"; "あの"; "どの"; "これ"; "それ";
   "あれ"; "どれ"; "から"; "まで"; "より"; "など"; "でも"; "もう";
   "まだ"; "もの"; "こと"; "とき"; "ため"; "ごと"; "けど"]%string.

(** [len(word) * 0.7]; the literal [0.7] is the binary64 number written
    here in hexadecimal. *)
Definition seventy_percent (word : pystr) : float :=
  PrimFloat.mul (float_of_int (len word)) 0x1.6666666666666p-1%float.

(** The body of the loop: [true] when the word reaches
    [filtered_words.append(word)], [false] when a [continue] (or the failing
    last test) drops it. *)
Definition keep_token (word : pystr) : bool :=
  if bool_decide (word = []) || bool_decide (strip word = []) then false
  else if match_class_rep punct_class 1 None word then false
  else if PrimFloat.leb (seventy_percent word) (float_of_int (count_class symbol_class word))
       then false
  else if (len word =? 1) && is_substring word particles then false
  else if (len word =? 1) && match_class_rep hiragana 1 (Some 1%nat) word
          && negb (bool_decide (word ∈ important_single)) then false
  else if (len word =? 1) && match_class_rep katakana 1 (Some 1%nat) word then false
  else if (len word <=? 2) && match_class_rep hiragana 1 None word
          && negb (bool_decide (word ∈ allowed_short)) then false
  else if match_class_rep conjugation_ending 1 (Some 2%nat) word then false
  else existsb japanese word || negb (match_class_rep japanese 1 None word).

Definition filter_japanese_tokens (words : list pystr) : list pystr :=
  filter (fun word => keep_token word = true) words.

(** ** Star ratings *)

(** [get_star_rating_from_rank(rank)], the helper of
    [calculate_three_category_frequency_statistics].  A rank that is not a
    number makes the comparison raise [TypeError]. *)
Definition get_star_rating_from_rank (rank : pyval) : outcome Z :=
  match rank with
  | PNone => Returns 0
  | _ =>
    b ← py_le_int rank 1500; if b : bool then Returns 5 else
    b ← py_le_int rank 5000; if b : bool then Returns 4 else
    b ← py_le_int rank 15000; if b : bool then Returns 3 else
    b ← py_le_int rank 30000; if b : bool then Returns 2 else
    b ← py_le_int rank 60000; if b : bool then Returns 1 else
    Returns 0
  end.

(** [star_from_rank_filter(rank)], the template filter [star_from_rank]. *)
Definition star_from_rank_filter (rank : pyval) : outcome Z :=
  match rank with
  | PNone => Returns 0
  | _ =>
    b ← py_le_int rank 1500; if b : bool then Returns 5 else
    b ← py_le_int rank 5000; if b : bool then Returns 4 else
    b ← py_le_int rank 15000; if b : bool then Returns 3 else
    b ← py_le_int rank 30000; if b : bool then Returns 2 else
    b ← py_le_int rank 60000; if b : bool then Returns 1 else
    Returns 0
  end.

(** ** The world: globals, the ignored-words file, the HTTP service *)

(** A value of [frequency_cache]: [{'rank': .., 'source': .., 'found': True}]. *)
Record freq_record := { fr_rank : pyval; fr_source : pyval }.

(** What [get_yomitan_frequency_data] returns:
    [{'rank': .., 'source': .., 'found': True}] or [{'found': False}]. *)
Inductive freq_data :=
| Found (rank source : pyval)
| NotFound.

(** A value of [progress_tracker]. *)
Record progress_update := {
  stage : pystr;
  message : pystr;
  progress : pynum;
  total_chunks : option Z;
  completed_chunks : option Z }.

(** The two requests the pipeline sends to the Yomitan API:
    [POST /tokenize {text, scanLength}] and [POST /termEntries {term}]. *)
Inductive request :=
| PostTokenize (text : pystr) (scanLength : Z)
| PostTermEntries (term : pystr).

(** What [requests.post] does: it returns a response, of which the code
    reads [status_code] and [json()] ([None] when [json()] raises), or it
    raises. *)
Inductive http_outcome :=
| Responded (status_code : Z) (json : option pyval)
| RequestRaised (e : exn).

Record world := {
  frequency_cache : option (gmap pystr freq_record);
  progress_tracker : gmap pystr progress_update;
  active_yomitan_operations : Z;
  ignored_words_file : option pyval;
  requests_sent : list request }.

Definition set_frequency_cache (c : option (gmap pystr freq_record)) (w : world) : world :=
  {| frequency_cache := c;
     progress_tracker := progress_tracker w;
     active_yomitan_operations := active_yomitan_operations w;
     ignored_words_file := ignored_words_file w;
     requests_sent := requests_sent w |}.
Definition set_progress_tracker (t : gmap pystr progress_update) (w : world) : world :=
  {| frequency_cache := frequency_cache w;
     progress_tracker := t;
     active_yomitan_operations := active_yomitan_operations w;
     ignored_words_file := ignored_words_file w;
     requests_sent := requests_sent w |}.
Definition set_active_yomitan_operations (n : Z) (w : world) : world :=
  {| frequency_cache := frequency_cache w;
     progress_tracker := progress_tracker w;
     active_yomitan_operations := n;
     ignored_words_file := ignored_words_file w;
     requests_sent := requests_sent w |}.
Definition set_requests_sent (l : list request) (w : world) : world :=
  {| frequency_cache := frequency_cache w;
     progress_tracker := progress_tracker w;
     active_yomitan_operations := active_yomitan_operations w;
     ignored_words_file := ignored_words_file w;
     requests_sent := l |}.

(** Effectful code: a state transformer over the world; [None] is a
    computation without a result. *)
Definition M (A : Type) : Type := world -> option (A * world).

Definition ret {A} (a : A) : M A := fun w => Some (a, w).
Definition bind {A B} (m : M A) (f : A -> M B) : M B :=
  fun w => match m w with
           | Some (a, w') => f a w'
           | None => None
           end.
Definition lift {A} (o : option A) : M A :=
  fun w => match o with Some a => Some (a, w) | None => None end.
Definition modify (f : world -> world) : M unit := fun w => Some (tt, f w).
Definition get_world : M world := fun w => Some (w, w).

Notation "x <~ m ; k" := (bind m (fun x => k))
  (at level 20, m at level 100, k at level 200, only parsing).
Notation "'run' m ; k" := (bind m (fun _ => k))
  (at level 20, m at level 100, k at level 200, only parsing).

(** [if progress_id: progress_tracker[progress_id] = update] *)
Definition report (progress_id : option pystr) (update : progress_update) : M unit :=
  match progress_id with
  | Some id =>
    if bool_decide (id = []) then ret tt
    else modify (fun w => set_progress_tracker (<[id := update]> (progress_tracker w)) w)
  | None => ret tt
  end.

Definition YOMITAN_CHUNK_SIZE : Z := 300.

(** ** FrequencyResolver: the response of [/termEntries] *)

(** [k in v and v[k] == word] *)
Definition field_equals (v : pyval) (k word : pystr) : outcome bool :=
  has ← py_contains k v;
  if has : bool then x ← py_getitem v k; Returns (eq_str x word)
  else Returns false.

(** The loop over [entry['headwords']], left at the first headword whose
    term or reading is the word. *)
Fixpoint exact_match (word : pystr) (headwords : list pyval) : outcome bool :=
  match headwords with
  | [] => Returns false
  | headword :: rest =>
    t ← field_equals headword (u "term") word;
    if t : bool then Returns true else
    r ← field_equals headword (u "reading") word;
    if r : bool then Returns true else
    exact_match word rest
  end.

(** The loop over [entry['frequencies']]; [best] is
    [(best_rank, best_source)], both [None] at the start. *)
Fixpoint scan_frequencies (freq_items : list pyval) (best : pyval * pyval)
    : outcome (pyval * pyval) :=
  match freq_items with
  | [] => Returns best
  | freq_item :: rest =>
    match freq_item with
    | PDict d =>
      match dict_get d (u "frequency") with
      | Some rank =>
        let source := default (PStr (u "Unknown")) (dict_get d (u "dictionary")) in
        better ← match fst best with
                 | PNone => Returns true
                 | best_rank => py_lt rank best_rank
                 end;
        scan_frequencies rest (if better : bool then (rank, source) else best)
      | None => scan_frequencies rest best
      end
    | _ => scan_frequencies rest best
    end
  end.

(** [k in v and v[k]]: the value when the key is there and the value is
    truthy. *)
Definition truthy_field (v : pyval) (k : pystr) : outcome (option pyval) :=
  has ← py_contains k v;
  if has : bool then
    x ← py_getitem v k; Returns (if truthy x then Some x else None)
  else Returns None.

(** The body of [for entry in data['dictionaryEntries']]. *)
Definition scan_entry (word : pystr) (entry : pyval) (best : pyval * pyval)
    : outcome (pyval * pyval) :=
  hw ← truthy_field entry (u "headwords");
  match hw with
  | Some headwords =>
    hs ← py_iter headwords;
    exact_match_found ← exact_match word hs;
    if exact_match_found : bool then
      fq ← truthy_field entry (u "frequencies");
      match fq with
      | Some frequencies => fs ← py_iter frequencies; scan_frequencies fs best
      | None => Returns best
      end
    else Returns best
  | None => Returns best
  end.

Fixpoint scan_entries (word : pystr) (entries : list pyval) (best : pyval * pyval)
    : outcome (pyval * pyval) :=
  match entries with
  | [] => Returns best
  | entry :: rest => b ← scan_entry word entry best; scan_entries word rest b
  end.

(** From [data = response.json()] to [(best_rank, best_source)];
    [None] is one of the two early [return {'found': False}]. *)
Definition best_frequency (word : pystr) (data : pyval) : outcome (option (pyval * pyval)) :=
  if negb (truthy data) then Returns None else
  has ← py_contains (u "dictionaryEntries") data;
  if negb has then Returns None else
  entries ← py_getitem data (u "dictionaryEntries");
  es ← py_iter entries;
  b ← scan_entries word es (PNone, PNone);
  Returns (Some b).

(** ** TokenizerClient: the response of [/tokenize] *)

(** [[option.get('text', '') for option in segment if isinstance(option, dict)]] *)
Fixpoint option_texts (segment : list pyval) : list pyval :=
  match segment with
  | [] => []
  | PDict d :: rest => default (PStr []) (dict_get d (u "text")) :: option_texts rest
  | _ :: rest => option_texts rest
  end.

(** [for i, segment in enumerate(content_array)] *)
Fixpoint collect_segments (segments : list pyval) (words : list pystr)
    : outcome (list pystr) :=
  match segments with
  | [] => Returns words
  | PList (o :: os) :: rest =>
    complete_word ← str_join (option_texts (o :: os));
    collect_segments rest
      (if bool_decide (complete_word = []) then words else words ++ [complete_word])
  | _ :: rest => collect_segments rest words
  end.

(** [for response_item in result] *)
Fixpoint collect_items (items : list pyval) (words : list pystr) : outcome (list pystr) :=
  match items with
  | [] => Returns words
  | PDict d :: rest =>
    match dict_get d (u "content") with
    | Some content_array =>
      segments ← py_iter content_array;
      words' ← collect_segments segments words;
      collect_items rest words'
    | None => collect_items rest words
    end
  | _ :: rest => collect_items rest words
  end.

(** From [result = response.json()] to [words].  The [elif] branch ("old
    fallback logic") is entered only by a list that failed
    [result and len(result) > 0], that is by the empty list, so its loop has
    nothing to iterate (see [direct_format_is_empty]). *)
Definition extract_words (result : pyval) : outcome (list pystr) :=
  nonempty ← (if truthy result then n ← py_len result; Returns (n >? 0)
              else Returns false);
  if nonempty && isinstance_list result then
    items ← py_iter result; collect_items items []
  else if isinstance_list result then Returns []
  else Returns [].

(** ** Ignored words *)

Definition hashable (v : pyval) : bool :=
  match v with
  | PList _ | PDict _ => false
  | _ => true
  end.

Definition str_elements (l : list pyval) : list pystr :=
  omap (fun v => match v with PStr s => Some s | _ => None end) l.

(** [set(data.get('ignored_words', []))] restricted to its string
    elements (the only ones a word can be equal to); any exception gives
    the empty set, as the [except] clause does. *)
Definition ignored_words_of (data : pyval) : gset pystr :=
  match data with
  | PDict d =>
    match py_iter (default (PList []) (dict_get d (u "ignored_words"))) with
    | Returns elems =>
      if forallb hashable elems then list_to_set (str_elements elems) else ∅
    | Raises _ => ∅
    end
  | _ => ∅
  end.

(** [load_ignored_words()]: [ignored_words_file] is the decoded content of
    [data/ignored_words.json], [None] when the file is missing or is not
    valid JSON. *)
Definition load_ignored_words : M (gset pystr) :=
  fun w => Some (match ignored_words_file w with
                 | Some data => ignored_words_of data
                 | None => ∅
                 end, w).

(** ** Word entries, deduplication, sorting *)

Record word_entry := {
  word : pystr;
  count : Z;
  has_frequency : bool;
  rank : pyval;
  source : pyval;
  in_vocabulary : bool;
  is_ignored : bool;
  original_word : pystr;
  original_words : option (list pystr) }.

(** [Counter(words)]: the counts in order of first occurrence. *)
Fixpoint counter_add (w : pystr) (counts : list (pystr * Z)) : list (pystr * Z) :=
  match counts with
  | [] => [(w, 1)]
  | (k, c) :: rest =>
    if pystr_eqb k w then (k, c + 1) :: rest else (k, c) :: counter_add w rest
  end.
Definition Counter (words : list pystr) : list (pystr * Z) :=
  fold_left (fun counts w => counter_add w counts) words [].

(** The [if word_key in word_dict] branch: add the count and record the
    original words. *)
Definition merge_entry (existing entry : word_entry) : word_entry :=
  {| word := word existing;
     count := count existing + count entry;
     has_frequency := has_frequency existing;
     rank := rank existing;
     source := source existing;
     in_vocabulary := in_vocabulary existing;
     is_ignored := is_ignored existing;
     original_word := original_word existing;
     original_words :=
       Some (match original_words existing with
             | Some l => l
             | None => [original_word existing]
             end ++ [original_word entry]) |}.

(** One iteration of the loop over [word_list]; [word_dict] keeps Python's
    insertion order. *)
Fixpoint dedup_step (entry : word_entry) (word_dict : list (pystr * word_entry))
    : list (pystr * word_entry) :=
  match word_dict with
  | [] => [(word entry, entry)]
  | (k, existing) :: rest =>
    if pystr_eqb k (word entry) then (k, merge_entry existing entry) :: rest
    else (k, existing) :: dedup_step entry rest
  end.

Definition deduplicate_word_list (word_list : list word_entry) : list word_entry :=
  map snd (fold_left (fun word_dict entry => dedup_step entry word_dict) word_list []).

(** [l.sort(key=lambda x: x['count'], reverse=True)]: a stable sort by
    decreasing count, here by insertion. *)
Fixpoint insert_by_count (e : word_entry) (l : list word_entry) : list word_entry :=
  match l with
  | [] => [e]
  | x :: rest => if count e <? count x then x :: insert_by_count e rest else e :: l
  end.
Definition sort_by_count (l : list word_entry) : list word_entry :=
  foldr insert_by_count [] l.

(** [sum(item['count'] for item in l)] *)
Definition sum_counts (l : list word_entry) : Z :=
  fold_left (fun acc e => acc + count e) l 0.

(** ** StatsAggregator *)

(** [round(x, 2)] on a float: the exact value of [x] is rounded to the
    nearest multiple of 1/100, ties to even, and the decimal result is read
    back as the nearest binary64 number. *)
Definition round_half_even_div (n d : Z) : Z :=
  let q := n / d in
  let r := n mod d in
  if 2 * r <? d then q
  else if d <? 2 * r then q + 1
  else if Z.even q then q else q + 1.

Definition round2 (x : float) : float :=
  match Prim2SF x with
  | S754_finite s m e =>
    let n := (if s then -1 else 1) * Z.pos m * 100 in
    let q := if 0 <=? e then n * 2 ^ e else round_half_even_div n (2 ^ (- e)) in
    if (q =? 0) && s then (-0)%float else int_truediv q 100
  | _ => x
  end.

Definition pynum_round2 (x : pynum) : pynum :=
  match x with
  | NInt n => NInt n
  | NFloat f => NFloat (round2 f)
  end.

(** The per-category accumulator
    [{'star_counts': {5: 0, .., 0: 0}, 'total_instances': 0, 'total_score': 0}]. *)
Record category_data := {
  cd_star_counts : gmap Z Z;
  cd_total_instances : Z;
  cd_total_score : Z }.

Definition empty_star_counts : gmap Z Z :=
  <[5 := 0]> (<[4 := 0]> (<[3 := 0]> (<[2 := 0]> (<[1 := 0]> (<[0 := 0]> ∅))))).

Definition empty_category : category_data :=
  {| cd_star_counts := empty_star_counts; cd_total_instances := 0; cd_total_score := 0 |}.

(** [for word_info in word_list] *)
Fixpoint add_words (word_list : list word_entry) (data : category_data)
    : outcome category_data :=
  match word_list with
  | [] => Returns data
  | word_info :: rest =>
    stars ← get_star_rating_from_rank (rank word_info);
    add_words rest
      {| cd_star_counts :=
           <[stars := (cd_star_counts data !!! stars) + 1]> (cd_star_counts data);
         cd_total_instances := cd_total_instances data + count word_info;
         cd_total_score := cd_total_score data + stars * count word_info |}
  end.

Record category_stats := {
  cs_star_counts : gmap Z Z;
  cs_unique_words : Z;
  cs_total_instances : Z;
  cs_average_rating : pynum }.

Record star_label := { sl_count : Z; sl_label : pystr; sl_color : pystr }.

Record star_statistics_t := {
  ss_categories : list (pystr * category_stats);
  ss_combined_star_distribution : gmap Z Z;
  ss_total_unique_words : Z;
  ss_total_word_instances : Z;
  ss_star_breakdown : list (Z * star_label) }.

(** [sum(d.values())] *)
Definition sum_values (d : gmap Z Z) : Z := map_fold (fun _ v acc => acc + v) 0 d.

Definition category_summary (data : category_data) : category_stats :=
  let avg_rating :=
    if cd_total_instances data >? 0
    then NFloat (int_truediv (cd_total_score data) (cd_total_instances data))
    else NInt 0 in
  {| cs_star_counts := cd_star_counts data;
     cs_unique_words := sum_values (cd_star_counts data);
     cs_total_instances := cd_total_instances data;
     cs_average_rating := pynum_round2 avg_rating |}.

(** [for star in range(6): combined[star] += star_counts[star]] *)
Definition add_distribution (combined star_counts : gmap Z Z) : gmap Z Z :=
  fold_left (fun acc star => <[star := (acc !!! star) + (star_counts !!! star)]> acc)
            [0; 1; 2; 3; 4; 5] combined.

Definition calculate_three_category_frequency_statistics
    (known_words ignored_words unknown_words : list word_entry)
    : outcome star_statistics_t :=
  known ← add_words known_words empty_category;
  ignored ← add_words ignored_words empty_category;
  unknown ← add_words unknown_words empty_category;
  let categories :=
    [(u "known", category_summary known);
     (u "ignored", category_summary ignored);
     (u "unknown", category_summary unknown)] in
  let combined :=
    fold_left (fun acc c => add_distribution acc (cs_star_counts (snd c)))
              categories empty_star_counts in
  let label (star : Z) (l c : string) :=
    (star, {| sl_count := combined !!! star; sl_label := u l; sl_color := u c |}) in
  Returns
    {| ss_categories := categories;
       ss_combined_star_distribution := combined;
       ss_total_unique_words :=
         fold_left (fun acc c => acc + cs_unique_words (snd c)) categories 0;
       ss_total_word_instances :=
         fold_left (fun acc c => acc + cs_total_instances (snd c)) categories 0;
       ss_star_breakdown :=
         [label 5 "5★ (1-1.5k most common)" "#10b981";
          label 4 "4★ (1.5k-5k)" "#3b82f6";
          label 3 "3★ (5k-15k)" "#8b5cf6";
          label 2 "2★ (15k-30k)" "#f59e0b";
          label 1 "1★ (30k-60k)" "#ef4444";
          label 0 "0★ (60k+ or unknown)" "#6b7280"] |}.

(** [known_word_count / total_processed_words * 100], or [0] when no word
    counts for comprehension. *)
Definition comprehension (known_word_count total_processed_words : Z) : pynum :=
  if total_processed_words >? 0
  then NFloat (PrimFloat.mul (int_truediv known_word_count total_processed_words)
                             (float_of_int 100))
  else NInt 0.

Definition calculate_difficulty_level (comprehension_rate : pynum) : pystr :=
  if pynum_ge_int comprehension_rate 95 then u "1★ Beginner"
  else if pynum_ge_int comprehension_rate 85 then u "2★ Elementary"
  else if pynum_ge_int comprehension_rate 75 then u "3★ Intermediate"
  else if pynum_ge_int comprehension_rate 65 then u "4★ Advanced"
  else u "5★ Expert".

Record parsing_info_t := {
  total_raw_words : Z;
  filtered_unique_words : Z;
  words_with_frequency : Z }.

(** The dictionary [analyze_text_vocabulary] returns. *)
Record analysis := {
  total_words : Z;
  unique_words : Z;
  all_words_analyzed : list word_entry;
  known_words : list word_entry;
  unknown_words : list word_entry;
  ignored_words : list word_entry;
  known_word_count : Z;
  unknown_word_count : Z;
  ignored_word_count : Z;
  total_processed_words : Z;
  comprehension_rate : pynum;
  difficulty_level : pystr;
  star_statistics : star_statistics_t;
  parsing_info : parsing_info_t }.

(** The lists the classification loop fills. *)
Record classified := {
  all_words_with_frequency : list word_entry;
  cl_known_words : list word_entry;
  cl_unknown_words : list word_entry;
  ignored_words_with_data : list word_entry }.

(** [len([w for w in l if w[key]])] *)
Definition count_where (f : word_entry -> bool) (l : list word_entry) : Z :=
  Z.of_nat (length (filter (fun w => f w = true) l)).

(** [re.sub(r'<[^>]+>', '', s)]: every [<], followed by at least one
    character other than [>] and then by [>], is removed with what it
    encloses. *)
Fixpoint tag_rest_length (r : pystr) : option nat :=
  match r with
  | [] => None
  | c :: r' => if c =? 0x3E then Some 1%nat else S <$> tag_rest_length r'
  end.
Fixpoint remove_tags_from (skip : nat) (s : pystr) : pystr :=
  match s with
  | [] => []
  | c :: r =>
    match skip with
    | S k => remove_tags_from k r
    | O =>
      if c =? 0x3C then
        match tag_rest_length r with
        | Some n => if (2 <=? n)%nat then remove_tags_from n r
                    else c :: remove_tags_from 0 r
        | None => c :: remove_tags_from 0 r
        end
      else c :: remove_tags_from 0 r
    end
  end.
Definition remove_html_tags (s : pystr) : pystr := remove_tags_from 0 s.

(** ** The pipeline *)

Section Pipeline.

(** The Yomitan API server: what the next request gets, given the requests
    sent before it. *)
Variable service : list request -> request -> http_outcome.

(** [requests.post(url, json=.., timeout=..)] *)
Definition requests_post (r : request) : M http_outcome :=
  fun w => Some (service (requests_sent w) r,
                 set_requests_sent (requests_sent w ++ [r]) w).

(** [get_yomitan_frequency_data(word)] *)
Definition get_yomitan_frequency_data (word : pystr) : M freq_data :=
  w <~ get_world ;
  match frequency_cache w ≫= (.!! word) with
  | Some cached_data => ret (Found (fr_rank cached_data) (fr_source cached_data))
  | None =>
    response <~ requests_post (PostTermEntries word) ;
    match response with
    | Responded status_code body =>
      if negb (status_code =? 200) then ret NotFound
      else match body with
      | Some data =>
        match best_frequency word data with
        | Returns (Some (best_rank, best_source)) =>
          match best_rank with
          | PNone => ret NotFound
          | _ =>
            run (modify (fun w =>
               set_frequency_cache
                 (Some (<[word := {| fr_rank := best_rank; fr_source := best_source |}]>
                          (default ∅ (frequency_cache w)))) w)) ;
            ret (Found best_rank best_source)
          end
        | Returns None => ret NotFound
        | Raises e =>
          match e with
          | Timeout | ConnectionError | RequestException => ret NotFound
          | OtherException => ret NotFound
          end
        end
      | None => ret NotFound
      end
    | RequestRaised e =>
      match e with
      | Timeout | ConnectionError | RequestException => ret NotFound
      | OtherException => ret NotFound
      end
    end
  end.

(** [_tokenize_single_chunk(text, max_scan_length)] *)
Definition _tokenize_single_chunk (text : pystr) (max_scan_length : Z)
    : M (list pystr * bool) :=
  let handler (e : exn) : M (list pystr * bool) :=
    match e with
    | Timeout => tokens <~ lift (_simple_japanese_tokenize text) ; ret (tokens, true)
    | ConnectionError => tokens <~ lift (_simple_japanese_tokenize text) ; ret (tokens, true)
    | RequestException => tokens <~ lift (_simple_japanese_tokenize text) ; ret (tokens, true)
    | OtherException => tokens <~ lift (_simple_japanese_tokenize text) ; ret (tokens, true)
    end in
  run (modify (fun w => set_active_yomitan_operations (active_yomitan_operations w + 1) w)) ;
  response <~ requests_post (PostTokenize text max_scan_length) ;
  result <~ match response with
            | Responded status_code body =>
              if status_code =? 200 then
                match body with
                | Some result =>
                  match extract_words result with
                  | Returns words => ret (words, true)
                  | Raises e => handler e
                  end
                | None => handler RequestException
                end
              else ret ([], false)
            | RequestRaised e => handler e
            end ;
  run (modify (fun w =>
     set_active_yomitan_operations (Z.max 0 (active_yomitan_operations w - 1)) w)) ;
  ret result.

(** The progress value [10 + done / len(chunks) * 80]. *)
Definition chunk_progress (done n_chunks : Z) : pynum :=
  NFloat (PrimFloat.add (float_of_int 10)
            (PrimFloat.mul (int_truediv done n_chunks) (float_of_int 80))).

(** [for i, chunk in enumerate(chunks, 1)] of [tokenize_with_yomitan_api];
    [n] is [len(chunks)]. *)
Fixpoint tokenize_chunks (progress_id : option pystr) (max_scan_length n i : Z)
    (chunks : list pystr) (all_words : list pystr) : M (list pystr) :=
  match chunks with
  | [] => ret all_words
  | chunk :: rest =>
    run report progress_id
      {| stage := u "tokenizing";
         message := u "Processing chunk " ++ str_of_int i ++ u " of " ++ str_of_int n
                    ++ u "...";
         total_chunks := Some n;
         completed_chunks := Some (i - 1);
         progress := chunk_progress (i - 1) n |} ;
    r <~ _tokenize_single_chunk chunk max_scan_length ;
    let '(chunk_words, success) := r in
    if negb success then
      tokenize_chunks progress_id max_scan_length n (i + 1) rest all_words
    else
      run report progress_id
        {| stage := u "tokenizing";
           message := u "Completed chunk " ++ str_of_int i ++ u " of " ++ str_of_int n
                      ++ u " (" ++ str_of_int (Z.of_nat (length chunk_words))
                      ++ u " tokens)";
           total_chunks := Some n;
           completed_chunks := Some i;
           progress := chunk_progress i n |} ;
      tokenize_chunks progress_id max_scan_length n (i + 1) rest
        (all_words ++ chunk_words)
  end.

(** [tokenize_with_yomitan_api(text, max_scan_length, chunk_size, progress_id)];
    the source's defaults are [max_scan_length=50], [chunk_size=None] and
    [progress_id=None]. *)
Definition tokenize_with_yomitan_api (text : option pystr) (max_scan_length : Z)
    (chunk_size : option Z) (progress_id : option pystr) : M (list pystr * bool) :=
  let chunk_size := default YOMITAN_CHUNK_SIZE chunk_size in
  match text with
  | None => ret ([], true)
  | Some text =>
    if bool_decide (text = []) || bool_decide (strip text = []) then ret ([], true)
    else if len text <=? chunk_size then
      run report progress_id
        {| stage := u "tokenizing";
           message := u "Processing text...";
           total_chunks := None;
           completed_chunks := None;
           progress := NInt 50 |} ;
      _tokenize_single_chunk text max_scan_length
    else
      chunks <~ lift (_split_text_into_chunks text chunk_size) ;
      let n := Z.of_nat (length chunks) in
      run report progress_id
        {| stage := u "chunking";
           message := u "Split text into " ++ str_of_int n ++ u " chunks";
           total_chunks := Some n;
           completed_chunks := Some 0;
           progress := NInt 10 |} ;
      all_words <~ tokenize_chunks progress_id max_scan_length n 1 chunks [] ;
      let total_success := Z.of_nat (length all_words) >? 0 in
      run report progress_id
        {| stage := u "complete";
           message := u "Tokenization complete! "
                      ++ str_of_int (Z.of_nat (length all_words)) ++ u " total tokens";
           total_chunks := Some n;
           completed_chunks := Some n;
           progress := NInt 90 |} ;
      ret (all_words, total_success)
  end.

(** [tokenize_japanese_text(text, progress_id)] *)
Definition tokenize_japanese_text (text : option pystr) (progress_id : option pystr)
    : M (list pystr) :=
  match text with
  | None => ret []
  | Some text =>
    if bool_decide (text = []) || bool_decide (strip text = []) then ret []
    else
      run report progress_id
        {| stage := u "preprocessing";
           message := u "Preparing text for tokenization...";
           total_chunks := None;
           completed_chunks := None;
           progress := NInt 5 |} ;
      let text := remove_html_tags (strip text) in
      r <~ tokenize_with_yomitan_api (Some text) 50 None progress_id ;
      let '(yomitan_words, success) := r in
      if success && negb (bool_decide (yomitan_words = [])) then
        run report progress_id
          {| stage := u "filtering";
             message := u "Filtering " ++ str_of_int (Z.of_nat (length yomitan_words))
                        ++ u " tokens...";
             total_chunks := None;
             completed_chunks := None;
             progress := NInt 95 |} ;
        let filtered_words := filter_japanese_tokens yomitan_words in
        run report progress_id
          {| stage := u "complete";
             message := u "Tokenization complete! "
                        ++ str_of_int (Z.of_nat (length filtered_words))
                        ++ u " tokens after filtering";
             total_chunks := None;
             completed_chunks := None;
             progress := NInt 100 |} ;
        ret filtered_words
      else
        run report progress_id
          {| stage := u "error";
             message := u "Yomitan API not available";
             total_chunks := None;
             completed_chunks := None;
             progress := NInt 0 |} ;
        ret []
  end.

(** [for word, count in word_counts.items()] of [analyze_text_vocabulary];
    [processed] counts the words before this one. *)
Fixpoint classify_words (vocabulary_set ignored : gset pystr)
    (progress_id : option pystr) (total_unique processed : Z)
    (items : list (pystr * Z)) (acc : classified) : M classified :=
  match items with
  | [] => ret acc
  | (word, count) :: rest =>
    let processed := processed + 1 in
    run report progress_id
      {| stage := u "vocabulary_lookup";
         message := u "Processing word " ++ str_of_int processed ++ u "/"
                    ++ str_of_int total_unique ++ u ": " ++ word
                    ++ u " (frequency + vocabulary)";
         total_chunks := None;
         completed_chunks := None;
         progress := NFloat (PrimFloat.add (float_of_int 40)
                       (PrimFloat.mul (int_truediv processed total_unique)
                                      (float_of_int 50))) |} ;
    freq_data <~ get_yomitan_frequency_data word ;
    let is_in_vocab := bool_decide (word ∈ vocabulary_set) in
    let is_ignored := bool_decide (word ∈ ignored) in
    let word_entry :=
      {| word := word;
         count := count;
         has_frequency := match freq_data with Found _ _ => true | NotFound => false end;
         rank := match freq_data with Found r _ => r | NotFound => PNone end;
         source := match freq_data with Found _ s => s | NotFound => PNone end;
         in_vocabulary := is_in_vocab;
         is_ignored := is_ignored;
         original_word := word;
         original_words := None |} in
    classify_words vocabulary_set ignored progress_id total_unique processed rest
      {| all_words_with_frequency := all_words_with_frequency acc ++ [word_entry];
         ignored_words_with_data :=
           if is_ignored then ignored_words_with_data acc ++ [word_entry]
           else ignored_words_with_data acc;
         cl_known_words :=
           if is_ignored then cl_known_words acc
           else if is_in_vocab then cl_known_words acc ++ [word_entry]
           else cl_known_words acc;
         cl_unknown_words :=
           if is_ignored then cl_unknown_words acc
           else if is_in_vocab then cl_unknown_words acc
           else cl_unknown_words acc ++ [word_entry] |}
  end.

(** [analyze_text_vocabulary(text_content, vocabulary_set, progress_id)].
    The only exception that can leave it is a [TypeError] of the star
    statistics, on a rank that is not a number. *)
Definition analyze_text_vocabulary (text_content : option pystr)
    (vocabulary_set : gset pystr) (progress_id : option pystr)
    : M (outcome analysis) :=
  run report progress_id
    {| stage := u "starting";
       message := u "Starting vocabulary analysis...";
       total_chunks := None;
       completed_chunks := None;
       progress := NInt 0 |} ;
  ignored <~ load_ignored_words ;
  words <~ tokenize_japanese_text text_content progress_id ;
  run report progress_id
    {| stage := u "analyzing";
       message := u "Getting yomitan data (frequency + vocabulary) for "
                  ++ str_of_int (Z.of_nat (length words)) ++ u " words...";
       total_chunks := None;
       completed_chunks := None;
       progress := NInt 40 |} ;
  let word_counts := Counter words in
  let total_unique := Z.of_nat (length word_counts) in
  lists <~ classify_words vocabulary_set ignored progress_id total_unique 0 word_counts
             {| all_words_with_frequency := [];
                cl_known_words := [];
                cl_unknown_words := [];
                ignored_words_with_data := [] |} ;
  let all_words := sort_by_count (deduplicate_word_list (all_words_with_frequency lists)) in
  let known := sort_by_count (deduplicate_word_list (cl_known_words lists)) in
  let unknown := sort_by_count (deduplicate_word_list (cl_unknown_words lists)) in
  let ignored_data := sort_by_count (ignored_words_with_data lists) in
  let known_count := sum_counts known in
  let unknown_count := sum_counts unknown in
  let ignored_count := sum_counts ignored_data in
  let total_processed := known_count + unknown_count in
  let rate := comprehension known_count total_processed in
  run report progress_id
    {| stage := u "complete";
       message := u "Analysis complete! Found "
                  ++ str_of_int (count_where has_frequency all_words)
                  ++ u " frequency matches, "
                  ++ str_of_int (count_where in_vocabulary all_words)
                  ++ u " vocabulary matches via yomitan";
       total_chunks := None;
       completed_chunks := None;
       progress := NInt 100 |} ;
  ret (star_stats ← calculate_three_category_frequency_statistics known ignored_data unknown;
       Returns
         {| total_words := Z.of_nat (length words);
            unique_words := Z.of_nat (length word_counts);
            all_words_analyzed := all_words;
            known_words := known;
            unknown_words := unknown;
            ignored_words := ignored_data;
            known_word_count := known_count;
            unknown_word_count := unknown_count;
            ignored_word_count := ignored_count;
            total_processed_words := total_processed;
            comprehension_rate := rate;
            difficulty_level := calculate_difficulty_level rate;
            star_statistics := star_stats;
            parsing_info :=
              {| total_raw_words := Z.of_nat (length words);
                 filtered_unique_words := Z.of_nat (length word_counts);
                 words_with_frequency := count_where has_frequency all_words |} |}).

End Pipeline.

(** ** The service's dictionary entries, as its interface describes them

    Each entry has headwords (a term, and optionally a reading) and
    frequencies (an integer rank and the name of the dictionary it comes
    from).  [encode_response] is the JSON document that carries them. *)

Record headword_t := { hw_term : pystr; hw_reading : option pystr }.
Record frequency_t := { fq_frequency : Z; fq_dictionary : pystr }.
Record entry_t := { en_headwords : list headword_t; en_frequencies : list frequency_t }.

Definition encode_headword (h : headword_t) : pyval :=
  PDict ((u "term", PStr (hw_term h))
           :: match hw_reading h with
              | Some r => [(u "reading", PStr r)]
              | None => []
              end).
Definition encode_frequency (f : frequency_t) : pyval :=
  PDict [(u "frequency", PInt (fq_frequency f)); (u "dictionary", PStr (fq_dictionary f))].
Definition encode_entry (e : entry_t) : pyval :=
  PDict [(u "headwords", PList (map encode_headword (en_headwords e)));
         (u "frequencies", PList (map encode_frequency (en_frequencies e)))].
Definition encode_response (entries : list entry_t) : pyval :=
  PDict [(u "dictionaryEntries", PList (map encode_entry entries))].

(** An entry qualifies for a word when one of its headwords has the word
    as its term or as its reading; the candidates are the frequency items
    of the qualifying entries. *)
Definition headword_is (word : pystr) (h : headword_t) : bool :=
  bool_decide (hw_term h = word) || bool_decide (hw_reading h = Some word).
Definition qualifies (word : pystr) (e : entry_t) : bool :=
  existsb (headword_is word) (en_headwords e).
Definition candidates (word : pystr) (entries : list entry_t) : list frequency_t :=
  flat_map en_frequencies (filter (fun e => qualifies word e = true) entries).

(** [(best_rank, best_source)] when the best item so far is [b]. *)
Definition encode_best (b : option frequency_t) : pyval * pyval :=
  match b with
  | Some f => (PInt (fq_frequency f), PStr (fq_dictionary f))
  | None => (PNone, PNone)
  end.

(** The better of the best item so far and the next item: the next one
    only when its rank is strictly lower. *)
Definition better (b : option frequency_t) (f : frequency_t) : option frequency_t :=
  match b with
  | Some g => if fq_frequency f <? fq_frequency g then Some f else Some g
  | None => Some f
  end.

(** ** Notions used by the statements *)

(** A chunk that is not empty and fits the size. *)
Definition chunk_ok (chunk_size : Z) (c : pystr) : Prop := c <> [] /\ len c <= chunk_size.

(** A response that makes the client fall back: the request raised, the
    body of a 200 response is not JSON, or its processing raises. *)
Definition degraded (response : http_outcome) : Prop :=
  match response with
  | RequestRaised _ => True
  | Responded status_code body =>
    status_code = 200 /\
    match body with
    | None => True
    | Some result => exists e, extract_words result = Raises e
    end
  end.

(** An effectful computation that gives a result in every world. *)
Definition total {A} (m : M A) : Prop := forall w, exists a w', m w = Some (a, w').

(** The three categories, read off an entry. *)
Definition ignored_entry (e : word_entry) : Prop := is_ignored e = true.
Definition known_entry (e : word_entry) : Prop :=
  is_ignored e = false /\ in_vocabulary e = true.
Definition unknown_entry (e : word_entry) : Prop :=
  is_ignored e = false /\ in_vocabulary e = false.

#[local] Instance ignored_entry_dec e : Decision (ignored_entry e).
Proof. unfold ignored_entry. apply _. Defined.
#[local] Instance known_entry_dec e : Decision (known_entry e).
Proof. unfold known_entry. apply _. Defined.
#[local] Instance unknown_entry_dec e : Decision (unknown_entry e).
Proof. unfold unknown_entry. apply _. Defined.

(** What the loop makes of one [(word, count)] item. *)
Definition entry_of (vocabulary_set ignored : gset pystr) (item : pystr * Z)
    (e : word_entry) : Prop :=
  word e = fst item /\ count e = snd item /\
  is_ignored e = bool_decide (fst item ∈ ignored) /\
  in_vocabulary e = bool_decide (fst item ∈ vocabulary_set).

(** The set [load_ignored_words()] returns in world [w]. *)
Definition loaded_ignored_words (w : world) : gset pystr :=
  match ignored_words_file w with
  | Some data => ignored_words_of data
  | None => ∅
  end.

(** ** Example worlds and services *)

Definition example_world : world :=
  {| frequency_cache := None;
     progress_tracker := ∅;
     active_yomitan_operations := 0;
     ignored_words_file := None;
     requests_sent := [] |}.

(** A [/tokenize] response whose content has one segment per token. *)
Definition tokens_response (tokens : list pystr) : pyval :=
  PList [PDict [(u "content",
                 PList (map (fun t => PList [PDict [(u "text", PStr t)]]) tokens))]].

(** A service that segments every text into eighty times one word and
    twenty times another, and has no dictionary entries. *)
Definition service_80_20 : list request -> request -> http_outcome :=
  fun _ r =>
    match r with
    | PostTokenize _ _ =>
      Responded 200 (Some (tokens_response (replicate 80 (u "猫") ++ replicate 20 (u "犬"))))
    | PostTermEntries _ => Responded 200 (Some (PDict [(u "dictionaryEntries", PList [])]))
    end.

(** A service whose requests all time out, and one that answers every
    request with status 500. *)
Definition service_timeout : list request -> request -> http_outcome :=
  fun _ _ => RequestRaised Timeout.
Definition service_error_500 : list request -> request -> http_outcome :=
  fun _ _ => Responded 500 None.

(** The entries of the frequency example: one for the headword [猫科] with
    rank 10, one for the headword [猫] with rank 500 from source [X]. *)
Definition neko_entries : list entry_t :=
  [ {| en_headwords := [ {| hw_term := u "猫科"; hw_reading := Some (u "ねこか") |} ];
       en_frequencies := [ {| fq_frequency := 10; fq_dictionary := u "Y" |} ] |};
    {| en_headwords := [ {| hw_term := u "猫"; hw_reading := Some (u "ねこ") |} ];
       en_frequencies := [ {| fq_frequency := 500; fq_dictionary := u "X" |} ] |} ].
Definition service_neko : list request -> request -> http_outcome :=
  fun _ r =>
    match r with
    | PostTermEntries _ => Responded 200 (Some (encode_response neko_entries))
    | PostTokenize _ _ => Responded 200 (Some (tokens_response [u "猫"]))
    end.

(** A world whose ignored-words file lists [猫]. *)
Definition world_ignoring_neko : world :=
  {| frequency_cache := None;
     progress_tracker := ∅;
     active_yomitan_operations := 0;
     ignored_words_file := Some (PDict [(u "ignored_words", PList [PStr (u "猫")])]);
     requests_sent := [] |}.

(** * Notions of the further properties *)

(** ** FallbackTokenizer: what the tokens are made of *)

(** A token of the fallback tokenizer: a listed adjective or one character,
    without whitespace. *)
Definition solid (t : pystr) : Prop :=
  t <> [] /\ forallb (fun c => negb (isspace c)) t = true /\
  (t ∈ common_i_adjectives \/ length t = 1%nat).

(** ** ChunkSplitter: where the chunks end *)

(** The characters after which a chunk may end early. *)
Definition break_characters : list Z :=
  sentence_endings ++ other_punctuation ++ whitespace_breaks.

(** A chunk that is full, or that ends with a break character. *)
Definition ends_at_break (chunk_size : Z) (chunk : pystr) : Prop :=
  len chunk = chunk_size \/ exists b, last chunk = Some b /\ b ∈ break_characters.




(** The part of the world that progress reports leave alone. *)
Definition same_but_progress (w w' : world) : Prop :=
  frequency_cache w' = frequency_cache w /\
  active_yomitan_operations w' = active_yomitan_operations w /\
  ignored_words_file w' = ignored_words_file w /\
  requests_sent w' = requests_sent w.

(** The server is down: every request raises. *)
Definition unreachable (service : list request -> request -> http_outcome) : Prop :=
  forall log r, exists e, service log r = RequestRaised e.


(** The text [tokenize_with_yomitan_api] goes on with: none when [text] is
    missing or blank. *)
Definition to_tokenize (text : option pystr) : pystr :=
  match text with
  | Some text => if bool_decide (text = []) || bool_decide (strip text = []) then [] else text
  | None => []
  end.

(** The text [tokenize_japanese_text] has tokenized: the stripped text
    without its tags, when something is left of it. *)
Definition text_sent (text : option pystr) : pystr :=
  match text with
  | Some text =>
    if bool_decide (text = []) || bool_decide (strip text = []) then []
    else to_tokenize (Some (remove_html_tags (strip text)))
  | None => []
  end.

(** A word the frequency cache of [w] does not hold. *)
Definition uncached (w : world) (word : pystr) : Prop :=
  frequency_cache w ≫= (.!! word) = None.

#[local] Instance uncached_dec w word : Decision (uncached w word).
Proof. unfold uncached. apply _. Defined.

(** The number of occurrences of [word] among [words]. *)
Definition occurrences (word : pystr) (words : list pystr) : Z :=
  Z.of_nat (length (filter (fun x => x = word) words)).

(** The number of entries of [word_list] that rate [k] stars. *)
Definition has_stars (k : Z) (e : word_entry) : bool :=
  match get_star_rating_from_rank (rank e) with
  | Returns stars => stars =? k
  | Raises _ => false
  end.
Definition star_tally (k : Z) (word_list : list word_entry) : Z :=
  Z.of_nat (length (filter (fun e => has_stars k e = true) word_list)).

(** A rank the star rating accepts: [None] or an integer. *)
Definition rated (e : word_entry) : Prop :=
  rank e = PNone \/ is_Some (as_int (rank e)).

(** The keys of a star distribution: [0] to [5]. *)
Definition star_levels : gset Z := list_to_set [0; 1; 2; 3; 4; 5].

(** A [/tokenize] response of the shape the client expects: one item whose
    [content] lists the segments, each segment a list of parsing options
    with a [text]. *)
Definition encode_segment (texts : list pystr) : pyval :=
  PList (map (fun t => PDict [(u "text", PStr t)]) texts).
Definition segments_response (segments : list (list pystr)) : pyval :=
  PList [PDict [(u "content", PList (map encode_segment segments))]].

(** ** Star rating of a word: [get_word_star_rating] *)








Section StarRating.

Variable service : list request -> request -> http_outcome.


End StarRating.

(** ** Vocabulary match through dictionary forms: [get_yomitan_vocabulary_match] *)

(** [{'found': .., 'matched_form': .., 'original_word': ..}] *)
Record vocabulary_match := {
  vm_found : bool;
  vm_matched_form : pyval;
  vm_original_word : pystr }.

(** [x in vocabulary_set], for a set of strings: a [TypeError] when [x]
    cannot be hashed. *)
Definition in_vocabulary_set (x : pyval) (vocabulary_set : gset pystr) : outcome bool :=
  match x with
  | PStr s => Returns (bool_decide (s ∈ vocabulary_set))
  | PList _ | PDict _ => Raises OtherException
  | _ => Returns false
  end.

(** [if k in headword: form = headword[k]; if form in vocabulary_set: ..]:
    the form when it matches. *)
Definition matching_field (vocabulary_set : gset pystr) (headword : pyval) (k : pystr)
    : outcome (option pyval) :=
  has ← py_contains k headword;
  if has : bool then
    form ← py_getitem headword k;
    known ← in_vocabulary_set form vocabulary_set;
    Returns (if known : bool then Some form else None)
  else Returns None.

(** [for headword in entry['headwords']], left at the first matching form. *)
Fixpoint match_headwords (vocabulary_set : gset pystr) (headwords : list pyval)
    : outcome (option pyval) :=
  match headwords with
  | [] => Returns None
  | headword :: rest =>
    t ← matching_field vocabulary_set headword (u "term");
    match t with
    | Some dictionary_form => Returns (Some dictionary_form)
    | None =>
      r ← matching_field vocabulary_set headword (u "reading");
      match r with
      | Some reading_form => Returns (Some reading_form)
      | None => match_headwords vocabulary_set rest
      end
    end
  end.

(** [for i, entry in enumerate(entries)] *)
Fixpoint match_entries (vocabulary_set : gset pystr) (entries : list pyval)
    : outcome (option pyval) :=
  match entries with
  | [] => Returns None
  | entry :: rest =>
    hw ← truthy_field entry (u "headwords");
    match hw with
    | Some headwords =>
      hs ← py_iter headwords;
      m ← match_headwords vocabulary_set hs;
      match m with
      | Some form => Returns (Some form)
      | None => match_entries vocabulary_set rest
      end
    | None => match_entries vocabulary_set rest
    end
  end.

(** From [data = response.json()] to the matched form, [None] when there
    is none. *)
Definition matched_form_of (vocabulary_set : gset pystr) (data : pyval)
    : outcome (option pyval) :=
  if negb (truthy data) then Returns None else
  match
    match data with
    | PDict d => dict_get d (u "dictionaryEntries")
    | PList _ => Some data
    | _ => None
    end
  with
  | Some entries =>
    if negb (truthy entries) then Returns None
    else es ← py_iter entries; match_entries vocabulary_set es
  | None => Returns None
  end.

Section VocabularyMatch.

Variable service : list request -> request -> http_outcome.

(** [get_yomitan_vocabulary_match(word, vocabulary_set)] *)
Definition get_yomitan_vocabulary_match (word : pystr) (vocabulary_set : gset pystr)
    : M vocabulary_match :=
  let not_found :=
    {| vm_found := false; vm_matched_form := PNone; vm_original_word := word |} in
  if bool_decide (word ∈ vocabulary_set) then
    ret {| vm_found := true; vm_matched_form := PStr word; vm_original_word := word |}
  else
    response <~ requests_post service (PostTermEntries word) ;
    match response with
    | Responded status_code body =>
      if negb (status_code =? 200) then ret not_found
      else match body with
      | Some data =>
        match matched_form_of vocabulary_set data with
        | Returns (Some form) =>
          ret {| vm_found := true; vm_matched_form := form; vm_original_word := word |}
        | Returns None => ret not_found
        | Raises e =>
          match e with
          | Timeout | ConnectionError | RequestException => ret not_found
          | OtherException => ret not_found
          end
        end
      | None => ret not_found
      end
    | RequestRaised e =>
      match e with
      | Timeout | ConnectionError | RequestException => ret not_found
      | OtherException => ret not_found
      end
    end.

End VocabularyMatch.

(** The forms a well-formed document offers, in the order the loops see
    them: for every headword its term, then its reading. *)
Definition headword_forms (h : headword_t) : list pystr :=
  hw_term h :: match hw_reading h with Some r => [r] | None => [] end.
Definition dictionary_forms (entries : list entry_t) : list pystr :=
  flat_map (fun e => flat_map headword_forms (en_headwords e)) entries.

(** * Verified properties *)

(** ** Strings and slices *)

Lemma len_nonneg (s : pystr) : 0 <= len s.
Proof. unfold len. lia. Qed.

Lemma len_zero_nil (s : pystr) : len s = 0 -> s = [].
Proof. destruct s; [reflexivity | unfold len; simpl; lia]. Qed.

Lemma pystr_eqb_eq (a b : pystr) : pystr_eqb a b = true <-> a = b.
Proof. unfold pystr_eqb. apply bool_decide_eq_true. Qed.

Lemma slice_inner (s : pystr) (lo hi : Z) :
  0 <= lo -> lo <= hi -> hi <= len s ->
  slice s lo hi = take (Z.to_nat (hi - lo)) (drop (Z.to_nat lo) s).
Proof.
  intros Hlo Hhi Hlen. unfold slice, norm_index.
  destruct (Z.ltb_spec lo 0); [lia |].
  destruct (Z.ltb_spec hi 0); [lia |].
  rewrite !Z.min_l by lia. reflexivity.
Qed.

Lemma slice_inner_len (s : pystr) (lo hi : Z) :
  0 <= lo -> lo <= hi -> hi <= len s -> len (slice s lo hi) = hi - lo.
Proof.
  intros Hlo Hhi Hlen. rewrite slice_inner by assumption.
  unfold len in *. rewrite length_take, length_drop. lia.
Qed.

Lemma slice_from_inner (s : pystr) (lo : Z) :
  0 <= lo -> lo <= len s -> slice_from s lo = drop (Z.to_nat lo) s.
Proof.
  intros Hlo Hlen. unfold slice_from, norm_index.
  destruct (Z.ltb_spec lo 0); [lia |]. rewrite Z.min_l by lia. reflexivity.
Qed.

Lemma slice_forward (s : pystr) (i n : Z) :
  0 <= i -> 0 <= n -> slice s i (i + n) = take (Z.to_nat n) (drop (Z.to_nat i) s).
Proof.
  intros Hi Hn. unfold slice, norm_index.
  destruct (Z.ltb_spec i 0); [lia |]. destruct (Z.ltb_spec (i + n) 0); [lia |].
  destruct (Z.le_gt_cases i (len s)) as [Hin | Hout].
  - rewrite (Z.min_l i) by lia.
    destruct (Z.le_gt_cases (i + n) (len s)).
    + rewrite Z.min_l by lia. f_equal. lia.
    + rewrite Z.min_r by lia. rewrite !take_ge; [reflexivity | |];
        rewrite length_drop; unfold len in *; lia.
  - rewrite !Z.min_r by lia. rewrite Z.sub_diag. simpl.
    rewrite (drop_ge s (Z.to_nat i)) by (unfold len in *; lia).
    symmetry. apply take_nil.
Qed.

(** A window of non-positive width taken before the end of the text stops
    short of the end. *)
Lemma slice_backward_len (s : pystr) (start width : Z) :
  width <= 0 -> start < len s -> start + len (slice s start (start + width)) < len s.
Proof.
  intros Hw Hs. unfold slice, norm_index, len in *.
  rewrite length_take, length_drop.
  destruct (Z.ltb_spec start 0), (Z.ltb_spec (start + width) 0); lia.
Qed.

Lemma last_index_of_range (c : char) (s : pystr) (i acc : Z) :
  last_index_of c s i acc = acc \/
  (i <= last_index_of c s i acc /\ last_index_of c s i acc < i + len s).
Proof.
  revert i acc. induction s as [| x r IH]; intros i acc; simpl; [left; reflexivity |].
  replace (len (x :: r)) with (1 + len r) by (unfold len; simpl; lia).
  destruct (IH (i + 1) (if x =? c then i else acc)) as [-> | [H1 H2]].
  - destruct (x =? c); [right; pose proof (len_nonneg r); lia | left; reflexivity].
  - right. lia.
Qed.

Lemma rfind_range (s : pystr) (c : char) (from : Z) :
  0 <= from -> rfind s c from = -1 \/ (from <= rfind s c from /\ rfind s c from < len s).
Proof.
  intros Hfrom. unfold rfind.
  destruct (Z.ltb_spec from 0); [lia |].
  destruct (last_index_of_range c (drop (Z.to_nat from) s) from (-1)) as [-> | [H1 H2]];
    [left; reflexivity | right].
  split; [exact H1 |].
  unfold len in *. rewrite length_drop in H2. lia.
Qed.

Lemma lstrip_blank (s : pystr) : forallb isspace s = true -> lstrip s = [].
Proof.
  induction s as [| c r IH]; simpl; [reflexivity |].
  intros [Hc Hr]%andb_true_iff. rewrite Hc. exact (IH Hr).
Qed.

Lemma strip_blank (s : pystr) : forallb isspace s = true -> strip s = [].
Proof. intros H. unfold strip. rewrite (lstrip_blank s H). reflexivity. Qed.

(** ** ChunkSplitter *)

Lemma find_break_range (chunk_text : pystr) (from : Z) (puncts : list char) (p : Z) :
  0 <= from -> find_break chunk_text from puncts = Some p ->
  from <= p /\ p < len chunk_text.
Proof.
  intros Hfrom. induction puncts as [| punct rest IH]; simpl; [discriminate |].
  destruct (Z.eqb_spec (rfind chunk_text punct from) (-1)) as [E | E]; simpl.
  - exact IH.
  - intros [= <-]. destruct (rfind_range chunk_text punct from Hfrom); [contradiction | assumption].
Qed.

(** The end of a chunk is the end of its window, or one past a break point
    found in the window. *)
Lemma chunk_end_cases (text : pystr) (chunk_size start : Z) :
  chunk_end text chunk_size start = start + chunk_size \/
  exists p, 0 <= p /\ p < len (slice text start (start + chunk_size)) /\
            chunk_end text chunk_size start = start + p + 1.
Proof.
  unfold chunk_end.
  set (from := Z.max start (start + chunk_size - 200) - start).
  assert (Hfrom : 0 <= from) by (unfold from; lia).
  set (ct := slice text start (start + chunk_size)).
  destruct (find_break ct from sentence_endings) as [p |] eqn:E1.
  { right. exists p. apply find_break_range in E1; [| exact Hfrom]. split_and!; [lia | lia | reflexivity]. }
  destruct (find_break ct from other_punctuation) as [p |] eqn:E2.
  { right. exists p. apply find_break_range in E2; [| exact Hfrom]. split_and!; [lia | lia | reflexivity]. }
  destruct (find_break ct from whitespace_breaks) as [p |] eqn:E3.
  { right. exists p. apply find_break_range in E3; [| exact Hfrom]. split_and!; [lia | lia | reflexivity]. }
  left. reflexivity.
Qed.

Lemma chunk_end_forward (text : pystr) (chunk_size start : Z) :
  0 < chunk_size -> 0 <= start -> start + chunk_size <= len text ->
  start < chunk_end text chunk_size start /\
  chunk_end text chunk_size start <= start + chunk_size.
Proof.
  intros Hcs Hs Hlen.
  destruct (chunk_end_cases text chunk_size start) as [-> | (p & Hp0 & Hp & ->)]; [lia |].
  rewrite slice_inner_len in Hp by lia. lia.
Qed.

Lemma chunk_end_backward (text : pystr) (chunk_size start : Z) :
  chunk_size <= 0 -> start < len text -> chunk_end text chunk_size start < len text.
Proof.
  intros Hcs Hs.
  destruct (chunk_end_cases text chunk_size start) as [-> | (p & Hp0 & Hp & ->)]; [lia |].
  pose proof (slice_backward_len text start chunk_size Hcs Hs). lia.
Qed.

Lemma split_loop_spec (fuel : nat) (text : pystr) (chunk_size start : Z) (chunks : list pystr) :
  0 < chunk_size -> 0 <= start -> start <= len text ->
  (Z.to_nat (len text - start) <= fuel)%nat ->
  concat chunks = take (Z.to_nat start) text ->
  Forall (chunk_ok chunk_size) chunks ->
  exists result,
    split_loop fuel text chunk_size start chunks = Some result /\
    concat result = text /\ Forall (chunk_ok chunk_size) result.
Proof.
  intros Hcs. revert start chunks.
  induction fuel as [| fuel IH]; intros start chunks Hs Hle Hfuel Hcat Hok.
  - assert (start = len text) as -> by lia.
    exists chunks. simpl. rewrite Z.ltb_irrefl. simpl. split_and!; [reflexivity | | exact Hok].
    rewrite Hcat. apply take_ge. unfold len. lia.
  - simpl. destruct (Z.ltb_spec start (len text)) as [Hlt | Hge]; simpl.
    + destruct (Z.geb_spec (start + chunk_size) (len text)) as [Hlast | Hmore].
      * eexists. split; [reflexivity |]. rewrite slice_from_inner by lia. split.
        -- rewrite concat_app, Hcat. simpl. rewrite app_nil_r. apply take_drop.
        -- apply Forall_app. split; [exact Hok |]. constructor; [| constructor].
           split.
           ++ intros E. apply (f_equal length) in E. rewrite length_drop in E.
              unfold len in *. simpl in E. lia.
           ++ unfold len in *. rewrite length_drop. lia.
      * destruct (chunk_end_forward text chunk_size start) as [H1 H2]; [lia .. |].
        set (e := chunk_end text chunk_size start) in *.
        apply IH; [lia | lia | lia | |].
        -- rewrite concat_app, Hcat. simpl. rewrite app_nil_r.
           rewrite slice_inner by lia.
           replace (Z.to_nat e) with (Z.to_nat start + Z.to_nat (e - start))%nat by lia.
           apply take_take_drop.
        -- apply Forall_app. split; [exact Hok |]. constructor; [| constructor].
           assert (Hl : len (slice text start e) = e - start) by (apply slice_inner_len; lia).
           split; [| lia].
           intros E. rewrite E in Hl. unfold len in Hl. simpl in Hl. lia.
    + assert (start = len text) as -> by lia.
      exists chunks. split_and!; [reflexivity | | exact Hok].
      rewrite Hcat. apply take_ge. unfold len. lia.
Qed.

Lemma split_loop_diverges (fuel : nat) (text : pystr) (chunk_size start : Z)
    (chunks : list pystr) :
  chunk_size <= 0 -> start < len text ->
  split_loop fuel text chunk_size start chunks = None.
Proof.
  intros Hcs. revert start chunks.
  induction fuel as [| fuel IH]; intros start chunks Hlt; simpl;
    (destruct (Z.ltb_spec start (len text)); [simpl | lia]); [reflexivity |].
  destruct (Z.geb_spec (start + chunk_size) (len text)); [lia |].
  apply IH. apply chunk_end_backward; assumption.
Qed.

Lemma split_loop_more_fuel (fuel fuel' : nat) (text : pystr) (chunk_size start : Z)
    (chunks result : list pystr) :
  (fuel <= fuel')%nat ->
  split_loop fuel text chunk_size start chunks = Some result ->
  split_loop fuel' text chunk_size start chunks = Some result.
Proof.
  revert fuel' start chunks.
  induction fuel as [| fuel IH]; intros fuel' start chunks Hle; simpl.
  - destruct (start <? len text) eqn:E; simpl; [discriminate |].
    intros H. destruct fuel'; simpl; rewrite E; exact H.
  - destruct fuel' as [| fuel']; [lia |]. simpl.
    destruct (start <? len text); simpl; [| exact id].
    destruct (start + chunk_size >=? len text); [exact id |].
    apply IH. lia.
Qed.

(** The fuel [_split_text_into_chunks] gives its loop loses no result. *)
Lemma split_loop_fuel (fuel : nat) (text : pystr) (chunk_size : Z) (result : list pystr) :
  split_loop fuel text chunk_size 0 [] = Some result ->
  split_loop (length text) text chunk_size 0 [] = Some result.
Proof.
  intros H. destruct (Z.ltb_spec 0 chunk_size) as [Hpos | Hneg].
  - destruct (split_loop_spec (length text) text chunk_size 0 [])
      as (r & Hr & _); [lia | lia | apply len_nonneg | unfold len; lia | reflexivity | constructor |].
    rewrite Hr. f_equal.
    apply (split_loop_more_fuel _ (max fuel (length text))) in H; [| lia].
    apply (split_loop_more_fuel _ (max fuel (length text))) in Hr; [| lia].
    congruence.
  - destruct (Z.ltb_spec 0 (len text)) as [Hne | He].
    + rewrite split_loop_diverges in H by lia. discriminate.
    + assert (text = []) as -> by (apply len_zero_nil; pose proof (len_nonneg text); lia).
      destruct fuel; exact H.
Qed.

(** For a positive size the splitter returns, its chunks concatenate to
    the text, and each of them is non-empty and fits the size. *)
Lemma split_positive (text : pystr) (chunk_size : Z) :
  0 < chunk_size ->
  exists chunks,
    _split_text_into_chunks text chunk_size = Some chunks /\
    concat chunks = text /\
    Forall (fun chunk => len chunk <= chunk_size) chunks /\
    (text <> [] -> Forall (fun chunk => chunk <> []) chunks).
Proof.
  intros Hpos. unfold _split_text_into_chunks.
  destruct (Z.leb_spec (len text) chunk_size) as [Hshort | Hlong].
  - exists [text]. split_and!; [reflexivity | simpl; apply app_nil_r | |].
    + constructor; [exact Hshort | constructor].
    + intros Hne. constructor; [exact Hne | constructor].
  - destruct (split_loop_spec (length text) text chunk_size 0 [])
      as (r & Hr & Hcat & Hok);
      [lia | lia | apply len_nonneg | unfold len; lia | reflexivity | constructor |].
    exists r. split_and!; [exact Hr | exact Hcat | |].
    + eapply Forall_impl; [exact Hok |]. intros c [_ Hc]. exact Hc.
    + intros _. eapply Forall_impl; [exact Hok |]. intros c [Hc _]. exact Hc.
Qed.

(** C3: for every input text and every positive [max_chunk_size], the
    splitter returns chunks whose concatenation, in order, is the input text,
    and every chunk has at most [max_chunk_size] characters. *)
Theorem chunks_roundtrip (text : pystr) (max_chunk_size : Z) :
  0 < max_chunk_size ->
  exists chunks,
    _split_text_into_chunks text max_chunk_size = Some chunks /\
    concat chunks = text /\
    Forall (fun chunk => len chunk <= max_chunk_size) chunks.
Proof.
  intros Hpos.
  destruct (split_positive text max_chunk_size Hpos) as (chunks & Hrun & Hcat & Hlen & _).
  exists chunks. split_and!; assumption.
Qed.

Lemma chunks_roundtrip_witness :
  exists chunks,
    _split_text_into_chunks (u "あい。うえお、かきく けこさしすせそ") 5 = Some chunks /\
    concat chunks = u "あい。うえお、かきく けこさしすせそ" /\
    Forall (fun chunk => len chunk <= 5) chunks.
Proof. apply (chunks_roundtrip (u "あい。うえお、かきく けこさしすせそ") 5). lia. Defined.

(** C7, as the code has it: whatever the size, a non-empty text never
    gives an empty chunk (for a positive size the splitter returns, for any
    other size its loop does not end); the empty text gives one chunk, the
    empty one, for a size of zero or more, and no chunk for a negative size. *)
Theorem chunks_nonempty (text : pystr) (max_chunk_size : Z) :
  (text <> [] -> forall chunks,
     _split_text_into_chunks text max_chunk_size = Some chunks ->
     Forall (fun chunk => chunk <> []) chunks) /\
  (text <> [] -> 0 < max_chunk_size ->
     exists chunks, _split_text_into_chunks text max_chunk_size = Some chunks) /\
  (text <> [] -> max_chunk_size <= 0 ->
     forall fuel, split_loop fuel text max_chunk_size 0 [] = None) /\
  (text = [] -> 0 <= max_chunk_size ->
     _split_text_into_chunks text max_chunk_size = Some [[]]) /\
  (text = [] -> max_chunk_size < 0 ->
     _split_text_into_chunks text max_chunk_size = Some []).
Proof.
  assert (Hlen : text <> [] -> 0 < len text).
  { destruct text; [contradiction | unfold len; simpl; lia]. }
  split_and!.
  - intros Hne chunks.
    destruct (Z.ltb_spec 0 max_chunk_size) as [Hpos | Hneg].
    + destruct (split_positive text max_chunk_size Hpos) as (r & -> & _ & _ & Hok).
      intros [= <-]. exact (Hok Hne).
    + unfold _split_text_into_chunks.
      destruct (Z.leb_spec (len text) max_chunk_size); [specialize (Hlen Hne); lia |].
      rewrite split_loop_diverges by (try apply Hlen; assumption). discriminate.
  - intros _ Hpos.
    destruct (split_positive text max_chunk_size Hpos) as (c & Hc & _). exists c. exact Hc.
  - intros Hne Hcs fuel. apply split_loop_diverges; [exact Hcs | exact (Hlen Hne)].
  - intros -> Hcs. unfold _split_text_into_chunks.
    destruct (Z.leb_spec (len []) max_chunk_size) as [_ | H]; [reflexivity |].
    unfold len in H. simpl in H. lia.
  - intros -> Hcs. unfold _split_text_into_chunks.
    destruct (Z.leb_spec (len []) max_chunk_size) as [H | _]; [| reflexivity].
    unfold len in H. simpl in H. lia.
Qed.

Lemma chunks_nonempty_witness :
  Forall (fun chunk => chunk <> []) [u "あい。"; u "うえお"] /\
  _split_text_into_chunks (u "") 300 = Some [u ""].
Proof.
  destruct (chunks_nonempty (u "あい。うえお") 3) as (Hne & _).
  destruct (chunks_nonempty (u "") 300) as (_ & _ & _ & Hempty & _).
  split; [apply Hne; [discriminate | vm_compute; reflexivity] | apply Hempty; [reflexivity | lia]].
Defined.

Lemma chunks_empty_text_counterexample :
  _split_text_into_chunks (u "") 300 = Some [u ""] /\
  _split_text_into_chunks (u "") 300 <> Some [].
Proof. split; [reflexivity | discriminate]. Qed.

(** ** FallbackTokenizer *)

Lemma find_adjective_elem (text : pystr) (i : Z) (adjs : list pystr) (adj : pystr) :
  find_adjective text i adjs = Some adj ->
  adj ∈ adjs /\ slice text i (i + len adj) = adj.
Proof.
  induction adjs as [| a rest IH]; simpl; [discriminate |].
  unfold pystr_eqb. case_bool_decide as E.
  - intros [= <-]. split; [left | exact E].
  - intros H. destruct (IH H) as [Hin Hs]. split; [right; exact Hin | exact Hs].
Qed.

Lemma find_adjective_none (text : pystr) (i : Z) (adjs : list pystr) :
  find_adjective text i adjs = None <->
  forall adj, adj ∈ adjs -> slice text i (i + len adj) <> adj.
Proof.
  induction adjs as [| a rest IH]; simpl.
  - split; [intros _ adj H; inversion H | reflexivity].
  - unfold pystr_eqb. case_bool_decide as E.
    + split; [discriminate | intros H; exfalso; apply (H a); [left | exact E]].
    + rewrite IH. split.
      * intros H adj Hin. apply elem_of_cons in Hin as [-> | Hin]; [exact E | apply H, Hin].
      * intros H adj Hin. apply H. right. exact Hin.
Qed.

Lemma adjectives_nonempty : Forall (fun adj => 1 <= len adj) common_i_adjectives.
Proof. unfold common_i_adjectives. repeat (constructor; [unfold len; simpl; lia |]). constructor. Qed.

Lemma index_in_range (s : pystr) (i : Z) :
  0 <= i -> i < len s -> exists c, index s i = Some c.
Proof.
  intros H0 Hlt. unfold index. destruct (Z.ltb_spec i 0); [lia |].
  apply lookup_lt_is_Some. unfold len in Hlt. lia.
Qed.

(** The loop ends: every iteration advances [i]. *)
Lemma simple_tokenize_loop_total (fuel : nat) (text : pystr) (i : Z) (tokens : list pystr) :
  0 <= i -> (Z.to_nat (len text - i) <= fuel)%nat ->
  exists result, simple_tokenize_loop fuel text i tokens = Some result.
Proof.
  revert i tokens.
  induction fuel as [| fuel IH]; intros i tokens Hi Hfuel; cbn [simple_tokenize_loop].
  - destruct (Z.ltb_spec i (len text)); [lia |]. eexists; reflexivity.
  - destruct (Z.ltb_spec i (len text)) as [Hlt | Hge]; cbn [negb]; [| eexists; reflexivity].
    destruct (find_adjective text i common_i_adjectives) as [adj |] eqn:Ea.
    + apply find_adjective_elem in Ea as [Hin _].
      pose proof (proj1 (Forall_forall _ _) adjectives_nonempty adj Hin) as Hlen.
      cbn beta in Hlen. apply IH; lia.
    + destruct (index_in_range text i Hi Hlt) as [c ->]. apply IH; lia.
Qed.

Lemma simple_japanese_tokenize_total (text : pystr) :
  exists tokens, _simple_japanese_tokenize text = Some tokens.
Proof.
  unfold _simple_japanese_tokenize. case_bool_decide; [eexists; reflexivity |].
  apply simple_tokenize_loop_total; unfold len; lia.
Qed.

(** No adjective of the list is a proper prefix of another one, so the
    order in which the set is iterated does not matter. *)
Lemma adjectives_prefix_free :
  forall a b, a ∈ common_i_adjectives -> b ∈ common_i_adjectives ->
    a `prefix_of` b -> a = b.
Proof.
  assert (H : Forall (fun a => Forall (fun b => a `prefix_of` b -> a = b) common_i_adjectives)
                     common_i_adjectives).
  { apply (bool_decide_unpack _). vm_compute. exact I. }
  intros a b Ha Hb. rewrite Forall_forall in H. specialize (H a Ha).
  rewrite Forall_forall in H. exact (H b Hb).
Qed.

Lemma matching_adjectives_prefix (text a b : pystr) (i : Z) :
  0 <= i -> slice text i (i + len a) = a -> slice text i (i + len b) = b ->
  len a <= len b -> a `prefix_of` b.
Proof.
  intros Hi Ha Hb Hle.
  rewrite slice_forward in Ha, Hb by (try apply len_nonneg; lia).
  assert (Hn : (Z.to_nat (len a) <= Z.to_nat (len b))%nat) by lia.
  revert Ha Hb Hn. generalize (Z.to_nat (len a)) (Z.to_nat (len b)) (drop (Z.to_nat i) text).
  intros na nb d <- <- Hn.
  exists (take (nb - na) (drop na d)).
  rewrite take_take_drop. f_equal. lia.
Qed.

(** [find_adjective] gives the same answer for every order of the set. *)
Lemma find_adjective_order (text : pystr) (i : Z) (adjs : list pystr) :
  0 <= i -> adjs ≡ₚ common_i_adjectives ->
  find_adjective text i adjs = find_adjective text i common_i_adjectives.
Proof.
  intros Hi Hperm.
  assert (Huniq : forall a b, a ∈ common_i_adjectives -> b ∈ common_i_adjectives ->
            slice text i (i + len a) = a -> slice text i (i + len b) = b -> a = b).
  { intros a b Ha Hb Ma Mb. destruct (Z.le_gt_cases (len a) (len b)).
    - apply adjectives_prefix_free; [assumption .. |].
      apply (matching_adjectives_prefix text a b i); assumption.
    - symmetry. apply adjectives_prefix_free; [assumption .. |].
      apply (matching_adjectives_prefix text b a i); [assumption .. | lia]. }
  destruct (find_adjective text i adjs) as [a |] eqn:E1;
    destruct (find_adjective text i common_i_adjectives) as [b |] eqn:E2; [| | | reflexivity].
  - apply find_adjective_elem in E1 as [Ha Ma], E2 as [Hb Mb].
    f_equal. apply Huniq; [rewrite <- Hperm | | |]; assumption.
  - apply find_adjective_elem in E1 as [Ha Ma]. rewrite Hperm in Ha.
    exfalso. exact (proj1 (find_adjective_none _ _ _) E2 a Ha Ma).
  - apply find_adjective_elem in E2 as [Hb Mb]. rewrite <- Hperm in Hb.
    exfalso. exact (proj1 (find_adjective_none _ _ _) E1 b Hb Mb).
Qed.

(** ** TokenizerClient *)

(** The [elif] branch of the response parser runs on the empty list only. *)
Lemma direct_format_is_empty (result : pyval) (nonempty : bool) :
  (if truthy result then n ← py_len result; Returns (n >? 0) else Returns false)
    = Returns nonempty ->
  nonempty && isinstance_list result = false ->
  isinstance_list result = true -> result = PList [].
Proof.
  destruct result as [| | | | [| x l] |]; simpl; try discriminate; [reflexivity |].
  intros [= <-]. discriminate.
Qed.

(** C1, as the code has it: when the request raises a timeout, a
    connection error or any other exception, or the body of a 200 response
    cannot be decoded or processed, [_tokenize_single_chunk] returns the
    fallback tokenizer's tokens with [succeeded = true]; when the endpoint
    answers with a status other than 200 it returns no tokens with
    [succeeded = false]. *)
Theorem tokenize_single_chunk_failures
    (service : list request -> request -> http_outcome)
    (text : pystr) (max_scan_length : Z) (w : world) :
  exists tokens,
    _simple_japanese_tokenize text = Some tokens /\
    (degraded (service (requests_sent w) (PostTokenize text max_scan_length)) ->
     fst <$> _tokenize_single_chunk service text max_scan_length w = Some (tokens, true)) /\
    (forall status_code body,
       service (requests_sent w) (PostTokenize text max_scan_length)
         = Responded status_code body ->
       status_code <> 200 ->
       fst <$> _tokenize_single_chunk service text max_scan_length w = Some ([], false)).
Proof.
  destruct (simple_japanese_tokenize_total text) as [tokens Htok].
  exists tokens. split_and!; [exact Htok | |].
  - unfold _tokenize_single_chunk, bind, modify, requests_post, lift, ret.
    cbn [requests_sent set_active_yomitan_operations].
    destruct (service (requests_sent w) (PostTokenize text max_scan_length))
      as [status body | e]; cbn [degraded].
    + intros [-> Hbody]. cbn [Z.eqb Pos.eqb].
      destruct body as [result |].
      * destruct Hbody as [e ->]. destruct e; rewrite Htok; reflexivity.
      * rewrite Htok. reflexivity.
    + intros _. destruct e; rewrite Htok; reflexivity.
  - intros status body Hresp Hstatus.
    unfold _tokenize_single_chunk, bind, modify, requests_post, lift, ret.
    cbn [requests_sent set_active_yomitan_operations]. rewrite Hresp.
    destruct (Z.eqb_spec status 200); [contradiction | reflexivity].
Qed.

Lemma tokenize_single_chunk_failures_witness :
  fst <$> _tokenize_single_chunk service_timeout (u "熱い猫") 50 example_world
    = Some ([u "熱い"; u "猫"], true) /\
  fst <$> _tokenize_single_chunk service_error_500 (u "熱い猫") 50 example_world
    = Some ([], false).
Proof.
  split.
  - destruct (tokenize_single_chunk_failures service_timeout (u "熱い猫") 50 example_world)
      as (tokens & Htok & Hdeg & _).
    vm_compute in Htok. injection Htok as <-. exact (Hdeg I).
  - destruct (tokenize_single_chunk_failures service_error_500 (u "熱い猫") 50 example_world)
      as (tokens & _ & _ & Hfail).
    apply (Hfail 500 None); [reflexivity | lia].
Defined.

Lemma non_200_counterexample :
  fst <$> _tokenize_single_chunk service_error_500 (u "熱い猫") 50 example_world
    = Some ([], false) /\
  _simple_japanese_tokenize (u "熱い猫") = Some [u "熱い"; u "猫"] /\
  fst <$> _tokenize_single_chunk service_error_500 (u "熱い猫") 50 example_world
    <> (fun tokens => (tokens, true)) <$> _simple_japanese_tokenize (u "熱い猫").
Proof. split_and!; [reflexivity | reflexivity | vm_compute; discriminate]. Qed.

(** C10: for a text that is [None], empty or made of whitespace only,
    [tokenize_with_yomitan_api] returns the empty token list with
    [succeeded = true] and leaves the world as it was: no request is sent. *)
Theorem tokenize_blank_text
    (service : list request -> request -> http_outcome)
    (text : option pystr) (max_scan_length : Z) (chunk_size : option Z)
    (progress_id : option pystr) (w : world) :
  match text with
  | None => True
  | Some s => forallb isspace s = true
  end ->
  tokenize_with_yomitan_api service text max_scan_length chunk_size progress_id w
    = Some (([], true), w).
Proof.
  intros Hblank. unfold tokenize_with_yomitan_api.
  destruct text as [s |]; [| reflexivity].
  rewrite (strip_blank s Hblank).
  rewrite (bool_decide_eq_true_2 ([] = [])) by reflexivity.
  rewrite orb_true_r. reflexivity.
Qed.

Lemma tokenize_blank_text_witness :
  tokenize_with_yomitan_api service_timeout (Some (u "  　 ")) 50 None None example_world
    = Some (([], true), example_world) /\
  tokenize_with_yomitan_api service_timeout None 50 None None example_world
    = Some (([], true), example_world).
Proof.
  split.
  - apply (tokenize_blank_text service_timeout (Some (u "  　 ")) 50 None None example_world).
    reflexivity.
  - apply (tokenize_blank_text service_timeout None 50 None None example_world).
    exact I.
Defined.

(** ** TokenFilter *)

(** C9: filtering a filtered list changes nothing, and the filter only
    drops tokens: its result is a sublist of its input, in the same order. *)
Theorem filter_idempotent (words : list pystr) :
  filter_japanese_tokens (filter_japanese_tokens words) = filter_japanese_tokens words /\
  filter_japanese_tokens words `sublist_of` words.
Proof.
  unfold filter_japanese_tokens. split; [| apply sublist_filter].
  induction words as [| word words IH]; [reflexivity |].
  rewrite filter_cons. destruct (decide (keep_token word = true)) as [Hk | Hk].
  - rewrite filter_cons, decide_True by exact Hk. f_equal. exact IH.
  - exact IH.
Qed.

(** ** FrequencyResolver *)

Lemma field_equals_term (h : headword_t) (word : pystr) :
  field_equals (encode_headword h) (u "term") word
  = Returns (bool_decide (hw_term h = word)).
Proof.
  destruct h as [t r]. unfold field_equals, encode_headword. simpl hw_term. simpl hw_reading.
  destruct r; vm_compute; reflexivity.
Qed.

Lemma field_equals_reading (h : headword_t) (word : pystr) :
  field_equals (encode_headword h) (u "reading") word
  = Returns (bool_decide (hw_reading h = Some word)).
Proof.
  destruct h as [t [r |]]; unfold field_equals, encode_headword; simpl hw_reading.
  - transitivity (Returns (A := bool) (bool_decide (r = word))); [vm_compute; reflexivity |].
    f_equal. apply bool_decide_ext. split; congruence.
  - vm_compute. reflexivity.
Qed.

Lemma exact_match_encoded (word : pystr) (hs : list headword_t) :
  exact_match word (map encode_headword hs) = Returns (existsb (headword_is word) hs).
Proof.
  induction hs as [| h hs IH]; [reflexivity |].
  cbn [map exact_match existsb]. rewrite field_equals_term. unfold headword_is at 1.
  cbn [mbind outcome_bind obind].
  destruct (bool_decide (hw_term h = word)); [reflexivity |].
  rewrite field_equals_reading. cbn [mbind outcome_bind obind].
  destruct (bool_decide (hw_reading h = Some word)); [reflexivity |].
  exact IH.
Qed.

Lemma scan_frequencies_step (f : frequency_t) (rest : list pyval) (best : pyval * pyval) :
  scan_frequencies (encode_frequency f :: rest) best
  = obind (match fst best with
           | PNone => Returns true
           | best_rank => py_lt (PInt (fq_frequency f)) best_rank
           end)
          (fun better : bool =>
             scan_frequencies rest
               (if better then (PInt (fq_frequency f), PStr (fq_dictionary f)) else best)).
Proof. destruct f. vm_compute. reflexivity. Qed.

Lemma scan_frequencies_encoded (fs : list frequency_t) (b : option frequency_t) :
  scan_frequencies (map encode_frequency fs) (encode_best b)
  = Returns (encode_best (fold_left better fs b)).
Proof.
  revert b. induction fs as [| f fs IH]; intros b; [reflexivity |].
  cbn [map fold_left]. rewrite <- IH, scan_frequencies_step.
  destruct b as [g |]; cbn [encode_best fst better py_lt as_int obind].
  - destruct (fq_frequency f <? fq_frequency g); reflexivity.
  - reflexivity.
Qed.

Lemma truthy_field_headwords (e : entry_t) :
  truthy_field (encode_entry e) (u "headwords")
  = Returns (match en_headwords e with
             | [] => None
             | _ => Some (PList (map encode_headword (en_headwords e)))
             end).
Proof. destruct e as [[| h hs] fs]; vm_compute; reflexivity. Qed.

Lemma truthy_field_frequencies (e : entry_t) :
  truthy_field (encode_entry e) (u "frequencies")
  = Returns (match en_frequencies e with
             | [] => None
             | _ => Some (PList (map encode_frequency (en_frequencies e)))
             end).
Proof. destruct e as [hs [| f fs]]; vm_compute; reflexivity. Qed.

Lemma scan_entry_encoded (word : pystr) (e : entry_t) (b : option frequency_t) :
  scan_entry word (encode_entry e) (encode_best b)
  = Returns (encode_best
               (if qualifies word e then fold_left better (en_frequencies e) b else b)).
Proof.
  unfold scan_entry, qualifies. rewrite truthy_field_headwords.
  cbn [mbind outcome_bind obind].
  destruct (en_headwords e) as [| h hs] eqn:Eh; [reflexivity |].
  cbn [mbind outcome_bind obind py_iter]. rewrite exact_match_encoded. cbn [mbind outcome_bind obind].
  destruct (existsb (headword_is word) (h :: hs)); [| reflexivity].
  rewrite truthy_field_frequencies. cbn [mbind outcome_bind obind].
  destruct (en_frequencies e) as [| f fs] eqn:Ef; [reflexivity |].
  cbn [mbind outcome_bind obind py_iter]. apply scan_frequencies_encoded.
Qed.

Lemma scan_entries_encoded (word : pystr) (es : list entry_t) (b : option frequency_t) :
  scan_entries word (map encode_entry es) (encode_best b)
  = Returns (encode_best (fold_left better (candidates word es) b)).
Proof.
  revert b. induction es as [| e es IH]; intros b; [reflexivity |].
  cbn [map scan_entries]. rewrite scan_entry_encoded. cbn [mbind outcome_bind obind].
  rewrite IH. unfold candidates. rewrite filter_cons.
  destruct (decide (qualifies word e = true)) as [-> | Hq].
  - cbn [flat_map]. rewrite fold_left_app. reflexivity.
  - destruct (qualifies word e); [contradiction | reflexivity].
Qed.

Lemma best_frequency_encoded (word : pystr) (es : list entry_t) :
  best_frequency word (encode_response es)
  = Returns (Some (encode_best (fold_left better (candidates word es) None))).
Proof.
  unfold best_frequency, encode_response.
  change (truthy (PDict _)) with true. cbn [negb].
  change (py_contains (u "dictionaryEntries") _) with (Returns true).
  cbn [mbind outcome_bind obind negb].
  change (py_getitem _ (u "dictionaryEntries"))
    with (Returns (PList (map encode_entry es))).
  cbn [mbind outcome_bind obind py_iter]. change (PNone, PNone) with (encode_best None).
  rewrite scan_entries_encoded. reflexivity.
Qed.

(** The item the loop keeps is a candidate of lowest rank. *)
Lemma fold_better_lowest (fs : list frequency_t) (b : option frequency_t) :
  match fold_left better fs b with
  | Some f =>
    (Some f = b \/ f ∈ fs) /\
    (forall g, Some g = b \/ g ∈ fs -> fq_frequency f <= fq_frequency g)
  | None => b = None /\ fs = []
  end.
Proof.
  revert b. induction fs as [| x fs IH]; intros b; simpl.
  - destruct b as [f |]; [| split; reflexivity].
    split; [left; reflexivity |]. intros g [[= ->] | Hg]; [lia | inversion Hg].
  - specialize (IH (better b x)).
    destruct (fold_left better fs (better b x)) as [f |].
    + destruct IH as [Hin Hmin]. split.
      * destruct Hin as [Hb | Hin]; [| right; right; exact Hin].
        destruct b as [g |]; simpl in Hb.
        -- destruct (fq_frequency x <? fq_frequency g); injection Hb as ->;
             [right; left | left; reflexivity].
        -- injection Hb as ->. right; left.
      * intros g Hg.
        assert (Hbx : forall h, Some h = better b x -> fq_frequency f <= fq_frequency h)
          by (intros h Hh; apply Hmin; left; exact Hh).
        destruct Hg as [Hg | Hg].
        -- subst b. simpl in Hbx.
           destruct (Z.ltb_spec (fq_frequency x) (fq_frequency g)).
           ++ specialize (Hbx x eq_refl). lia.
           ++ exact (Hbx g eq_refl).
        -- apply elem_of_cons in Hg as [-> | Hg]; [| apply Hmin; right; exact Hg].
           destruct b as [h |]; simpl in Hbx.
           ++ destruct (Z.ltb_spec (fq_frequency x) (fq_frequency h)).
              ** exact (Hbx x eq_refl).
              ** specialize (Hbx h eq_refl). lia.
           ++ exact (Hbx x eq_refl).
    + destruct IH as [Hb _]. destruct b as [g |]; simpl in Hb;
        [destruct (fq_frequency x <? fq_frequency g) |]; discriminate.
Qed.

(** C4: on a cache miss, for the entries the service returns, the
    resolver considers only the entries with a headword whose term or reading
    is the word itself, and returns the lowest rank among their frequency
    items, with the source of that item; without such an item it reports that
    nothing was found. *)
Theorem frequency_exact_match
    (service : list request -> request -> http_outcome)
    (word : pystr) (entries : list entry_t) (w : world) :
  frequency_cache w ≫= (.!! word) = None ->
  service (requests_sent w) (PostTermEntries word)
    = Responded 200 (Some (encode_response entries)) ->
  match candidates word entries with
  | [] => fst <$> get_yomitan_frequency_data service word w = Some NotFound
  | _ :: _ =>
    exists f,
      f ∈ candidates word entries /\
      (forall g, g ∈ candidates word entries -> fq_frequency f <= fq_frequency g) /\
      fst <$> get_yomitan_frequency_data service word w
        = Some (Found (PInt (fq_frequency f)) (PStr (fq_dictionary f)))
  end.
Proof.
  intros Hmiss Hresp.
  assert (Hrun : fst <$> get_yomitan_frequency_data service word w
                 = Some (match fold_left better (candidates word entries) None with
                         | Some f => Found (PInt (fq_frequency f)) (PStr (fq_dictionary f))
                         | None => NotFound
                         end)).
  { unfold get_yomitan_frequency_data, bind, get_world. rewrite Hmiss.
    unfold requests_post. rewrite Hresp. cbn [Z.eqb negb Pos.eqb].
    rewrite best_frequency_encoded.
    destruct (fold_left better (candidates word entries) None) as [f |]; reflexivity. }
  pose proof (fold_better_lowest (candidates word entries) None) as Hlow.
  destruct (fold_left better (candidates word entries) None) as [f |].
  - destruct Hlow as [[Hin | Hin] Hmin]; [discriminate |].
    destruct (candidates word entries) as [| c cs] eqn:Ec; [inversion Hin |].
    exists f. split_and!; [exact Hin | | exact Hrun].
    intros g Hg. apply Hmin. right. exact Hg.
  - destruct Hlow as [_ ->]. exact Hrun.
Qed.

Lemma frequency_exact_match_witness :
  fst <$> get_yomitan_frequency_data service_neko (u "猫") example_world
    = Some (Found (PInt 500) (PStr (u "X"))).
Proof.
  pose proof (frequency_exact_match service_neko (u "猫") neko_entries example_world
                eq_refl eq_refl) as H.
  change (candidates (u "猫") neko_entries)
    with [ {| fq_frequency := 500; fq_dictionary := u "X" |} ] in H.
  destruct H as (f & Hin & _ & Hrun).
  apply list_elem_of_singleton in Hin. subst f. exact Hrun.
Defined.

(** ** Star ratings *)

(** C6: the star bucket of a rank [r] is 5 up to 1500, 4 up to 5000, 3 up
    to 15000, 2 up to 30000, 1 up to 60000 and 0 above; a missing rank gives
    0; so 1500 gives 5, 1501 gives 4, 60000 gives 1 and 60001 gives 0.  The
    template filter computes the same bucket. *)
Theorem star_bucket_boundaries :
  (forall r : Z,
     (r <= 1500 -> get_star_rating_from_rank (PInt r) = Returns 5) /\
     (1501 <= r <= 5000 -> get_star_rating_from_rank (PInt r) = Returns 4) /\
     (5001 <= r <= 15000 -> get_star_rating_from_rank (PInt r) = Returns 3) /\
     (15001 <= r <= 30000 -> get_star_rating_from_rank (PInt r) = Returns 2) /\
     (30001 <= r <= 60000 -> get_star_rating_from_rank (PInt r) = Returns 1) /\
     (60000 < r -> get_star_rating_from_rank (PInt r) = Returns 0) /\
     star_from_rank_filter (PInt r) = get_star_rating_from_rank (PInt r)) /\
  get_star_rating_from_rank PNone = Returns 0 /\
  star_from_rank_filter PNone = Returns 0 /\
  get_star_rating_from_rank (PInt 1500) = Returns 5 /\
  get_star_rating_from_rank (PInt 1501) = Returns 4 /\
  get_star_rating_from_rank (PInt 60000) = Returns 1 /\
  get_star_rating_from_rank (PInt 60001) = Returns 0.
Proof.
  split; [| split_and!; reflexivity].
  intros r. unfold get_star_rating_from_rank, star_from_rank_filter, py_le_int.
  cbn [as_int mbind outcome_bind obind].
  split_and!; try reflexivity; intros H;
    repeat match goal with
           | |- context [?a <=? ?b] => destruct (Z.leb_spec a b); try lia
           end; reflexivity.
Qed.

Lemma star_bucket_boundaries_witness :
  get_star_rating_from_rank (PInt 1) = Returns 5 /\
  get_star_rating_from_rank (PInt 3000) = Returns 4 /\
  get_star_rating_from_rank (PInt 100000) = Returns 0.
Proof.
  destruct star_bucket_boundaries as [H _].
  split_and!; [apply (H 1) | apply (H 3000) | apply (H 100000)]; lia.
Defined.

(** ** Deduplicator *)

Lemma sum_counts_from (l : list word_entry) (a : Z) :
  fold_left (fun acc e => acc + count e) l a = a + sum_counts l.
Proof.
  unfold sum_counts. revert a. induction l as [| e l IH]; intros a; simpl; [lia |].
  rewrite (IH (a + count e)), (IH (0 + count e)). lia.
Qed.

Lemma sum_counts_cons (e : word_entry) (l : list word_entry) :
  sum_counts (e :: l) = count e + sum_counts l.
Proof. unfold sum_counts at 1. simpl. rewrite sum_counts_from. lia. Qed.

Lemma dedup_step_sum (entry : word_entry) (word_dict : list (pystr * word_entry)) :
  sum_counts (map snd (dedup_step entry word_dict))
  = sum_counts (map snd word_dict) + count entry.
Proof.
  induction word_dict as [| [k existing] rest IH]; simpl.
  - rewrite sum_counts_cons. lia.
  - destruct (pystr_eqb k (word entry)); simpl; rewrite !sum_counts_cons.
    + simpl. lia.
    + rewrite IH. lia.
Qed.

Lemma dedup_fold_sum (word_list : list word_entry) (word_dict : list (pystr * word_entry)) :
  sum_counts (map snd (fold_left (fun d e => dedup_step e d) word_list word_dict))
  = sum_counts (map snd word_dict) + sum_counts word_list.
Proof.
  revert word_dict. induction word_list as [| e l IH]; intros word_dict; simpl.
  - unfold sum_counts at 3. simpl. lia.
  - rewrite IH, dedup_step_sum, sum_counts_cons. lia.
Qed.

(** C8: for every list of word entries, the counts of the merged entries
    add up to the counts of the entries before deduplication. *)
Theorem dedup_conservation (word_list : list word_entry) :
  sum_counts (deduplicate_word_list word_list) = sum_counts word_list.
Proof. unfold deduplicate_word_list. rewrite dedup_fold_sum. reflexivity. Qed.

Lemma counter_add_keys (w : pystr) (counts : list (pystr * Z)) :
  map fst (counter_add w counts)
  = if bool_decide (w ∈ map fst counts) then map fst counts else map fst counts ++ [w].
Proof.
  induction counts as [| [k c] rest IH]; [reflexivity |].
  cbn [counter_add map fst]. unfold pystr_eqb.
  destruct (decide (k = w)) as [-> | Ek].
  - rewrite bool_decide_eq_true_2 by reflexivity.
    rewrite bool_decide_eq_true_2 by left. reflexivity.
  - rewrite (bool_decide_eq_false_2 (k = w)) by exact Ek.
    cbn [map fst]. rewrite IH.
    destruct (decide (w ∈ map fst rest)) as [Hin | Hout].
    + rewrite !bool_decide_eq_true_2; [reflexivity | right; exact Hin | exact Hin].
    + rewrite !bool_decide_eq_false_2; [reflexivity | | exact Hout].
      intros [E | Hin]%elem_of_cons; [congruence | contradiction].
Qed.

Lemma Counter_keys_nodup (words : list pystr) : NoDup (map fst (Counter words)).
Proof.
  unfold Counter.
  assert (H : forall counts, NoDup (map fst counts) ->
            NoDup (map fst (fold_left (fun counts w => counter_add w counts) words counts))).
  { induction words as [| w words IH]; intros counts Hnd; [exact Hnd |].
    simpl. apply IH. rewrite counter_add_keys. case_bool_decide as E; [exact Hnd |].
    apply NoDup_app. split_and!; [exact Hnd | | apply NoDup_singleton].
    intros x Hx ->%list_elem_of_singleton. contradiction. }
  apply H. constructor.
Qed.

Lemma dedup_step_fresh (entry : word_entry) (word_dict : list (pystr * word_entry)) :
  word entry ∉ map fst word_dict ->
  dedup_step entry word_dict = word_dict ++ [(word entry, entry)].
Proof.
  induction word_dict as [| [k existing] rest IH]; intros Hfresh; [reflexivity |].
  cbn [dedup_step]. unfold pystr_eqb.
  destruct (decide (k = word entry)) as [-> | Ek].
  - exfalso. apply Hfresh. left.
  - rewrite bool_decide_eq_false_2 by exact Ek. cbn [app]. f_equal. apply IH. intros Hin. apply Hfresh. right. exact Hin.
Qed.

Lemma dedup_fold_distinct (word_list : list word_entry) (word_dict : list (pystr * word_entry)) :
  NoDup (map fst word_dict ++ map word word_list) ->
  fold_left (fun d e => dedup_step e d) word_list word_dict
  = word_dict ++ map (fun e => (word e, e)) word_list.
Proof.
  revert word_dict. induction word_list as [| e l IH]; intros word_dict Hnd.
  - simpl. rewrite app_nil_r. reflexivity.
  - cbn [fold_left map]. apply NoDup_app in Hnd as (Hd & Hdisj & Hl).
    apply NoDup_cons in Hl as [He Hl].
    rewrite dedup_step_fresh.
    + rewrite IH.
      * rewrite <- app_assoc. reflexivity.
      * rewrite map_app. cbn [map fst]. apply NoDup_app. split_and!.
        -- apply NoDup_app. split_and!; [exact Hd | | apply NoDup_singleton].
           intros x Hx ->%list_elem_of_singleton. apply (Hdisj _ Hx). left.
        -- intros x [Hx | ->%list_elem_of_singleton]%elem_of_app Hxl.
           ++ apply (Hdisj _ Hx). right. exact Hxl.
           ++ contradiction.
        -- exact Hl.
    + intros Hin. apply (Hdisj _ Hin). left.
Qed.

(** Entries with pairwise distinct words have nothing to merge. *)
Lemma dedup_distinct (word_list : list word_entry) :
  NoDup (map word word_list) -> deduplicate_word_list word_list = word_list.
Proof.
  intros Hnd. unfold deduplicate_word_list.
  rewrite dedup_fold_distinct by exact Hnd.
  cbn [app]. rewrite map_map. cbn [snd]. apply map_id.
Qed.

Lemma insert_by_count_perm (e : word_entry) (l : list word_entry) :
  insert_by_count e l ≡ₚ e :: l.
Proof.
  induction l as [| x l IH]; [reflexivity |].
  cbn [insert_by_count]. destruct (count e <? count x); [| reflexivity].
  rewrite IH. apply Permutation_swap.
Qed.

Lemma sort_by_count_perm (l : list word_entry) : sort_by_count l ≡ₚ l.
Proof.
  unfold sort_by_count. induction l as [| e l IH]; [reflexivity |].
  cbn [foldr]. rewrite insert_by_count_perm, IH. reflexivity.
Qed.

(** The sort is by decreasing count and keeps entries of equal count in
    their order. *)
Lemma insert_by_count_sorted (e : word_entry) (l : list word_entry) :
  Sorted (fun a b => count b <= count a) l ->
  Sorted (fun a b => count b <= count a) (insert_by_count e l).
Proof.
  induction l as [| x l IH]; intros Hs; cbn [insert_by_count].
  - repeat constructor.
  - destruct (Z.ltb_spec (count e) (count x)).
    + apply Sorted_inv in Hs as [Hs Hhd]. constructor; [apply IH, Hs |].
      destruct l as [| y l]; cbn [insert_by_count].
      * constructor. lia.
      * destruct (Z.ltb_spec (count e) (count y)); constructor;
          [apply HdRel_inv in Hhd; exact Hhd | lia].
    + constructor; [exact Hs | constructor; lia].
Qed.

Lemma sort_by_count_sorted (l : list word_entry) :
  Sorted (fun a b => count b <= count a) (sort_by_count l).
Proof.
  unfold sort_by_count. induction l as [| e l IH]; [constructor |].
  cbn [foldr]. apply insert_by_count_sorted, IH.
Qed.

(** Entries of equal count keep their order: the sort is stable, as
    Python's is. *)
Lemma insert_by_count_stable (c : Z) (e : word_entry) (l : list word_entry) :
  filter (fun x => count x = c) (insert_by_count e l)
  = filter (fun x => count x = c) (e :: l).
Proof.
  induction l as [| x l IH]; [reflexivity |].
  cbn [insert_by_count]. destruct (Z.ltb_spec (count e) (count x)); [| reflexivity].
  rewrite (filter_cons _ x), IH, !filter_cons.
  destruct (decide (count e = c)), (decide (count x = c)); try reflexivity. lia.
Qed.

Lemma sort_by_count_stable (c : Z) (l : list word_entry) :
  filter (fun x => count x = c) (sort_by_count l) = filter (fun x => count x = c) l.
Proof.
  unfold sort_by_count. induction l as [| e l IH]; [reflexivity |].
  cbn [foldr]. rewrite insert_by_count_stable, !filter_cons, IH. reflexivity.
Qed.

(** ** Effectful code always produces a result *)

Lemma total_ret {A} (a : A) : total (ret a).
Proof. intros w. exists a, w. reflexivity. Qed.

Lemma total_bind {A B} (m : M A) (f : A -> M B) :
  total m -> (forall a, total (f a)) -> total (bind m f).
Proof.
  intros Hm Hf w. destruct (Hm w) as (a & w1 & E1). destruct (Hf a w1) as (b & w2 & E2).
  exists b, w2. unfold bind. rewrite E1. exact E2.
Qed.

Lemma total_modify (f : world -> world) : total (modify f).
Proof. intros w. exists tt, (f w). reflexivity. Qed.

Lemma total_report (progress_id : option pystr) (update : progress_update) :
  total (report progress_id update).
Proof.
  unfold report. destruct progress_id as [id |]; [| apply total_ret].
  case_bool_decide; [apply total_ret | apply total_modify].
Qed.

Lemma total_lift {A} (o : option A) : is_Some o -> total (lift o).
Proof. intros [a ->] w. exists a, w. reflexivity. Qed.

Lemma total_requests_post (service : list request -> request -> http_outcome) (r : request) : total (requests_post service r).
Proof. intros w. eexists _, _. reflexivity. Qed.

Ltac total_step :=
  first [ apply total_ret | apply total_modify | apply total_report
        | apply total_requests_post
        | apply total_bind; [| intros ?] ].

Lemma total_fallback (text : pystr) : total (lift (_simple_japanese_tokenize text)).
Proof. apply total_lift. destruct (simple_japanese_tokenize_total text) as [t ->]. eexists; reflexivity. Qed.

Lemma total_tokenize_single_chunk (service : list request -> request -> http_outcome) (text : pystr) (max_scan_length : Z) :
  total (_tokenize_single_chunk service text max_scan_length).
Proof.
  unfold _tokenize_single_chunk.
  assert (Hh : forall e, total
    (match e with
     | Timeout => bind (lift (_simple_japanese_tokenize text)) (fun tokens => ret (tokens, true))
     | ConnectionError => bind (lift (_simple_japanese_tokenize text)) (fun tokens => ret (tokens, true))
     | RequestException => bind (lift (_simple_japanese_tokenize text)) (fun tokens => ret (tokens, true))
     | OtherException => bind (lift (_simple_japanese_tokenize text)) (fun tokens => ret (tokens, true))
     end)).
  { intros []; (apply total_bind; [apply total_fallback | intros; apply total_ret]). }
  repeat total_step.
  destruct a0 as [status body | e]; [| apply Hh].
    destruct (status =? 200); [| apply total_ret].
    destruct body as [result |]; [| exact (Hh RequestException)].
    destruct (extract_words result); [apply total_ret | apply Hh].
Qed.

Lemma total_tokenize_chunks service progress_id (max_scan_length n : Z) (chunks : list pystr) :
  forall i all_words,
    total (tokenize_chunks service progress_id max_scan_length n i chunks all_words).
Proof.
  induction chunks as [| chunk rest IH]; intros i all_words; cbn [tokenize_chunks].
  - apply total_ret.
  - total_step; [total_step |]. total_step; [apply total_tokenize_single_chunk |].
    destruct a0 as [chunk_words success]. destruct success; cbn [negb].
    + total_step; [total_step | apply IH].
    + apply IH.
Qed.

Lemma total_tokenize_with_yomitan_api (service : list request -> request -> http_outcome) (text : option pystr) (max_scan_length : Z)
    (chunk_size : option Z) (progress_id : option pystr) :
  0 < default YOMITAN_CHUNK_SIZE chunk_size ->
  total (tokenize_with_yomitan_api service text max_scan_length chunk_size progress_id).
Proof.
  intros Hcs. unfold tokenize_with_yomitan_api.
  destruct text as [text |]; [| apply total_ret].
  destruct (bool_decide (text = []) || bool_decide (strip text = [])); [apply total_ret |].
  destruct (len text <=? default YOMITAN_CHUNK_SIZE chunk_size).
  - total_step; [total_step | apply total_tokenize_single_chunk].
  - total_step.
    + apply total_lift.
      destruct (split_positive text _ Hcs) as (chunks & -> & _). eexists; reflexivity.
    + total_step; [total_step |]. total_step; [apply total_tokenize_chunks |].
      repeat total_step.
Qed.

Lemma total_tokenize_japanese_text (service : list request -> request -> http_outcome) (text : option pystr) (progress_id : option pystr) :
  total (tokenize_japanese_text service text progress_id).
Proof.
  unfold tokenize_japanese_text. destruct text as [text |]; [| apply total_ret].
  destruct (bool_decide (text = []) || bool_decide (strip text = [])); [apply total_ret |].
  total_step; [total_step |].
  total_step; [apply total_tokenize_with_yomitan_api; reflexivity |].
  destruct a0 as [yomitan_words success].
  destruct (success && negb (bool_decide (yomitan_words = []))); repeat total_step.
Qed.

Lemma total_get_yomitan_frequency_data (service : list request -> request -> http_outcome) (word : pystr) :
  total (get_yomitan_frequency_data service word).
Proof.
  unfold get_yomitan_frequency_data. total_step; [intros w; eexists _, _; reflexivity |].
  destruct (frequency_cache a ≫= (.!! word)); [apply total_ret |].
  total_step; [total_step |].
  destruct a0 as [status body | e]; [| destruct e; apply total_ret].
  destruct (negb (status =? 200)); [apply total_ret |].
  destruct body as [data |]; [| apply total_ret].
  destruct (best_frequency word data) as [[[best_rank best_source] |] | e];
    [| apply total_ret | destruct e; apply total_ret].
  destruct best_rank; repeat total_step.
Qed.

(** ** VocabularyClassifier and StatsAggregator *)

Lemma classify_words_spec (service : list request -> request -> http_outcome) (vocabulary_set ignored : gset pystr)
    (progress_id : option pystr) (total_unique : Z) (items : list (pystr * Z)) :
  forall processed acc w,
  exists entries acc' w',
    classify_words service vocabulary_set ignored progress_id total_unique processed
      items acc w = Some (acc', w') /\
    Forall2 (entry_of vocabulary_set ignored) items entries /\
    all_words_with_frequency acc' = all_words_with_frequency acc ++ entries /\
    ignored_words_with_data acc'
      = ignored_words_with_data acc ++ filter ignored_entry entries /\
    cl_known_words acc' = cl_known_words acc ++ filter known_entry entries /\
    cl_unknown_words acc' = cl_unknown_words acc ++ filter unknown_entry entries.
Proof.
  induction items as [| [word count] rest IH]; intros processed acc w.
  - exists [], acc, w. cbn [classify_words filter]. rewrite !app_nil_r.
    split_and!; try reflexivity. constructor.
  - cbn [classify_words]. unfold bind at 1.
    destruct (total_report progress_id
      {| stage := u "vocabulary_lookup";
         message := u "Processing word " ++ str_of_int (processed + 1) ++ u "/"
                    ++ str_of_int total_unique ++ u ": " ++ word
                    ++ u " (frequency + vocabulary)";
         total_chunks := None;
         completed_chunks := None;
         progress := NFloat (PrimFloat.add (float_of_int 40)
                       (PrimFloat.mul (int_truediv (processed + 1) total_unique)
                                      (float_of_int 50))) |} w) as ([] & w1 & ->).
    unfold bind at 1.
    destruct (total_get_yomitan_frequency_data service word w1) as (fd & w2 & ->).
    match goal with
    | |- context [classify_words _ _ _ _ _ _ rest ?acc1 w2] =>
      destruct (IH (processed + 1) acc1 w2)
        as (entries & acc' & w' & Hrun & Hent & Hall & Hign & Hkn & Hun);
      set (e := {| word := word; count := count;
                   has_frequency := match fd with Found _ _ => true | NotFound => false end;
                   rank := match fd with Found r _ => r | NotFound => PNone end;
                   source := match fd with Found _ s => s | NotFound => PNone end;
                   in_vocabulary := bool_decide (word ∈ vocabulary_set);
                   is_ignored := bool_decide (word ∈ ignored);
                   original_word := word;
                   original_words := None |}) in *
    end.
    exists (e :: entries), acc', w'.
    cbn [all_words_with_frequency ignored_words_with_data cl_known_words cl_unknown_words]
      in Hall, Hign, Hkn, Hun.
    split_and!.
    + exact Hrun.
    + constructor; [| exact Hent]. repeat split.
    + rewrite Hall, <- app_assoc. reflexivity.
    + rewrite Hign, filter_cons. unfold ignored_entry at 2. cbn [is_ignored e].
      destruct (bool_decide (word ∈ ignored)).
      * rewrite decide_True by reflexivity. rewrite <- app_assoc. reflexivity.
      * rewrite decide_False by discriminate. reflexivity.
    + rewrite Hkn, filter_cons. unfold known_entry at 2. cbn [is_ignored in_vocabulary e].
      destruct (bool_decide (word ∈ ignored)), (bool_decide (word ∈ vocabulary_set)).
      * rewrite decide_False by (intros [? ?]; discriminate). reflexivity.
      * rewrite decide_False by (intros [? ?]; discriminate). reflexivity.
      * rewrite decide_True by (split; reflexivity). rewrite <- app_assoc. reflexivity.
      * rewrite decide_False by (intros [? ?]; discriminate). reflexivity.
    + rewrite Hun, filter_cons. unfold unknown_entry at 2. cbn [is_ignored in_vocabulary e].
      destruct (bool_decide (word ∈ ignored)), (bool_decide (word ∈ vocabulary_set)).
      * rewrite decide_False by (intros [? ?]; discriminate). reflexivity.
      * rewrite decide_False by (intros [? ?]; discriminate). reflexivity.
      * rewrite decide_False by (intros [? ?]; discriminate). reflexivity.
      * rewrite decide_True by (split; reflexivity). rewrite <- app_assoc. reflexivity.
Qed.

Lemma report_ignored_file (progress_id : option pystr) (update : progress_update)
    (w w' : world) (x : unit) :
  report progress_id update w = Some (x, w') ->
  ignored_words_file w' = ignored_words_file w.
Proof.
  unfold report. destruct progress_id as [id |]; [| intros [= _ <-]; reflexivity].
  case_bool_decide; intros [= _ <-]; reflexivity.
Qed.

Lemma nodup_words_filter (P : word_entry -> Prop) `{forall e, Decision (P e)}
    (l : list word_entry) :
  NoDup (map word l) -> NoDup (map word (filter P l)).
Proof.
  induction l as [| e l IH]; [intros _; constructor |].
  cbn [map]. intros [Hout Hnd]%NoDup_cons. rewrite filter_cons.
  destruct (decide (P e)); [| exact (IH Hnd)].
  cbn [map]. apply NoDup_cons. split; [| exact (IH Hnd)].
  intros Hin. apply Hout.
  apply list_elem_of_In, in_map_iff in Hin as (e' & He' & Hin).
  apply list_elem_of_In, in_map_iff. exists e'. split; [exact He' |].
  apply list_elem_of_In. apply list_elem_of_In in Hin.
  apply list_elem_of_filter in Hin as [_ Hin]. exact Hin.
Qed.

Lemma entries_words (vocabulary_set ignored : gset pystr) (items : list (pystr * Z))
    (entries : list word_entry) :
  Forall2 (entry_of vocabulary_set ignored) items entries ->
  map word entries = map fst items.
Proof.
  induction 1 as [| item e items entries (Hw & _) _ IH]; [reflexivity |].
  cbn [map]. rewrite Hw, IH. reflexivity.
Qed.

(** What [analyze_text_vocabulary] computes, in terms of the entries the
    classification loop made of the counted words. *)
Lemma analyze_text_vocabulary_inv
    (service : list request -> request -> http_outcome)
    (text_content : option pystr) (vocabulary_set : gset pystr)
    (progress_id : option pystr) (w : world) :
  exists words entries o w',
    analyze_text_vocabulary service text_content vocabulary_set progress_id w
      = Some (o, w') /\
    Forall2 (entry_of vocabulary_set (loaded_ignored_words w)) (Counter words) entries /\
    NoDup (map word entries) /\
    forall a, o = Returns a ->
      all_words_analyzed a = sort_by_count entries /\
      known_words a = sort_by_count (filter known_entry entries) /\
      unknown_words a = sort_by_count (filter unknown_entry entries) /\
      ignored_words a = sort_by_count (filter ignored_entry entries) /\
      unique_words a = Z.of_nat (length entries) /\
      known_word_count a = sum_counts (known_words a) /\
      unknown_word_count a = sum_counts (unknown_words a) /\
      ignored_word_count a = sum_counts (ignored_words a) /\
      total_processed_words a = known_word_count a + unknown_word_count a /\
      comprehension_rate a
        = comprehension (known_word_count a) (total_processed_words a) /\
      difficulty_level a = calculate_difficulty_level (comprehension_rate a).
Proof.
  unfold analyze_text_vocabulary.
  unfold bind at 1.
  match goal with
  | |- context [report progress_id ?upd w] =>
    destruct (total_report progress_id upd w) as ([] & w1 & Hr1)
  end.
  rewrite Hr1. apply report_ignored_file in Hr1.
  unfold bind at 1. unfold load_ignored_words at 1.
  unfold bind at 1.
  destruct (total_tokenize_japanese_text service text_content progress_id w1)
    as (words & w2 & ->).
  unfold bind at 1.
  match goal with
  | |- context [report progress_id ?upd w2] =>
    destruct (total_report progress_id upd w2) as ([] & w3 & ->)
  end.
  unfold bind at 1.
  match goal with
  | |- context [classify_words service vocabulary_set ?ign progress_id ?t ?p ?items ?acc w3] =>
    destruct (classify_words_spec service vocabulary_set ign progress_id t items p acc w3)
      as (entries & lists & w4 & -> & Hent & Hall & Hign & Hkn & Hun)
  end.
  cbn [all_words_with_frequency ignored_words_with_data cl_known_words cl_unknown_words app]
    in Hall, Hign, Hkn, Hun.
  rewrite Hall, Hign, Hkn, Hun.
  assert (Hnd : NoDup (map word entries)).
  { rewrite (entries_words _ _ _ _ Hent). apply Counter_keys_nodup. }
  rewrite (dedup_distinct entries Hnd).
  rewrite (dedup_distinct (filter known_entry entries))
    by (apply nodup_words_filter; exact Hnd).
  rewrite (dedup_distinct (filter unknown_entry entries))
    by (apply nodup_words_filter; exact Hnd).
  unfold bind at 1.
  match goal with
  | |- context [report progress_id ?upd w4] =>
    destruct (total_report progress_id upd w4) as ([] & w5 & ->)
  end.
  unfold ret.
  eexists words, entries, _, w5. split; [reflexivity |].
  split; [unfold loaded_ignored_words; rewrite <- Hr1; exact Hent |].
  split; [exact Hnd |].
  intros a.
  destruct (calculate_three_category_frequency_statistics
              (sort_by_count (filter known_entry entries))
              (sort_by_count (filter ignored_entry entries))
              (sort_by_count (filter unknown_entry entries))) as [ss | e];
    cbn [mbind outcome_bind obind]; [| discriminate].
  intros [= <-]. cbn. rewrite (Forall2_length _ _ _ Hent). split_and!; reflexivity.
Qed.

Lemma entries_partition (l : list word_entry) :
  filter known_entry l ++ filter ignored_entry l ++ filter unknown_entry l ≡ₚ l.
Proof.
  induction l as [| e l IH]; [reflexivity |].
  rewrite !filter_cons.
  destruct (is_ignored e) eqn:Ei.
  - rewrite (decide_False (P := known_entry e))
      by (unfold known_entry; rewrite Ei; intros [? ?]; discriminate).
    rewrite (decide_True (P := ignored_entry e)) by exact Ei.
    rewrite (decide_False (P := unknown_entry e))
      by (unfold unknown_entry; rewrite Ei; intros [? ?]; discriminate).
    cbn [app]. rewrite <- Permutation_middle. constructor. exact IH.
  - rewrite (decide_False (P := ignored_entry e))
      by (unfold ignored_entry; rewrite Ei; discriminate).
    destruct (in_vocabulary e) eqn:Ev.
    + rewrite (decide_True (P := known_entry e)) by (split; assumption).
      rewrite (decide_False (P := unknown_entry e))
        by (unfold unknown_entry; rewrite Ev; intros [? ?]; discriminate).
      cbn [app]. constructor. exact IH.
    + rewrite (decide_False (P := known_entry e))
        by (unfold known_entry; rewrite Ev; intros [? ?]; discriminate).
      rewrite (decide_True (P := unknown_entry e)) by (split; assumption).
      rewrite app_assoc, <- Permutation_middle, <- app_assoc. constructor. exact IH.
Qed.

Lemma in_words_sorted_filter (P : word_entry -> Prop) `{forall e, Decision (P e)}
    (l : list word_entry) (x : pystr) :
  x ∈ map word (sort_by_count (filter P l)) ->
  exists e, e ∈ l /\ word e = x /\ P e.
Proof.
  intros Hin. apply list_elem_of_In, in_map_iff in Hin as (e & He & Hin).
  apply list_elem_of_In in Hin. rewrite sort_by_count_perm in Hin.
  apply list_elem_of_filter in Hin as [HP Hin]. exists e. split_and!; assumption.
Qed.

Lemma entry_of_elem (vocabulary_set ignored : gset pystr) (items : list (pystr * Z))
    (entries : list word_entry) (e : word_entry) :
  Forall2 (entry_of vocabulary_set ignored) items entries -> e ∈ entries ->
  is_ignored e = bool_decide (word e ∈ ignored) /\
  in_vocabulary e = bool_decide (word e ∈ vocabulary_set).
Proof.
  induction 1 as [| item e' items entries (Hw & _ & Hi & Hv) _ IH].
  - intros Hin. inversion Hin.
  - intros [-> | Hin]%elem_of_cons; [| exact (IH Hin)].
    rewrite Hw. split; assumption.
Qed.

(** C5: the analysis always ends, and when it returns, every unique word
    is in exactly one of the known, ignored and unknown lists: known when it
    is in the vocabulary set and not ignored, ignored whenever it is in the
    ignored set (also when it is in the vocabulary set), unknown otherwise;
    no word occurs twice, and the three lists together have as many entries
    as there are unique words. *)
Theorem classification_partition
    (service : list request -> request -> http_outcome)
    (text_content : option pystr) (vocabulary_set : gset pystr)
    (progress_id : option pystr) (w : world) :
  exists o w',
    analyze_text_vocabulary service text_content vocabulary_set progress_id w
      = Some (o, w') /\
    forall a, o = Returns a ->
      let K := map word (known_words a) in
      let I := map word (ignored_words a) in
      let U := map word (unknown_words a) in
      let ignored := loaded_ignored_words w in
      (forall x, x ∈ map word (all_words_analyzed a) ->
         (x ∈ K /\ (x ∉ I) /\ (x ∉ U) /\ (x ∉ ignored) /\ x ∈ vocabulary_set) \/
         (x ∈ I /\ (x ∉ K) /\ (x ∉ U) /\ x ∈ ignored) \/
         (x ∈ U /\ (x ∉ K) /\ (x ∉ I) /\ (x ∉ ignored) /\ (x ∉ vocabulary_set))) /\
      NoDup (K ++ I ++ U) /\
      Z.of_nat (length (known_words a)) + Z.of_nat (length (unknown_words a))
        + Z.of_nat (length (ignored_words a)) = unique_words a.
Proof.
  destruct (analyze_text_vocabulary_inv service text_content vocabulary_set progress_id w)
    as (words & entries & o & w' & Hrun & Hent & Hnd & Hres).
  exists o, w'. split; [exact Hrun |].
  intros a Ha. destruct (Hres a Ha) as (Hall & Hk & Hu & Hi & Huniq & _).
  cbn zeta. rewrite Hall, Hk, Hu, Hi, Huniq.
  set (K := map word (sort_by_count (filter known_entry entries))).
  set (I := map word (sort_by_count (filter ignored_entry entries))).
  set (U := map word (sort_by_count (filter unknown_entry entries))).
  assert (Hperm : K ++ I ++ U ≡ₚ map word entries).
  { unfold K, I, U. rewrite !sort_by_count_perm, <- !map_app.
    apply Permutation_map, entries_partition. }
  assert (Hnd3 : NoDup (K ++ I ++ U)) by (rewrite Hperm; exact Hnd).
  assert (HK : forall x, x ∈ K -> (x ∉ loaded_ignored_words w) /\ x ∈ vocabulary_set).
  { intros x (e & He & <- & Hig & Hv)%in_words_sorted_filter.
    destruct (entry_of_elem _ _ _ _ e Hent He) as [Ei Ev].
    rewrite Ei in Hig. rewrite Ev in Hv.
    apply bool_decide_eq_false in Hig. apply bool_decide_eq_true in Hv. split; assumption. }
  assert (HI : forall x, x ∈ I -> x ∈ loaded_ignored_words w).
  { intros x (e & He & <- & Hig)%in_words_sorted_filter.
    destruct (entry_of_elem _ _ _ _ e Hent He) as [Ei _].
    unfold ignored_entry in Hig. rewrite Ei in Hig. apply bool_decide_eq_true in Hig.
    exact Hig. }
  assert (HU : forall x, x ∈ U -> (x ∉ loaded_ignored_words w) /\ (x ∉ vocabulary_set)).
  { intros x (e & He & <- & Hig & Hv)%in_words_sorted_filter.
    destruct (entry_of_elem _ _ _ _ e Hent He) as [Ei Ev].
    rewrite Ei in Hig. rewrite Ev in Hv.
    apply bool_decide_eq_false in Hig. apply bool_decide_eq_false in Hv. split; assumption. }
  split_and!.
  - intros x Hx. rewrite sort_by_count_perm, <- Hperm in Hx.
    apply NoDup_app in Hnd3 as (_ & HKd & HIU). apply NoDup_app in HIU as (_ & HId & _).
    apply elem_of_app in Hx as [Hx | Hx]; [| apply elem_of_app in Hx as [Hx | Hx]].
    + left. destruct (HK x Hx). split_and!; try assumption.
      * intros Hx'. apply (HKd x Hx). apply elem_of_app. left. exact Hx'.
      * intros Hx'. apply (HKd x Hx). apply elem_of_app. right. exact Hx'.
    + right; left. split_and!; [exact Hx | | | exact (HI x Hx)].
      * intros Hx'. apply (HKd x Hx'). apply elem_of_app. left. exact Hx.
      * intros Hx'. exact (HId x Hx Hx').
    + right; right. destruct (HU x Hx). split_and!; try assumption.
      * intros Hx'. apply (HKd x Hx'). apply elem_of_app. right. exact Hx.
      * intros Hx'. exact (HId x Hx' Hx).
  - exact Hnd3.
  - pose proof (Permutation_length Hperm) as Hlen.
    unfold K, I, U in Hlen. rewrite !length_app, !length_map in Hlen. lia.
Qed.

Lemma classification_partition_witness :
  exists a w',
    analyze_text_vocabulary service_80_20 (Some (u "猫と犬")) {[ u "猫" ]} None
      world_ignoring_neko = Some (Returns a, w') /\
    u "猫" ∈ map word (ignored_words a) /\
    (u "猫" ∉ map word (known_words a)) /\
    Z.of_nat (length (known_words a)) + Z.of_nat (length (unknown_words a))
      + Z.of_nat (length (ignored_words a)) = unique_words a.
Proof.
  destruct (classification_partition service_80_20 (Some (u "猫と犬")) {[ u "猫" ]} None
              world_ignoring_neko) as (o & w' & Hrun & Hres).
  assert (Ho : exists a, o = Returns a /\ u "猫" ∈ map word (all_words_analyzed a)).
  { vm_compute in Hrun. injection Hrun as <- _. eexists. split; [reflexivity |].
    apply (bool_decide_unpack _). vm_compute. exact I. }
  destruct Ho as (a & -> & Hall).
  exists a, w'. destruct (Hres a eq_refl) as (Hpart & _ & Hcount).
  assert (Hign : u "猫" ∈ loaded_ignored_words world_ignoring_neko).
  { apply (bool_decide_unpack _). vm_compute. exact I. }
  split_and!; [exact Hrun | | | exact Hcount].
  - destruct (Hpart _ Hall) as [(_ & _ & _ & Hn & _) | [(Hi & _) | (_ & _ & _ & Hn & _)]];
      [contradiction | exact Hi | contradiction].
  - destruct (Hpart _ Hall) as [(_ & _ & _ & Hn & _) | [(_ & Hk & _) | (_ & _ & _ & Hn & _)]];
      [contradiction | exact Hk | contradiction].
Defined.

(** C2, as the code has it: the comprehension rate is
    [known / (known + unknown) * 100] over the occurrences of the known and
    unknown words, ignored words counting on neither side, and [0] when there
    is no such occurrence; with 80 known and 20 unknown occurrences it is
    [80.0] and the difficulty level is ["3★ Intermediate"]. *)
Theorem comprehension_rate_formula
    (service : list request -> request -> http_outcome)
    (text_content : option pystr) (vocabulary_set : gset pystr)
    (progress_id : option pystr) (w : world) :
  exists o w',
    analyze_text_vocabulary service text_content vocabulary_set progress_id w
      = Some (o, w') /\
    forall a, o = Returns a ->
      let known_occurrences := sum_counts (known_words a) in
      let unknown_occurrences := sum_counts (unknown_words a) in
      comprehension_rate a
        = (if known_occurrences + unknown_occurrences >? 0
           then NFloat (PrimFloat.mul
                          (int_truediv known_occurrences
                                       (known_occurrences + unknown_occurrences))
                          (float_of_int 100))
           else NInt 0) /\
      (known_occurrences = 80 -> unknown_occurrences = 20 ->
       comprehension_rate a = NFloat 80 /\
       difficulty_level a = u "3★ Intermediate").
Proof.
  destruct (analyze_text_vocabulary_inv service text_content vocabulary_set progress_id w)
    as (words & entries & o & w' & Hrun & _ & _ & Hres).
  exists o, w'. split; [exact Hrun |].
  intros a Ha.
  destruct (Hres a Ha) as (_ & _ & _ & _ & _ & Hkc & Huc & _ & Htot & Hrate & Hdiff).
  cbn zeta. rewrite Hdiff, Hrate, Htot, Hkc, Huc. split; [reflexivity |].
  intros -> ->. split; vm_compute; reflexivity.
Qed.

Lemma comprehension_rate_example :
  exists a w',
    analyze_text_vocabulary service_80_20 (Some (u "猫と犬")) {[ u "猫" ]} None example_world
      = Some (Returns a, w') /\
    sum_counts (known_words a) = 80 /\
    sum_counts (unknown_words a) = 20 /\
    comprehension_rate a = NFloat 80 /\
    difficulty_level a = u "3★ Intermediate".
Proof.
  destruct (comprehension_rate_formula service_80_20 (Some (u "猫と犬")) {[ u "猫" ]} None
              example_world) as (o & w' & Hrun & Hres).
  assert (Ho : exists a, o = Returns a /\ sum_counts (known_words a) = 80
                         /\ sum_counts (unknown_words a) = 20).
  { vm_compute in Hrun. injection Hrun as <- _. eexists. split; [reflexivity |].
    split; vm_compute; reflexivity. }
  destruct Ho as (a & -> & Hk & Hu).
  exists a, w'. destruct (Hres a eq_refl) as [_ H80]. destruct (H80 Hk Hu) as [Hr Hd].
  split_and!; assumption.
Defined.

Lemma difficulty_label_counterexample :
  exists a w',
    analyze_text_vocabulary service_80_20 (Some (u "猫と犬")) {[ u "猫" ]} None example_world
      = Some (Returns a, w') /\
    sum_counts (known_words a) = 80 /\
    sum_counts (unknown_words a) = 20 /\
    difficulty_level a <> u "Elementary" /\
    difficulty_level a <> u "2★ Elementary".
Proof.
  eexists _, _. split; [vm_compute; reflexivity |].
  split_and!; [vm_compute; reflexivity | vm_compute; reflexivity | |];
    vm_compute; discriminate.
Qed.

(** * Further properties of the code *)

Lemma adjectives_plain :
  Forall (fun t => t <> [] /\ forallb (fun c => negb (isspace c)) t = true)
         common_i_adjectives.
Proof.
  unfold common_i_adjectives.
  repeat (constructor; [split; [discriminate | reflexivity] |]). constructor.
Qed.

Lemma adjectives_solid : Forall solid common_i_adjectives.
Proof.
  apply Forall_forall. intros adj Hin.
  destruct (proj1 (Forall_forall _ _) adjectives_plain adj Hin) as [Hne Hsolid].
  split; [exact Hne |]. split; [exact Hsolid | left; exact Hin].
Qed.

Lemma filter_nonspace_solid (t : pystr) :
  forallb (fun c => negb (isspace c)) t = true ->
  filter (fun c => isspace c = false) t = t.
Proof.
  induction t as [| c t IH]; [reflexivity |].
  cbn [forallb]. intros [Hc Ht]%andb_true_iff. rewrite filter_cons.
  apply negb_true_iff in Hc. rewrite decide_True by exact Hc. f_equal. exact (IH Ht).
Qed.

Lemma index_drop (s : pystr) (i : Z) (c : Z) :
  index s i = Some c -> drop (Z.to_nat i) s = c :: drop (Z.to_nat (i + 1)) s.
Proof.
  unfold index. destruct (Z.ltb_spec i 0) as [? | Hi]; [discriminate |]. intros H.
  replace (Z.to_nat (i + 1)) with (S (Z.to_nat i)) by lia.
  apply drop_S. exact H.
Qed.

Lemma matching_adjective_drop (text adj : pystr) (i : Z) :
  0 <= i -> slice text i (i + len adj) = adj ->
  drop (Z.to_nat i) text = adj ++ drop (Z.to_nat (i + len adj)) text.
Proof.
  intros Hi Hs. rewrite slice_forward in Hs by (try apply len_nonneg; lia).
  rewrite <- (take_drop (Z.to_nat (len adj)) (drop (Z.to_nat i) text)) at 1.
  rewrite Hs, drop_drop. do 2 f_equal. pose proof (len_nonneg adj). lia.
Qed.

Lemma simple_tokenize_loop_content (fuel : nat) (text : pystr) :
  forall i tokens result,
    0 <= i ->
    simple_tokenize_loop fuel text i tokens = Some result ->
    Forall solid tokens ->
    concat result
      = concat tokens ++ filter (fun c => isspace c = false) (drop (Z.to_nat i) text) /\
    Forall solid result.
Proof.
  induction fuel as [| fuel IH]; intros i tokens result Hi; cbn [simple_tokenize_loop].
  - destruct (Z.ltb_spec i (len text)); cbn [negb]; [discriminate |].
    intros [= <-] Hok. rewrite drop_ge by (unfold len in *; lia).
    rewrite app_nil_r. split; [reflexivity | exact Hok].
  - destruct (Z.ltb_spec i (len text)) as [Hlt | Hge]; cbn [negb].
    + destruct (find_adjective text i common_i_adjectives) as [adj |] eqn:Ea.
      * apply find_adjective_elem in Ea as [Hin Hs].
        pose proof (proj1 (Forall_forall _ _) adjectives_solid adj Hin) as Hadj.
        pose proof Hadj as (Hne & Hsolid & _).
        intros Hrun Hok.
        apply IH in Hrun as [Hcat Hres];
          [| pose proof (len_nonneg adj); lia
           | apply Forall_app; split; [exact Hok | constructor; [exact Hadj | constructor]]].
        split; [| exact Hres].
        rewrite Hcat, concat_app, (matching_adjective_drop text adj i Hi Hs).
        rewrite filter_app, (filter_nonspace_solid adj Hsolid). cbn [concat].
        rewrite app_nil_r, <- app_assoc. reflexivity.
      * destruct (index text i) as [c |] eqn:Ec; [| discriminate].
        intros Hrun Hok. rewrite (index_drop text i c Ec), filter_cons.
        destruct (isspace c) eqn:Esp; cbn [negb] in Hrun.
        -- apply IH in Hrun as [Hcat Hres]; [| lia | exact Hok].
           rewrite decide_False by discriminate. split; assumption.
        -- apply IH in Hrun as [Hcat Hres];
             [| lia
              | apply Forall_app; split; [exact Hok |];
                constructor; [| constructor];
                split; [discriminate |]; split; [cbn; rewrite Esp; reflexivity |];
                right; reflexivity].
           rewrite decide_True by reflexivity. split; [| exact Hres].
           rewrite Hcat, concat_app. cbn [concat]. rewrite app_nil_r, <- app_assoc.
           reflexivity.
    + intros [= <-] Hok. rewrite drop_ge by (unfold len in *; lia).
      rewrite app_nil_r. split; [reflexivity | exact Hok].
Qed.

Lemma simple_japanese_tokenize_content (text : pystr) (tokens : list pystr) :
  _simple_japanese_tokenize text = Some tokens ->
  concat tokens = filter (fun c => isspace c = false) text /\ Forall solid tokens.
Proof.
  unfold _simple_japanese_tokenize. case_bool_decide as He.
  - intros [= <-]. subst text. split; [reflexivity | constructor].
  - intros Htok. apply simple_tokenize_loop_content in Htok; [exact Htok | lia | constructor].
Qed.

(** X1 ([_simple_japanese_tokenize]): the fallback tokenizer returns for every
    text; its tokens, put together, are the text without its whitespace; and
    every token is one of the listed adjectives or a single character, not
    empty and without a whitespace character. *)
Theorem fallback_tokens_content (text : pystr) :
  exists tokens,
    _simple_japanese_tokenize text = Some tokens /\
    concat tokens = filter (fun c => isspace c = false) text /\
    Forall solid tokens.
Proof.
  destruct (simple_japanese_tokenize_total text) as [tokens Htok].
  exists tokens. split; [exact Htok |].
  exact (simple_japanese_tokenize_content text tokens Htok).
Qed.

Lemma last_index_of_found (c : Z) (s : pystr) (i acc : Z) :
  last_index_of c s i acc = acc \/
  (i <= last_index_of c s i acc /\
   s !! Z.to_nat (last_index_of c s i acc - i) = Some c).
Proof.
  revert i acc. induction s as [| x r IH]; intros i acc; cbn [last_index_of];
    [left; reflexivity |].
  destruct (IH (i + 1) (if x =? c then i else acc)) as [E | [Hle E]].
  - rewrite E. destruct (Z.eqb_spec x c) as [-> | _]; [right | left; reflexivity].
    rewrite Z.sub_diag. split; [lia | reflexivity].
  - right. split; [lia |].
    replace (Z.to_nat (last_index_of c r (i + 1) (if x =? c then i else acc) - i))
      with (S (Z.to_nat (last_index_of c r (i + 1) (if x =? c then i else acc) - (i + 1))))
      by lia.
    exact E.
Qed.

Lemma rfind_found (s : pystr) (c : Z) (from : Z) :
  0 <= from -> rfind s c from <> -1 -> s !! Z.to_nat (rfind s c from) = Some c.
Proof.
  intros Hfrom. unfold rfind. destruct (Z.ltb_spec from 0); [lia |].
  destruct (last_index_of_found c (drop (Z.to_nat from) s) from (-1)) as [-> | [Hle E]];
    [contradiction |].
  intros _. rewrite lookup_drop in E. rewrite <- E. f_equal. lia.
Qed.

Lemma find_break_found (chunk_text : pystr) (from : Z) (puncts : list Z) (p : Z) :
  0 <= from -> find_break chunk_text from puncts = Some p ->
  exists b, b ∈ puncts /\ chunk_text !! Z.to_nat p = Some b.
Proof.
  intros Hfrom. induction puncts as [| punct rest IH]; cbn [find_break]; [discriminate |].
  destruct (Z.eqb_spec (rfind chunk_text punct from) (-1)) as [E | E]; cbn [negb].
  - intros H. destruct (IH H) as (b & Hb & Hl). exists b. split; [right; exact Hb | exact Hl].
  - intros [= <-]. exists punct. split; [left | apply rfind_found; assumption].
Qed.

Lemma last_take_lookup (s : pystr) (n : nat) (c : Z) :
  s !! n = Some c -> last (take (S n) s) = Some c.
Proof.
  intros H. rewrite (take_S_r s n c H). apply last_snoc.
Qed.

(** The chunk cut at [chunk_end] is full or ends with a break character. *)
Lemma chunk_ends_at_break (text : pystr) (chunk_size start : Z) :
  0 < chunk_size -> 0 <= start -> start + chunk_size <= len text ->
  ends_at_break chunk_size (slice text start (chunk_end text chunk_size start)).
Proof.
  intros Hcs Hs Hlen.
  assert (Hfrom : 0 <= Z.max start (start + chunk_size - 200) - start) by lia.
  assert (Hcut : forall puncts p,
    puncts ⊆ break_characters ->
    find_break (slice text start (start + chunk_size))
      (Z.max start (start + chunk_size - 200) - start) puncts = Some p ->
    ends_at_break chunk_size (slice text start (start + p + 1))).
  { intros puncts p Hsub Hp. right.
    destruct (find_break_range _ _ _ _ Hfrom Hp) as [Hp0 Hp1].
    destruct (find_break_found _ _ _ _ Hfrom Hp) as (b & Hb & Hl).
    rewrite slice_inner_len in Hp1 by lia.
    exists b. split; [| apply Hsub, Hb].
    rewrite slice_inner in Hl by lia. rewrite slice_inner by lia.
    apply lookup_take_Some in Hl as [Hl _].
    replace (Z.to_nat (start + p + 1 - start)) with (S (Z.to_nat p)) by lia.
    apply last_take_lookup. exact Hl. }
  unfold chunk_end.
  destruct (find_break _ _ sentence_endings) as [p |] eqn:E1.
  { apply (Hcut sentence_endings p); [| exact E1].
    intros b Hb. unfold break_characters. rewrite !elem_of_app. tauto. }
  destruct (find_break _ _ other_punctuation) as [p |] eqn:E2.
  { apply (Hcut other_punctuation p); [| exact E2].
    intros b Hb. unfold break_characters. rewrite !elem_of_app. tauto. }
  destruct (find_break _ _ whitespace_breaks) as [p |] eqn:E3.
  { apply (Hcut whitespace_breaks p); [| exact E3].
    intros b Hb. unfold break_characters. rewrite !elem_of_app. tauto. }
  left. rewrite slice_inner_len by lia. lia.
Qed.

Lemma split_loop_breaks (fuel : nat) (text : pystr) (chunk_size : Z) :
  0 < chunk_size ->
  forall start chunks result,
    0 <= start ->
    split_loop fuel text chunk_size start chunks = Some result ->
    Forall (ends_at_break chunk_size) chunks ->
    forall i chunk, result !! i = Some chunk -> (S i < length result)%nat ->
      ends_at_break chunk_size chunk.
Proof.
  intros Hcs. induction fuel as [| fuel IH]; intros start chunks result Hs;
    cbn [split_loop].
  - destruct (start <? len text); cbn [negb]; [discriminate |].
    intros [= <-] Hok i chunk Hi _. exact (proj1 (Forall_lookup _ _) Hok i chunk Hi).
  - destruct (Z.ltb_spec start (len text)) as [Hlt | Hge]; cbn [negb].
    + destruct (Z.geb_spec (start + chunk_size) (len text)) as [Hlast | Hmore].
      * intros [= <-] Hok i chunk Hi Hlen. rewrite length_app in Hlen. cbn in Hlen.
        rewrite lookup_app_l in Hi by lia.
        exact (proj1 (Forall_lookup _ _) Hok i chunk Hi).
      * intros Hrun Hok.
        destruct (chunk_end_forward text chunk_size start) as [H1 H2]; [lia .. |].
        eapply IH; [| exact Hrun |]; [lia |].
        apply Forall_app. split; [exact Hok |]. constructor; [| constructor].
        apply chunk_ends_at_break; lia.
    + intros [= <-] Hok i chunk Hi _. exact (proj1 (Forall_lookup _ _) Hok i chunk Hi).
Qed.

(** X2 ([_split_text_into_chunks]): for a positive chunk size, every chunk
    but the last is full or ends with one of the break characters (a
    sentence ending, another punctuation mark, or whitespace). *)
Theorem chunks_end_at_breaks (text : pystr) (chunk_size : Z) (chunks : list pystr) :
  0 < chunk_size ->
  _split_text_into_chunks text chunk_size = Some chunks ->
  forall i chunk, chunks !! i = Some chunk -> (S i < length chunks)%nat ->
    ends_at_break chunk_size chunk.
Proof.
  intros Hcs. unfold _split_text_into_chunks.
  destruct (len text <=? chunk_size).
  - intros [= <-] i chunk _ Hlen. cbn in Hlen. lia.
  - intros Hrun. eapply split_loop_breaks; [exact Hcs | | exact Hrun | constructor]. lia.
Qed.

Lemma chunks_end_at_breaks_witness :
  ends_at_break 5 (u "あい。").
Proof.
  apply (chunks_end_at_breaks (u "あい。うえお、かきく けこさしすせそ") 5
           [u "あい。"; u "うえお、"; u "かきく "; u "けこさしす"; u "せそ"] ltac:(lia)
           eq_refl 0%nat (u "あい。") eq_refl).
  cbn. lia.
Defined.







(** ** TokenFilter: what a kept token looks like *)

Lemma match_class_rep_all (cls : Z -> bool) (word : pystr) :
  word <> [] -> forallb cls word = true -> match_class_rep cls 1 None word = true.
Proof.
  intros Hne Hall. unfold match_class_rep. rewrite Hall. cbn [andb count_ok].
  destruct word; [contradiction | reflexivity].
Qed.

Lemma match_class_rep_one (cls : Z -> bool) (c : Z) :
  cls c = true -> match_class_rep cls 1 (Some 1%nat) [c] = true.
Proof. intros H. unfold match_class_rep. cbn. rewrite H. reflexivity. Qed.

Lemma forallb_false_Exists (cls : Z -> bool) (s : pystr) :
  forallb cls s = false -> Exists (fun c => cls c = false) s.
Proof.
  induction s as [| c s IH]; cbn [forallb]; [discriminate |].
  destruct (cls c) eqn:Hc; cbn [andb].
  - intros H. right. exact (IH H).
  - intros _. left. exact Hc.
Qed.

Lemma allowed_short_two : Forall (fun t => length t = 2%nat) allowed_short.
Proof. unfold allowed_short. repeat (constructor; [reflexivity |]). constructor. Qed.

(** The tests a kept token has passed, in the order of the loop. *)
Lemma keep_token_tests (word : pystr) :
  keep_token word = true ->
  word <> [] /\ strip word <> [] /\
  match_class_rep punct_class 1 None word = false /\
  ((len word =? 1) && match_class_rep katakana 1 (Some 1%nat) word = false) /\
  ((len word <=? 2) && match_class_rep hiragana 1 None word
     && negb (bool_decide (word ∈ allowed_short)) = false) /\
  match_class_rep conjugation_ending 1 (Some 2%nat) word = false.
Proof.
  unfold keep_token.
  destruct (bool_decide (word = [])) eqn:E0; [discriminate |].
  destruct (bool_decide (strip word = [])) eqn:E1; [discriminate |]. cbn [orb].
  destruct (match_class_rep punct_class 1 None word); [discriminate |].
  destruct (PrimFloat.leb _ _); [discriminate |].
  destruct ((len word =? 1) && is_substring word particles); [discriminate |].
  destruct ((len word =? 1) && match_class_rep hiragana 1 (Some 1%nat) word
            && negb (bool_decide (word ∈ important_single))); [discriminate |].
  destruct ((len word =? 1) && match_class_rep katakana 1 (Some 1%nat) word);
    [discriminate |].
  destruct ((len word <=? 2) && match_class_rep hiragana 1 None word
            && negb (bool_decide (word ∈ allowed_short))); [discriminate |].
  destruct (match_class_rep conjugation_ending 1 (Some 2%nat) word); [discriminate |].
  intros _. apply bool_decide_eq_false in E0, E1. repeat split; assumption.
Qed.

(** X3 ([filter_japanese_tokens]): a token the filter keeps is one of the
    input tokens, is not blank, has a character outside the punctuation
    class, is not a single hiragana or katakana character (the allowlist of
    single hiragana does not save one: the test on short hiragana words drops
    it), and, when it is one or two hiragana, is one of the allowed short
    words. *)
Theorem filter_kept_tokens (words : list pystr) (word : pystr) :
  word ∈ filter_japanese_tokens words ->
  word ∈ words /\
  strip word <> [] /\
  Exists (fun c => punct_class c = false) word /\
  (forall c, word = [c] -> hiragana c = false /\ katakana c = false) /\
  (len word <= 2 -> forallb hiragana word = true -> word ∈ allowed_short).
Proof.
  unfold filter_japanese_tokens. intros [Hkeep Hin]%list_elem_of_filter.
  destruct (keep_token_tests word Hkeep) as (Hne & Hstrip & Hpunct & Hkata & Hhira & _).
  assert (Hshort : len word <= 2 -> forallb hiragana word = true -> word ∈ allowed_short).
  { intros Hlen Hall. rewrite (match_class_rep_all hiragana word Hne Hall) in Hhira.
    destruct (Z.leb_spec (len word) 2); [| lia]. cbn [andb] in Hhira.
    apply negb_false_iff in Hhira. exact (proj1 (bool_decide_eq_true _) Hhira). }
  split; [exact Hin |]. split; [exact Hstrip |]. split; [| split; [| exact Hshort]].
  - apply forallb_false_Exists. destruct (forallb punct_class word) eqn:Hall; [| reflexivity].
    rewrite (match_class_rep_all punct_class word Hne Hall) in Hpunct. discriminate.
  - intros c ->. split.
    + destruct (hiragana c) eqn:Hc; [| reflexivity]. exfalso.
      assert (Hel : [c] ∈ allowed_short).
      { apply Hshort; [unfold len; cbn [length]; lia | cbn [forallb]; rewrite Hc; reflexivity]. }
      apply (proj1 (Forall_forall _ _) allowed_short_two) in Hel. discriminate.
    + destruct (katakana c) eqn:Hc; [| reflexivity].
      rewrite (match_class_rep_one katakana c Hc) in Hkata. discriminate.
Qed.

Lemma filter_kept_tokens_witness :
  u "猫" ∈ [u "い"; u "猫"; u "。"] /\ strip (u "猫") <> [].
Proof.
  destruct (filter_kept_tokens [u "い"; u "猫"; u "。"] (u "猫")) as (H1 & H2 & _).
  - apply (bool_decide_unpack _). vm_compute. exact I.
  - split; assumption.
Defined.

(** ** YomitanClient: requests, counter and success flag *)

Lemma report_run (progress_id : option pystr) (update : progress_update) (w : world) :
  exists w', report progress_id update w = Some (tt, w') /\
    same_but_progress w w' /\ (progress_id = None -> w' = w).
Proof.
  unfold report. destruct progress_id as [id |].
  - destruct (bool_decide (id = [])).
    + exists w. repeat split; reflexivity || discriminate.
    + eexists. split; [reflexivity |]. repeat split; reflexivity || discriminate.
  - exists w. repeat split; reflexivity.
Qed.

Lemma tokenize_single_chunk_run
    (service : list request -> request -> http_outcome)
    (text : pystr) (max_scan_length : Z) (w : world) :
  exists tokens success w',
    _tokenize_single_chunk service text max_scan_length w = Some ((tokens, success), w') /\
    frequency_cache w' = frequency_cache w /\
    progress_tracker w' = progress_tracker w /\
    ignored_words_file w' = ignored_words_file w /\
    active_yomitan_operations w' = Z.max 0 (active_yomitan_operations w) /\
    requests_sent w' = requests_sent w ++ [PostTokenize text max_scan_length] /\
    (success = false -> tokens = []) /\
    (forall e, service (requests_sent w) (PostTokenize text max_scan_length)
                 = RequestRaised e ->
       _simple_japanese_tokenize text = Some tokens /\ success = true).
Proof.
  destruct (simple_japanese_tokenize_total text) as [fallback Hf].
  unfold _tokenize_single_chunk, bind, modify, requests_post, ret, lift.
  cbn [requests_sent set_active_yomitan_operations set_requests_sent].
  rewrite Hf.
  assert (Hmax : forall a, Z.max 0 (a + 1 - 1) = Z.max 0 a) by (intros; f_equal; lia).
  destruct (service (requests_sent w) (PostTokenize text max_scan_length))
    as [status_code body | e] eqn:Hs.
  - destruct (status_code =? 200).
    + destruct body as [result |].
      * destruct (extract_words result) as [words | e].
        -- exists words, true, 
             (set_active_yomitan_operations (Z.max 0 (active_yomitan_operations w + 1 - 1))
               (set_requests_sent (requests_sent w ++ [PostTokenize text max_scan_length])
                 (set_active_yomitan_operations (active_yomitan_operations w + 1) w))).
           cbn. rewrite Hmax. repeat split; try reflexivity; discriminate.
        -- exists fallback, true,
             (set_active_yomitan_operations (Z.max 0 (active_yomitan_operations w + 1 - 1))
               (set_requests_sent (requests_sent w ++ [PostTokenize text max_scan_length])
                 (set_active_yomitan_operations (active_yomitan_operations w + 1) w))).
           destruct e; cbn; rewrite Hmax; repeat split; try reflexivity; discriminate.
      * exists fallback, true,
             (set_active_yomitan_operations (Z.max 0 (active_yomitan_operations w + 1 - 1))
               (set_requests_sent (requests_sent w ++ [PostTokenize text max_scan_length])
                 (set_active_yomitan_operations (active_yomitan_operations w + 1) w))).
        cbn; rewrite Hmax; repeat split; try reflexivity; discriminate.
    + exists [], false,
             (set_active_yomitan_operations (Z.max 0 (active_yomitan_operations w + 1 - 1))
               (set_requests_sent (requests_sent w ++ [PostTokenize text max_scan_length])
                 (set_active_yomitan_operations (active_yomitan_operations w + 1) w))).
      cbn; rewrite Hmax; repeat split; try reflexivity; discriminate.
  - exists fallback, true,
             (set_active_yomitan_operations (Z.max 0 (active_yomitan_operations w + 1 - 1))
               (set_requests_sent (requests_sent w ++ [PostTokenize text max_scan_length])
                 (set_active_yomitan_operations (active_yomitan_operations w + 1) w))).
    destruct e; cbn; rewrite Hmax; repeat split; try reflexivity; discriminate.
Qed.

Lemma tokenize_chunks_run
    (service : list request -> request -> http_outcome)
    (progress_id : option pystr) (max_scan_length n : Z) (chunks : list pystr) :
  forall i all_words w,
  exists parts w',
    tokenize_chunks service progress_id max_scan_length n i chunks all_words w
      = Some (all_words ++ concat parts, w') /\
    frequency_cache w' = frequency_cache w /\
    ignored_words_file w' = ignored_words_file w /\
    (0 <= active_yomitan_operations w ->
     active_yomitan_operations w' = active_yomitan_operations w) /\
    (progress_id = None -> progress_tracker w' = progress_tracker w) /\
    requests_sent w'
      = requests_sent w ++ map (fun chunk => PostTokenize chunk max_scan_length) chunks /\
    (unreachable service ->
     Forall2 (fun chunk part => _simple_japanese_tokenize chunk = Some part) chunks parts).
Proof.
  induction chunks as [| chunk rest IH]; intros i all_words w.
  - exists [], w. cbn [tokenize_chunks concat map]. rewrite !app_nil_r.
    repeat split; try reflexivity. intros _. constructor.
  - cbn [tokenize_chunks]. unfold bind at 1.
    match goal with |- context [report ?p ?x w] =>
      destruct (report_run p x w) as (w1 & -> & (Hc1 & Ha1 & Hf1 & Hr1) & Hn1) end.
    unfold bind at 1.
    destruct (tokenize_single_chunk_run service chunk max_scan_length w1)
      as (tokens & success & w2 & -> & Hc2 & Hp2 & Hf2 & Ha2 & Hr2 & Hfail & Hdown).
    destruct success; cbn [negb].
    + unfold bind at 1.
      match goal with |- context [report ?p ?x w2] =>
        destruct (report_run p x w2) as (w3 & -> & (Hc3 & Ha3 & Hf3 & Hr3) & Hn3) end.
      destruct (IH (i + 1) (all_words ++ tokens) w3)
        as (parts & w' & -> & Hc & Hf & Ha & Hp & Hr & Hd).
      exists (tokens :: parts), w'. cbn [concat map]. rewrite app_assoc.
      split; [reflexivity |]. split; [congruence |]. split; [congruence |].
      split; [intros H0; rewrite Ha by lia; lia |].
      split; [intros ->; rewrite Hp, Hn3, Hp2, Hn1; reflexivity |].
      split; [rewrite Hr, Hr3, Hr2, Hr1, <- app_assoc; reflexivity |].
      intros Hun. constructor; [| exact (Hd Hun)].
      destruct (Hun (requests_sent w1) (PostTokenize chunk max_scan_length)) as [e He].
      exact (proj1 (Hdown e He)).
    + destruct (IH (i + 1) all_words w2) as (parts & w' & -> & Hc & Hf & Ha & Hp & Hr & Hd).
      exists ([] :: parts), w'. cbn [concat map app].
      split; [reflexivity |]. split; [congruence |]. split; [congruence |].
      split; [intros H0; rewrite Ha by lia; lia |].
      split; [intros ->; rewrite Hp, Hp2, Hn1; reflexivity |].
      split; [rewrite Hr, Hr2, Hr1, <- app_assoc; reflexivity |].
      intros Hun. exfalso.
      destruct (Hun (requests_sent w1) (PostTokenize chunk max_scan_length)) as [e He].
      destruct (Hdown e He) as [_ ?]. discriminate.
Qed.

Lemma lstrip_spec (s : pystr) :
  exists spaces, s = spaces ++ lstrip s /\ forallb isspace spaces = true.
Proof.
  induction s as [| c r (spaces & Hr & Hs)]; [exists []; split; reflexivity |].
  cbn [lstrip]. destruct (isspace c) eqn:Hc.
  - exists (c :: spaces). cbn [forallb app]. rewrite Hc, Hs, <- Hr. split; reflexivity.
  - exists []. split; reflexivity.
Qed.

Lemma lstrip_nil (s : pystr) : lstrip s = [] -> forallb isspace s = true.
Proof.
  intros H. destruct (lstrip_spec s) as (spaces & Hs & Hsp). rewrite H, app_nil_r in Hs.
  subst spaces. exact Hsp.
Qed.

Lemma forallb_rev {A} (f : A -> bool) (l : list A) : forallb f (rev l) = forallb f l.
Proof.
  induction l as [| x l IH]; [reflexivity |]. cbn [rev forallb].
  rewrite forallb_app, IH. cbn [forallb]. rewrite andb_true_r. apply andb_comm.
Qed.

Lemma strip_nil (s : pystr) : strip s = [] -> forallb isspace s = true.
Proof.
  unfold strip. intros H. apply (f_equal (@rev Z)) in H. rewrite rev_involutive in H.
  cbn [rev] in H. apply lstrip_nil in H. rewrite forallb_rev in H.
  destruct (lstrip_spec s) as (spaces & Hs & Hsp). rewrite Hs, forallb_app, Hsp, H.
  reflexivity.
Qed.

Lemma filter_nonspace_blank (s : pystr) :
  forallb isspace s = true -> filter (fun c => isspace c = false) s = [].
Proof.
  induction s as [| c s IH]; [reflexivity |]. cbn [forallb].
  intros [Hc Hs]%andb_true_iff. rewrite filter_cons, decide_False by congruence.
  exact (IH Hs).
Qed.

Lemma filter_nonspace_nil (s : pystr) :
  filter (fun c => isspace c = false) s = [] -> forallb isspace s = true.
Proof.
  induction s as [| c s IH]; [reflexivity |]. rewrite filter_cons.
  destruct (decide (isspace c = false)) as [Hc | Hc]; [discriminate |].
  intros H. cbn [forallb]. rewrite (IH H). destruct (isspace c); [reflexivity | congruence].
Qed.

Lemma filter_concat {A} (P : A -> Prop) `{forall x, Decision (P x)} (ls : list (list A)) :
  filter P (concat ls) = concat (map (filter P) ls).
Proof.
  induction ls as [| l ls IH]; [reflexivity |]. cbn [concat map].
  rewrite filter_app, IH. reflexivity.
Qed.

Lemma fallback_parts (chunks : list pystr) (parts : list (list pystr)) :
  Forall2 (fun chunk part => _simple_japanese_tokenize chunk = Some part) chunks parts ->
  concat (concat parts) = filter (fun c => isspace c = false) (concat chunks) /\
  Forall solid (concat parts).
Proof.
  induction 1 as [| chunk part chunks parts Hp _ [IH1 IH2]]; [split; [reflexivity | constructor] |].
  destruct (simple_japanese_tokenize_content chunk part Hp) as [Hc Hs].
  cbn [concat]. rewrite concat_app, filter_app, Hc, IH1.
  split; [reflexivity | apply Forall_app; split; assumption].
Qed.

(** What [text] asks the server to tokenize: nothing when it is missing or
    blank. *)
Lemma tokenize_with_yomitan_api_run
    (service : list request -> request -> http_outcome)
    (text : option pystr) (max_scan_length : Z) (chunk_size : option Z)
    (progress_id : option pystr) (w : world) :
  0 < default YOMITAN_CHUNK_SIZE chunk_size ->
  exists tokens success chunks w',
    tokenize_with_yomitan_api service text max_scan_length chunk_size progress_id w
      = Some ((tokens, success), w') /\
    frequency_cache w' = frequency_cache w /\
    ignored_words_file w' = ignored_words_file w /\
    (0 <= active_yomitan_operations w ->
     active_yomitan_operations w' = active_yomitan_operations w) /\
    (progress_id = None -> progress_tracker w' = progress_tracker w) /\
    requests_sent w'
      = requests_sent w ++ map (fun chunk => PostTokenize chunk max_scan_length) chunks /\
    concat chunks = to_tokenize text /\
    Forall (fun chunk => chunk <> [] /\ len chunk <= default YOMITAN_CHUNK_SIZE chunk_size)
      chunks /\
    (success = false -> tokens = []) /\
    (unreachable service ->
     success = true /\
     concat tokens = filter (fun c => isspace c = false) (to_tokenize text) /\
     Forall solid tokens).
Proof.
  intros Hcs. unfold tokenize_with_yomitan_api, to_tokenize.
  destruct text as [text |]; cycle 1.
  { exists [], true, [], w. cbn [map concat]. rewrite app_nil_r.
    repeat split; try reflexivity; try discriminate; constructor. }
  destruct (bool_decide (text = []) || bool_decide (strip text = [])) eqn:Hblank.
  { exists [], true, [], w. cbn [map concat]. rewrite app_nil_r.
    repeat split; try reflexivity; try discriminate; constructor. }
  apply orb_false_iff in Hblank as [Hne%bool_decide_eq_false Hstrip%bool_decide_eq_false].
  assert (Hsolid : filter (fun c => isspace c = false) text <> []).
  { intros H. apply Hstrip, strip_blank, filter_nonspace_nil, H. }
  destruct (Z.leb_spec (len text) (default YOMITAN_CHUNK_SIZE chunk_size)) as [Hshort | Hlong].
  - unfold bind at 1.
    match goal with |- context [report ?p ?x w] =>
      destruct (report_run p x w) as (w1 & -> & (Hc1 & Ha1 & Hf1 & Hr1) & Hn1) end.
    destruct (tokenize_single_chunk_run service text max_scan_length w1)
      as (tokens & success & w2 & -> & Hc2 & Hp2 & Hf2 & Ha2 & Hr2 & Hfail & Hdown).
    exists tokens, success, [text], w2. cbn [map concat]. rewrite app_nil_r.
    split; [reflexivity |]. split; [congruence |]. split; [congruence |].
    split; [intros H0; rewrite Ha2, Ha1; lia |].
    split; [intros ->; rewrite Hp2, Hn1; reflexivity |].
    split; [rewrite Hr2, Hr1; reflexivity |].
    split; [reflexivity |].
    split; [constructor; [split; assumption | constructor] |].
    split; [exact Hfail |].
    intros Hun. destruct (Hun (requests_sent w1) (PostTokenize text max_scan_length)) as [e He].
    destruct (Hdown e He) as [Hfb ->]. split; [reflexivity |].
    exact (simple_japanese_tokenize_content text tokens Hfb).
  - destruct (split_positive text _ Hcs) as (chunks & Hsplit & Hcat & Hlen & Hnonempty).
    unfold bind at 1, lift. rewrite Hsplit.
    unfold bind at 1.
    match goal with |- context [report ?p ?x w] =>
      destruct (report_run p x w) as (w1 & -> & (Hc1 & Ha1 & Hf1 & Hr1) & Hn1) end.
    unfold bind at 1.
    destruct (tokenize_chunks_run service progress_id max_scan_length
                (Z.of_nat (length chunks)) chunks 1 [] w1)
      as (parts & w2 & -> & Hc2 & Hf2 & Ha2 & Hp2 & Hr2 & Hdown).
    cbn [app]. unfold bind at 1.
    match goal with |- context [report ?p ?x w2] =>
      destruct (report_run p x w2) as (w3 & -> & (Hc3 & Ha3 & Hf3 & Hr3) & Hn3) end.
    unfold ret.
    exists (concat parts), (Z.of_nat (length (concat parts)) >? 0), chunks, w3.
    split; [reflexivity |]. split; [congruence |]. split; [congruence |].
    split; [intros H0; rewrite Ha3, Ha2, Ha1; lia |].
    split; [intros ->; rewrite Hn3, Hp2, Hn1; reflexivity |].
    split; [rewrite Hr3, Hr2, Hr1; reflexivity |].
    split; [exact Hcat |].
    split. { specialize (Hnonempty Hne). apply Forall_forall. intros c Hc.
             split; [exact (proj1 (Forall_forall _ _) Hnonempty c Hc)
                    | exact (proj1 (Forall_forall _ _) Hlen c Hc)]. }
    split. { destruct (concat parts); [reflexivity | cbn; discriminate]. }
    intros Hun. destruct (fallback_parts chunks parts (Hdown Hun)) as [Hcontent Hs].
    rewrite Hcat in Hcontent. split; [| split; assumption].
    destruct (concat parts) as [| t ts]; [| apply Z.gtb_lt; cbn [length]; lia].
    cbn [concat] in Hcontent. congruence.
Qed.

(** X4 ([_tokenize_single_chunk]): whatever the server does, a call returns,
    sends exactly one request (the tokenize request for its text), leaves the
    counter of active operations at [max(0, n)] for its value [n] before the
    call, and touches neither the frequency cache, the progress tracker nor
    the ignored-words file. *)
Theorem tokenize_single_chunk_effect
    (service : list request -> request -> http_outcome)
    (text : pystr) (max_scan_length : Z) (w : world) :
  exists result w',
    _tokenize_single_chunk service text max_scan_length w = Some (result, w') /\
    requests_sent w' = requests_sent w ++ [PostTokenize text max_scan_length] /\
    active_yomitan_operations w' = Z.max 0 (active_yomitan_operations w) /\
    frequency_cache w' = frequency_cache w /\
    progress_tracker w' = progress_tracker w /\
    ignored_words_file w' = ignored_words_file w.
Proof.
  destruct (tokenize_single_chunk_run service text max_scan_length w)
    as (tokens & success & w' & Hrun & Hc & Hp & Hf & Ha & Hr & _).
  exists (tokens, success), w'. repeat split; assumption.
Qed.

Lemma to_tokenize_some (text : pystr) : strip text <> [] -> to_tokenize (Some text) = text.
Proof.
  intros Hs. unfold to_tokenize.
  rewrite (bool_decide_eq_false_2 (strip text = []) Hs), orb_false_r.
  case_bool_decide as He; [| reflexivity]. subst text. contradiction Hs. reflexivity.
Qed.

(** X5 ([tokenize_with_yomitan_api]): for a positive chunk size and a text
    that is not blank, the requests sent are the tokenize requests for the
    chunks of the text, one per chunk and in order, also after a chunk has
    failed; the chunks sent concatenate to the text, none is empty and none
    is longer than the chunk size. *)
Theorem tokenize_requests_cover_text
    (service : list request -> request -> http_outcome)
    (text : pystr) (max_scan_length : Z) (chunk_size : option Z)
    (progress_id : option pystr) (w : world) :
  0 < default YOMITAN_CHUNK_SIZE chunk_size ->
  strip text <> [] ->
  exists result chunks w',
    tokenize_with_yomitan_api service (Some text) max_scan_length chunk_size progress_id w
      = Some (result, w') /\
    requests_sent w'
      = requests_sent w ++ map (fun chunk => PostTokenize chunk max_scan_length) chunks /\
    concat chunks = text /\
    Forall (fun chunk => chunk <> [] /\ len chunk <= default YOMITAN_CHUNK_SIZE chunk_size)
      chunks.
Proof.
  intros Hcs Hs.
  destruct (tokenize_with_yomitan_api_run service (Some text) max_scan_length chunk_size
              progress_id w Hcs)
    as (tokens & success & chunks & w' & Hrun & _ & _ & _ & _ & Hr & Hcat & Hlen & _).
  rewrite (to_tokenize_some text Hs) in Hcat.
  exists (tokens, success), chunks, w'. repeat split; assumption.
Qed.

Lemma tokenize_requests_cover_text_witness :
  exists result chunks w',
    tokenize_with_yomitan_api service_error_500 (Some (u "あい。うえお、かきく"))
      50 (Some 5) None example_world = Some (result, w') /\
    requests_sent w'
      = requests_sent example_world ++ map (fun chunk => PostTokenize chunk 50) chunks /\
    concat chunks = u "あい。うえお、かきく" /\
    Forall (fun chunk => chunk <> [] /\ len chunk <= 5) chunks.
Proof.
  apply (tokenize_requests_cover_text service_error_500 (u "あい。うえお、かきく") 50
           (Some 5) None example_world).
  - cbn. lia.
  - vm_compute. discriminate.
Defined.

(** X6 ([tokenize_with_yomitan_api]): for a positive chunk size the call
    returns; a failure flag comes with no tokens; the frequency cache and the
    ignored-words file are as before, the counter of active operations is
    back at its value when that was not negative, and without a progress id
    the progress tracker is as before. *)
Theorem tokenize_flag_and_state
    (service : list request -> request -> http_outcome)
    (text : option pystr) (max_scan_length : Z) (chunk_size : option Z)
    (progress_id : option pystr) (w : world) :
  0 < default YOMITAN_CHUNK_SIZE chunk_size ->
  exists tokens success w',
    tokenize_with_yomitan_api service text max_scan_length chunk_size progress_id w
      = Some ((tokens, success), w') /\
    (success = false -> tokens = []) /\
    frequency_cache w' = frequency_cache w /\
    ignored_words_file w' = ignored_words_file w /\
    (0 <= active_yomitan_operations w ->
     active_yomitan_operations w' = active_yomitan_operations w) /\
    (progress_id = None -> progress_tracker w' = progress_tracker w).
Proof.
  intros Hcs.
  destruct (tokenize_with_yomitan_api_run service text max_scan_length chunk_size
              progress_id w Hcs)
    as (tokens & success & chunks & w' & Hrun & Hc & Hf & Ha & Hp & _ & _ & _ & Hfail & _).
  exists tokens, success, w'. repeat split; assumption.
Qed.

Lemma tokenize_flag_and_state_witness :
  exists tokens success w',
    tokenize_with_yomitan_api service_error_500 (Some (u "あい。うえお、かきく"))
      50 (Some 5) None example_world = Some ((tokens, success), w') /\
    (success = false -> tokens = []) /\
    frequency_cache w' = frequency_cache example_world /\
    ignored_words_file w' = ignored_words_file example_world /\
    (0 <= active_yomitan_operations example_world ->
     active_yomitan_operations w' = active_yomitan_operations example_world) /\
    (@None pystr = None -> progress_tracker w' = progress_tracker example_world).
Proof.
  apply (tokenize_flag_and_state service_error_500 (Some (u "あい。うえお、かきく")) 50
           (Some 5) None example_world).
  cbn. lia.
Defined.

(** X7 ([tokenize_with_yomitan_api], [_tokenize_single_chunk],
    [_simple_japanese_tokenize]): when every request to the server raises,
    tokenization still succeeds, for a positive chunk size: the flag is true
    and the tokens, put together, are the text without its whitespace (no
    token for a missing or blank text), none of them empty or holding
    whitespace. *)
Theorem tokenize_server_unreachable
    (service : list request -> request -> http_outcome)
    (text : option pystr) (max_scan_length : Z) (chunk_size : option Z)
    (progress_id : option pystr) (w : world) :
  0 < default YOMITAN_CHUNK_SIZE chunk_size ->
  unreachable service ->
  exists tokens w',
    tokenize_with_yomitan_api service text max_scan_length chunk_size progress_id w
      = Some ((tokens, true), w') /\
    concat tokens = filter (fun c => isspace c = false) (to_tokenize text) /\
    Forall solid tokens.
Proof.
  intros Hcs Hun.
  destruct (tokenize_with_yomitan_api_run service text max_scan_length chunk_size
              progress_id w Hcs)
    as (tokens & success & chunks & w' & Hrun & _ & _ & _ & _ & _ & _ & _ & _ & Hdown).
  destruct (Hdown Hun) as (-> & Hcontent & Hsolid).
  exists tokens, w'. repeat split; assumption.
Qed.

Lemma tokenize_server_unreachable_witness :
  exists tokens w',
    tokenize_with_yomitan_api service_timeout (Some (u "熱い猫。 かわいい犬")) 50 (Some 5)
      None example_world = Some ((tokens, true), w') /\
    concat tokens
      = filter (fun c => isspace c = false) (to_tokenize (Some (u "熱い猫。 かわいい犬"))) /\
    Forall solid tokens.
Proof.
  apply (tokenize_server_unreachable service_timeout (Some (u "熱い猫。 かわいい犬")) 50
           (Some 5) None example_world).
  - cbn. lia.
  - intros log r. exists Timeout. reflexivity.
Defined.

(** ** [tokenize_japanese_text] *)

Lemma tokenize_japanese_text_run
    (service : list request -> request -> http_outcome)
    (text : option pystr) (progress_id : option pystr) (w : world) :
  exists words chunks w',
    tokenize_japanese_text service text progress_id w = Some (words, w') /\
    Forall (fun token => keep_token token = true) words /\
    frequency_cache w' = frequency_cache w /\
    ignored_words_file w' = ignored_words_file w /\
    (0 <= active_yomitan_operations w ->
     active_yomitan_operations w' = active_yomitan_operations w) /\
    (progress_id = None -> progress_tracker w' = progress_tracker w) /\
    requests_sent w' = requests_sent w ++ map (fun chunk => PostTokenize chunk 50) chunks /\
    concat chunks = text_sent text /\
    Forall (fun chunk => chunk <> [] /\ len chunk <= YOMITAN_CHUNK_SIZE) chunks.
Proof.
  unfold tokenize_japanese_text, text_sent.
  destruct text as [text |]; cycle 1.
  { exists [], [], w. cbn [map concat]. rewrite app_nil_r.
    repeat split; try reflexivity; constructor. }
  destruct (bool_decide (text = []) || bool_decide (strip text = [])).
  { exists [], [], w. cbn [map concat]. rewrite app_nil_r.
    repeat split; try reflexivity; constructor. }
  unfold bind at 1.
  match goal with |- context [report ?p ?x w] =>
    destruct (report_run p x w) as (w1 & -> & (Hc1 & Ha1 & Hf1 & Hr1) & Hn1) end.
  unfold bind at 1.
  destruct (tokenize_with_yomitan_api_run service (Some (remove_html_tags (strip text))) 50
              None progress_id w1)
    as (tokens & success & chunks & w2 & -> & Hc2 & Hf2 & Ha2 & Hp2 & Hr2 & Hcat & Hlen & _);
    [reflexivity |].
  destruct (success && negb (bool_decide (tokens = []))).
  - unfold bind at 1.
    match goal with |- context [report ?p ?x w2] =>
      destruct (report_run p x w2) as (w3 & -> & (Hc3 & Ha3 & Hf3 & Hr3) & Hn3) end.
    unfold bind at 1.
    match goal with |- context [report ?p ?x w3] =>
      destruct (report_run p x w3) as (w4 & -> & (Hc4 & Ha4 & Hf4 & Hr4) & Hn4) end.
    exists (filter_japanese_tokens tokens), chunks, w4.
    split; [reflexivity |].
    split. { apply Forall_forall. intros t Ht. unfold filter_japanese_tokens in Ht.
             apply list_elem_of_filter in Ht. exact (proj1 Ht). }
    split; [congruence |]. split; [congruence |].
    split; [intros H0; rewrite Ha4, Ha3, Ha2, Ha1; lia |].
    split; [intros ->; rewrite Hn4, Hn3, Hp2, Hn1; reflexivity |].
    split; [rewrite Hr4, Hr3, Hr2, Hr1; reflexivity |].
    split; assumption.
  - unfold bind at 1.
    match goal with |- context [report ?p ?x w2] =>
      destruct (report_run p x w2) as (w3 & -> & (Hc3 & Ha3 & Hf3 & Hr3) & Hn3) end.
    exists [], chunks, w3.
    split; [reflexivity |]. split; [constructor |].
    split; [congruence |]. split; [congruence |].
    split; [intros H0; rewrite Ha3, Ha2, Ha1; lia |].
    split; [intros ->; rewrite Hn3, Hp2, Hn1; reflexivity |].
    split; [rewrite Hr3, Hr2, Hr1; reflexivity |].
    split; assumption.
Qed.

(** X8 ([tokenize_japanese_text]): the call returns, whatever the server
    does; every token it returns has passed the token filter; the requests
    it sends are tokenize requests with scan length 50 for chunks of at most
    300 characters, none empty, which concatenate to the stripped text
    without its tags (nothing is sent when that is blank). *)
Theorem tokenize_japanese_text_tokens
    (service : list request -> request -> http_outcome)
    (text : option pystr) (progress_id : option pystr) (w : world) :
  exists words chunks w',
    tokenize_japanese_text service text progress_id w = Some (words, w') /\
    Forall (fun token => keep_token token = true) words /\
    requests_sent w' = requests_sent w ++ map (fun chunk => PostTokenize chunk 50) chunks /\
    concat chunks = text_sent text /\
    Forall (fun chunk => chunk <> [] /\ len chunk <= 300) chunks.
Proof.
  destruct (tokenize_japanese_text_run service text progress_id w)
    as (words & chunks & w' & Hrun & Hkeep & _ & _ & _ & _ & Hr & Hcat & Hlen).
  exists words, chunks, w'. repeat split; assumption.
Qed.

(** ** Tag removal and texts with nothing left to tokenize *)

Lemma remove_tags_from_sublist (s : pystr) :
  forall skip, remove_tags_from skip s `sublist_of` s.
Proof.
  induction s as [| c r IH]; intros skip; cbn [remove_tags_from]; [constructor |].
  destruct skip as [| k]; [| apply sublist_cons, IH].
  destruct (c =? 0x3C); [| apply sublist_skip, IH].
  destruct (tag_rest_length r) as [n |]; [| apply sublist_skip, IH].
  destruct (2 <=? n)%nat; [apply sublist_cons, IH | apply sublist_skip, IH].
Qed.

Lemma tag_rest_length_none (r : pystr) : 0x3E ∉ r -> tag_rest_length r = None.
Proof.
  induction r as [| c r IH]; [reflexivity |]. intros Hnot. cbn [tag_rest_length].
  destruct (Z.eqb_spec c 0x3E) as [-> | _]; [contradiction Hnot; left |].
  rewrite IH; [reflexivity |]. intros H. apply Hnot. right. exact H.
Qed.

Lemma remove_tags_plain (s : pystr) :
  0x3C ∉ s \/ 0x3E ∉ s -> remove_tags_from 0 s = s.
Proof.
  induction s as [| c r IH]; [reflexivity |]. intros Hnot. cbn [remove_tags_from].
  assert (Hr : remove_tags_from 0 r = r).
  { apply IH. destruct Hnot as [H | H]; [left | right]; intros Hin; apply H; right; exact Hin. }
  rewrite Hr. destruct (Z.eqb_spec c 0x3C) as [-> | _]; [| reflexivity].
  destruct Hnot as [H | H]; [contradiction H; left |].
  rewrite tag_rest_length_none; [reflexivity |]. intros Hin. apply H. right. exact Hin.
Qed.

(** X9 (the tag removal of [tokenize_japanese_text]): removing tags only
    deletes characters, and a text without [<] or without [>] is left as it
    is. *)
Theorem remove_html_tags_only_deletes (s : pystr) :
  remove_html_tags s `sublist_of` s /\
  (0x3C ∉ s \/ 0x3E ∉ s -> remove_html_tags s = s).
Proof.
  split; [apply remove_tags_from_sublist | apply remove_tags_plain].
Qed.

Lemma remove_html_tags_only_deletes_witness :
  remove_html_tags (u "<b>猫</b>と犬") `sublist_of` u "<b>猫</b>と犬" /\
  remove_html_tags (u "1 < 2") = u "1 < 2".
Proof.
  destruct (remove_html_tags_only_deletes (u "<b>猫</b>と犬")) as [H1 _].
  destruct (remove_html_tags_only_deletes (u "1 < 2")) as [_ H2].
  split; [exact H1 |]. apply H2. right. apply (bool_decide_unpack _). vm_compute. exact I.
Defined.

Lemma tokenize_blank_run
    (service : list request -> request -> http_outcome)
    (text : pystr) (max_scan_length : Z) (chunk_size : option Z)
    (progress_id : option pystr) (w : world) :
  strip text = [] ->
  tokenize_with_yomitan_api service (Some text) max_scan_length chunk_size progress_id w
    = Some (([], true), w).
Proof.
  intros Hs. unfold tokenize_with_yomitan_api.
  rewrite (bool_decide_eq_true_2 (strip text = []) Hs), orb_true_r. reflexivity.
Qed.

(** X10 ([tokenize_japanese_text]): a text that is not blank but of which
    nothing is left once its tags are removed is answered with no tokens and
    without a request to the server, and the progress entry then reads stage
    [error], "Yomitan API not available". *)
Theorem tags_only_text_reports_error
    (service : list request -> request -> http_outcome)
    (text id : pystr) (w : world) :
  strip text <> [] ->
  strip (remove_html_tags (strip text)) = [] ->
  id <> [] ->
  exists w',
    tokenize_japanese_text service (Some text) (Some id) w = Some ([], w') /\
    requests_sent w' = requests_sent w /\
    progress_tracker w' !! id
      = Some {| stage := u "error";
                message := u "Yomitan API not available";
                progress := NInt 0;
                total_chunks := None;
                completed_chunks := None |}.
Proof.
  intros Hs Hblank Hid. unfold tokenize_japanese_text.
  assert (Hne : text <> []) by (intros ->; apply Hs; reflexivity).
  rewrite (bool_decide_eq_false_2 (text = []) Hne),
          (bool_decide_eq_false_2 (strip text = []) Hs).
  cbn [orb]. unfold bind at 1, report at 1.
  rewrite (bool_decide_eq_false_2 (id = []) Hid). unfold modify at 1.
  unfold bind at 1. rewrite (tokenize_blank_run _ _ _ _ _ _ Hblank).
  cbn [andb negb]. rewrite (bool_decide_eq_true_2 ([] = []) eq_refl). cbn [negb andb].
  unfold bind, report, modify, ret. rewrite (bool_decide_eq_false_2 (id = []) Hid).
  eexists. split; [reflexivity |]. split; [reflexivity |].
  cbn [progress_tracker set_progress_tracker]. apply lookup_insert_eq.
Qed.

Lemma tags_only_text_reports_error_witness :
  exists w',
    tokenize_japanese_text service_80_20 (Some (u " <br> ")) (Some (u "job")) example_world
      = Some ([], w') /\
    requests_sent w' = requests_sent example_world /\
    stage <$> progress_tracker w' !! u "job" = Some (u "error").
Proof.
  destruct (tags_only_text_reports_error service_80_20 (u " <br> ") (u "job") example_world)
    as (w' & Hrun & Hr & Hp).
  - vm_compute. discriminate.
  - vm_compute. reflexivity.
  - vm_compute. discriminate.
  - exists w'. split; [exact Hrun |]. split; [exact Hr |]. rewrite Hp. reflexivity.
Defined.

(** ** FrequencyResolver: the cache *)

Lemma get_yomitan_frequency_data_run
    (service : list request -> request -> http_outcome) (word : pystr) (w : world) :
  exists result w',
    get_yomitan_frequency_data service word w = Some (result, w') /\
    progress_tracker w' = progress_tracker w /\
    active_yomitan_operations w' = active_yomitan_operations w /\
    ignored_words_file w' = ignored_words_file w /\
    match frequency_cache w ≫= (.!! word) with
    | Some cached_data =>
      result = Found (fr_rank cached_data) (fr_source cached_data) /\ w' = w
    | None =>
      requests_sent w' = requests_sent w ++ [PostTermEntries word] /\
      match result with
      | Found best_rank best_source =>
        best_rank <> PNone /\
        frequency_cache w'
          = Some (<[word := {| fr_rank := best_rank; fr_source := best_source |}]>
                    (default ∅ (frequency_cache w)))
      | NotFound => frequency_cache w' = frequency_cache w
      end
    end.
Proof.
  unfold get_yomitan_frequency_data, bind, get_world, requests_post, modify, ret.
  destruct (frequency_cache w ≫= (.!! word)) as [cached_data |] eqn:Hcache.
  { exists (Found (fr_rank cached_data) (fr_source cached_data)), w.
    repeat split; reflexivity. }
  destruct (service (requests_sent w) (PostTermEntries word)) as [status_code body | e].
  - destruct (negb (status_code =? 200)).
    { eexists NotFound, _. repeat split; reflexivity. }
    destruct body as [data |]; [| eexists NotFound, _; repeat split; reflexivity].
    destruct (best_frequency word data) as [[[best_rank best_source] |] | e].
    + destruct best_rank;
        try (eexists (Found _ _), _; split; [reflexivity |];
             repeat split; try reflexivity; discriminate).
      eexists NotFound, _. repeat split; reflexivity.
    + eexists NotFound, _. repeat split; reflexivity.
    + destruct e; eexists NotFound, _; repeat split; reflexivity.
  - destruct e; eexists NotFound, _; repeat split; reflexivity.
Qed.

(** X11 ([get_yomitan_frequency_data]): a lookup that finds a rank stores it
    in the cache: the same lookup, repeated at once, gives the same rank and
    source, sends no request and changes nothing. *)
Theorem frequency_lookup_cached
    (service : list request -> request -> http_outcome)
    (word : pystr) (best_rank best_source : pyval) (w w' : world) :
  get_yomitan_frequency_data service word w = Some (Found best_rank best_source, w') ->
  get_yomitan_frequency_data service word w' = Some (Found best_rank best_source, w').
Proof.
  intros Hrun.
  destruct (get_yomitan_frequency_data_run service word w)
    as (result & w1 & Hrun1 & _ & _ & _ & Hcase).
  rewrite Hrun in Hrun1. injection Hrun1 as <- <-.
  assert (Hcached : exists cached_data,
            frequency_cache w' ≫= (.!! word) = Some cached_data /\
            fr_rank cached_data = best_rank /\ fr_source cached_data = best_source).
  { destruct (frequency_cache w ≫= (.!! word)) as [cached_data |] eqn:Hcache.
    - destruct Hcase as [[= -> ->] ->]. exists cached_data. repeat split. exact Hcache.
    - destruct Hcase as (_ & _ & ->). eexists. cbn [mbind option_bind].
      rewrite lookup_insert_eq. repeat split. }
  destruct Hcached as (cached_data & Hcache & <- & <-).
  destruct (get_yomitan_frequency_data_run service word w')
    as (result & w2 & Hrun2 & _ & _ & _ & Hcase2).
  rewrite Hcache in Hcase2. destruct Hcase2 as [-> ->]. exact Hrun2.
Qed.

Lemma frequency_lookup_cached_witness :
  exists w',
    get_yomitan_frequency_data service_neko (u "猫") example_world
      = Some (Found (PInt 500) (PStr (u "X")), w') /\
    get_yomitan_frequency_data service_neko (u "猫") w'
      = Some (Found (PInt 500) (PStr (u "X")), w').
Proof.
  eexists. split; [vm_compute; reflexivity |].
  apply (frequency_lookup_cached service_neko (u "猫") (PInt 500) (PStr (u "X")) example_world).
  vm_compute. reflexivity.
Defined.

(** X12 ([get_yomitan_frequency_data]): a lookup returns, sends at most one
    request (the term-entries request for its word, and only when the word
    is not cached), never changes what the cache holds for another word, and
    stores nothing when it finds nothing: a word that was not found is asked
    for again by the next lookup. *)
Theorem frequency_lookup_effect
    (service : list request -> request -> http_outcome) (word : pystr) (w : world) :
  exists result w',
    get_yomitan_frequency_data service word w = Some (result, w') /\
    (requests_sent w' = requests_sent w \/
     (frequency_cache w ≫= (.!! word) = None /\
      requests_sent w' = requests_sent w ++ [PostTermEntries word])) /\
    (forall other, other <> word ->
       frequency_cache w' ≫= (.!! other) = frequency_cache w ≫= (.!! other)) /\
    (result = NotFound ->
     frequency_cache w' = frequency_cache w /\
     requests_sent w' = requests_sent w ++ [PostTermEntries word]).
Proof.
  destruct (get_yomitan_frequency_data_run service word w)
    as (result & w' & Hrun & _ & _ & _ & Hcase).
  exists result, w'. split; [exact Hrun |].
  destruct (frequency_cache w ≫= (.!! word)) as [cached_data |] eqn:Hcache.
  - destruct Hcase as [-> ->]. split; [left; reflexivity |].
    split; [reflexivity | discriminate].
  - destruct Hcase as [Hr Hres]. split; [right; split; [reflexivity | exact Hr] |].
    destruct result as [best_rank best_source |].
    + destruct Hres as [_ ->]. split; [| discriminate].
      intros other Hother. cbn [mbind option_bind].
      rewrite lookup_insert_ne by congruence.
      destruct (frequency_cache w); [reflexivity | apply lookup_empty].
    + rewrite Hres. split; [reflexivity |]. intros _. split; [reflexivity | exact Hr].
Qed.

(** ** Deduplicator: one entry per word *)

Lemma sum_counts_app (l1 l2 : list word_entry) :
  sum_counts (l1 ++ l2) = sum_counts l1 + sum_counts l2.
Proof.
  unfold sum_counts at 1. rewrite fold_left_app.
  fold (sum_counts l1). apply sum_counts_from.
Qed.

Lemma dedup_step_keys (entry : word_entry) (word_dict : list (pystr * word_entry)) :
  map fst (dedup_step entry word_dict)
  = if bool_decide (word entry ∈ map fst word_dict) then map fst word_dict
    else map fst word_dict ++ [word entry].
Proof.
  induction word_dict as [| [k existing] rest IH]; cbn [dedup_step map fst app].
  - rewrite bool_decide_eq_false_2 by apply not_elem_of_nil. reflexivity.
  - destruct (pystr_eqb k (word entry)) eqn:E.
    + apply pystr_eqb_eq in E. subst k.
      rewrite bool_decide_eq_true_2 by left. reflexivity.
    + assert (k <> word entry) as Hk.
      { intros H. apply pystr_eqb_eq in H. congruence. }
      cbn [map fst]. rewrite IH.
      destruct (decide (word entry ∈ map fst rest)) as [Hin | Hin].
      * rewrite !bool_decide_eq_true_2; [reflexivity | right; exact Hin | exact Hin].
      * rewrite !bool_decide_eq_false_2; [reflexivity | | exact Hin].
        intros [? | ?]%elem_of_cons; congruence.
Qed.

Lemma dedup_step_elem (entry : word_entry) (word_dict : list (pystr * word_entry))
    (k : pystr) (e : word_entry) :
  NoDup (map fst word_dict) ->
  (k, e) ∈ dedup_step entry word_dict ->
  (k <> word entry /\ (k, e) ∈ word_dict) \/
  (k = word entry /\
   ((exists existing, (k, existing) ∈ word_dict /\ e = merge_entry existing entry) \/
    ((word entry ∉ map fst word_dict) /\ e = entry))).
Proof.
  induction word_dict as [| [k0 existing] rest IH]; cbn [dedup_step map fst].
  - intros _ [= -> ->]%list_elem_of_singleton. right. split; [reflexivity |].
    right. split; [apply not_elem_of_nil | reflexivity].
  - intros [Hk0 Hnd]%NoDup_cons. destruct (pystr_eqb k0 (word entry)) eqn:E.
    + apply pystr_eqb_eq in E. subst k0.
      intros [[= -> ->] | Hin]%elem_of_cons.
      * right. split; [reflexivity |]. left. exists existing. split; [left | reflexivity].
      * left. split; [| right; exact Hin].
        intros ->. apply Hk0. apply list_elem_of_fmap. exists (word entry, e).
        split; [reflexivity | exact Hin].
    + assert (k0 <> word entry) as Hk.
      { intros H. apply pystr_eqb_eq in H. congruence. }
      intros [[= -> ->] | Hin]%elem_of_cons.
      * left. split; [exact Hk | left].
      * destruct (IH Hnd Hin) as [[Hne Hel] | [-> [(ex & Hel & ->) | [Hnot ->]]]].
        -- left. split; [exact Hne | right; exact Hel].
        -- right. split; [reflexivity |]. left. exists ex. split; [right; exact Hel | reflexivity].
        -- right. split; [reflexivity |]. right. split; [| reflexivity].
           intros [? | ?]%elem_of_cons; congruence.
Qed.

(** The dictionary of the loop after the entries of [word_list]. *)
Lemma dedup_fold_spec (word_list : list word_entry) :
  let word_dict := fold_left (fun d e => dedup_step e d) word_list [] in
  NoDup (map fst word_dict) /\
  (forall x, x ∈ map fst word_dict <-> x ∈ map word word_list) /\
  (forall k e, (k, e) ∈ word_dict ->
     word e = k /\ count e = sum_counts (filter (fun x => word x = k) word_list)).
Proof.
  induction word_list as [| entry word_list IH] using rev_ind.
  - cbn. split; [constructor |]. split; [reflexivity |]. intros k e H.
    apply elem_of_nil in H. contradiction.
  - cbn zeta in *. rewrite fold_left_app. cbn [fold_left].
    set (word_dict := fold_left (fun d e => dedup_step e d) word_list []) in *.
    destruct IH as (Hnd & Hkeys & Hentries).
    assert (Hkeys' : map fst (dedup_step entry word_dict)
                     = if bool_decide (word entry ∈ map fst word_dict) then map fst word_dict
                       else map fst word_dict ++ [word entry]) by apply dedup_step_keys.
    split; [| split].
    + rewrite Hkeys'. case_bool_decide as Hin; [exact Hnd |].
      apply NoDup_app. split; [exact Hnd |]. split; [| apply NoDup_singleton].
      intros x Hx ->%list_elem_of_singleton. contradiction.
    + intros x. rewrite Hkeys', map_app, elem_of_app. cbn [map].
      rewrite list_elem_of_singleton. case_bool_decide as Hin.
      * rewrite Hkeys. split; [tauto |]. intros [H | ->]; [exact H |].
        apply Hkeys. exact Hin.
      * rewrite elem_of_app, list_elem_of_singleton, Hkeys. reflexivity.
    + intros k e Hel. rewrite filter_app, sum_counts_app.
      destruct (dedup_step_elem entry word_dict k e Hnd Hel)
        as [[Hne Hin] | [-> [(ex & Hin & ->) | [Hnot ->]]]].
      * destruct (Hentries k e Hin) as [Hw Hc]. split; [exact Hw |].
        rewrite filter_cons, decide_False by congruence. cbn. lia.
      * destruct (Hentries _ ex Hin) as [Hw Hc]. split; [exact Hw |].
        rewrite filter_cons, decide_True by reflexivity.
        cbn [merge_entry count]. rewrite Hc. rewrite filter_nil.
        unfold sum_counts at 3. cbn. lia.
      * split; [reflexivity |].
        rewrite filter_cons, decide_True by reflexivity. rewrite filter_nil.
        assert (Hempty : filter (fun x => word x = word entry) word_list = []).
        { destruct (filter (fun x => word x = word entry) word_list) as [| x rest] eqn:Hf;
            [reflexivity |]. exfalso.
          assert (Hx : x ∈ filter (fun x => word x = word entry) word_list)
            by (rewrite Hf; left).
          apply list_elem_of_filter in Hx as [Hwx Hx].
          apply Hnot, Hkeys. rewrite <- Hwx. apply list_elem_of_fmap. exists x.
          split; [reflexivity | exact Hx]. }
        rewrite Hempty. cbn. lia.
Qed.

(** X13 ([deduplicate_word_list]): the result has one entry per word of the
    input and no other; the count of an entry is the sum of the counts of
    the input entries with its word; deduplicating the result again changes
    nothing. *)
Theorem dedup_one_entry_per_word (word_list : list word_entry) :
  NoDup (map word (deduplicate_word_list word_list)) /\
  (forall x, x ∈ map word (deduplicate_word_list word_list) <-> x ∈ map word word_list) /\
  (forall e, e ∈ deduplicate_word_list word_list ->
     count e = sum_counts (filter (fun x => word x = word e) word_list)) /\
  deduplicate_word_list (deduplicate_word_list word_list) = deduplicate_word_list word_list.
Proof.
  destruct (dedup_fold_spec word_list) as (Hnd & Hkeys & Hentries). cbn zeta in *.
  unfold deduplicate_word_list at 1 2 3 5.
  set (word_dict := fold_left (fun d e => dedup_step e d) word_list []) in *.
  assert (Hwords : map word (map snd word_dict) = map fst word_dict).
  { rewrite map_map. apply map_ext_in. intros [k e] Hin. apply list_elem_of_In in Hin.
    exact (proj1 (Hentries k e Hin)). }
  assert (Hnd' : NoDup (map word (map snd word_dict))) by (rewrite Hwords; exact Hnd).
  split; [exact Hnd' |]. split; [rewrite Hwords; exact Hkeys |].
  split; [| apply dedup_distinct; exact Hnd'].
  intros e [[k e'] [-> Hin]]%list_elem_of_fmap. cbn [snd].
  destruct (Hentries k e' Hin) as [-> Hc]. exact Hc.
Qed.

(** ** Analysis: counts, requests and totals *)

Lemma counter_add_elem (w : pystr) (counts : list (pystr * Z)) (k : pystr) (c : Z) :
  NoDup (map fst counts) ->
  (k, c) ∈ counter_add w counts ->
  (k <> w /\ (k, c) ∈ counts) \/
  (k = w /\ ((exists c0, (k, c0) ∈ counts /\ c = c0 + 1) \/
             ((w ∉ map fst counts) /\ c = 1))).
Proof.
  induction counts as [| [k0 c0] rest IH]; cbn [counter_add map fst].
  - intros _ [= -> ->]%list_elem_of_singleton. right. split; [reflexivity |].
    right. split; [apply not_elem_of_nil | reflexivity].
  - intros [Hk0 Hnd]%NoDup_cons. destruct (pystr_eqb k0 w) eqn:E.
    + apply pystr_eqb_eq in E. subst k0.
      intros [[= -> ->] | Hin]%elem_of_cons.
      * right. split; [reflexivity |]. left. exists c0. split; [left | reflexivity].
      * left. split; [| right; exact Hin].
        intros ->. apply Hk0. apply list_elem_of_fmap. exists (w, c).
        split; [reflexivity | exact Hin].
    + assert (k0 <> w) as Hk.
      { intros H. apply pystr_eqb_eq in H. congruence. }
      intros [[= -> ->] | Hin]%elem_of_cons.
      * left. split; [exact Hk | left].
      * destruct (IH Hnd Hin) as [[Hne Hel] | [-> [(c1 & Hel & ->) | [Hnot ->]]]].
        -- left. split; [exact Hne | right; exact Hel].
        -- right. split; [reflexivity |]. left. exists c1. split; [right; exact Hel | reflexivity].
        -- right. split; [reflexivity |]. right. split; [| reflexivity].
           intros [? | ?]%elem_of_cons; congruence.
Qed.

Lemma Counter_snoc (words : list pystr) (w : pystr) :
  Counter (words ++ [w]) = counter_add w (Counter words).
Proof. unfold Counter. rewrite fold_left_app. reflexivity. Qed.

Lemma Counter_keys (words : list pystr) (x : pystr) :
  x ∈ map fst (Counter words) <-> x ∈ words.
Proof.
  induction words as [| w words IH] using rev_ind.
  - cbn. split; intros H; apply elem_of_nil in H; contradiction.
  - rewrite Counter_snoc, counter_add_keys, elem_of_app, list_elem_of_singleton.
    case_bool_decide as Hin.
    + rewrite IH. split; [tauto |]. intros [H | ->]; [exact H |]. apply IH, Hin.
    + rewrite elem_of_app, list_elem_of_singleton, IH. reflexivity.
Qed.

Lemma occurrences_snoc (k w : pystr) (words : list pystr) :
  occurrences k (words ++ [w]) = occurrences k words + (if bool_decide (w = k) then 1 else 0).
Proof.
  unfold occurrences. rewrite filter_app, length_app, filter_cons, filter_nil.
  case_bool_decide as H.
  - rewrite decide_True by exact H. cbn [length]. lia.
  - rewrite decide_False by exact H. cbn [length]. lia.
Qed.

Lemma occurrences_absent (k : pystr) (words : list pystr) :
  k ∉ words -> occurrences k words = 0.
Proof.
  intros Hnot. unfold occurrences.
  destruct (filter (fun x => x = k) words) as [| x rest] eqn:Hf; [reflexivity |].
  exfalso. assert (Hx : x ∈ filter (fun x => x = k) words) by (rewrite Hf; left).
  apply list_elem_of_filter in Hx as [-> Hx]. contradiction.
Qed.

Lemma Counter_counts (words : list pystr) (k : pystr) (c : Z) :
  (k, c) ∈ Counter words -> c = occurrences k words /\ 1 <= c.
Proof.
  revert k c. induction words as [| w words IH] using rev_ind; intros k c.
  - intros H. apply elem_of_nil in H. contradiction.
  - rewrite Counter_snoc, occurrences_snoc. intros Hin.
    apply counter_add_elem in Hin; [| apply Counter_keys_nodup].
    destruct Hin as [[Hne Hin] | [-> [(c0 & Hin & ->) | [Hnot ->]]]].
    + destruct (IH k c Hin) as [-> H1].
      rewrite bool_decide_eq_false_2 by congruence. lia.
    + destruct (IH w c0 Hin) as [-> H1].
      rewrite bool_decide_eq_true_2 by reflexivity. lia.
    + rewrite bool_decide_eq_true_2 by reflexivity.
      rewrite occurrences_absent; [lia |]. intros H. apply Hnot, Counter_keys, H.
Qed.

Lemma counter_add_sum (w : pystr) (counts : list (pystr * Z)) :
  foldr (fun item acc => snd item + acc) 0 (counter_add w counts)
  = foldr (fun item acc => snd item + acc) 0 counts + 1.
Proof.
  induction counts as [| [k c] rest IH]; cbn [counter_add foldr snd]; [lia |].
  destruct (pystr_eqb k w); cbn [foldr snd]; lia.
Qed.

Lemma Counter_sum (words : list pystr) :
  foldr (fun item acc => snd item + acc) 0 (Counter words) = Z.of_nat (length words).
Proof.
  induction words as [| w words IH] using rev_ind; [reflexivity |].
  rewrite Counter_snoc, counter_add_sum, IH, length_app. cbn [length]. lia.
Qed.

Lemma entries_sum (vocabulary_set ignored : gset pystr) (items : list (pystr * Z))
    (entries : list word_entry) :
  Forall2 (entry_of vocabulary_set ignored) items entries ->
  sum_counts entries = foldr (fun item acc => snd item + acc) 0 items.
Proof.
  induction 1 as [| item e items entries (_ & Hc & _) _ IH]; [reflexivity |].
  rewrite sum_counts_cons, Hc, IH. reflexivity.
Qed.

Lemma sum_counts_perm (l l' : list word_entry) : l ≡ₚ l' -> sum_counts l = sum_counts l'.
Proof.
  induction 1 as [| e l l' _ IH | e1 e2 l | l1 l2 l3 _ IH1 _ IH2].
  - reflexivity.
  - rewrite !sum_counts_cons, IH. reflexivity.
  - rewrite !sum_counts_cons. lia.
  - congruence.
Qed.

Lemma filter_ext_elem {A} (P Q : A -> Prop) `{forall x, Decision (P x)}
    `{forall x, Decision (Q x)} (l : list A) :
  (forall x, x ∈ l -> P x <-> Q x) -> filter P l = filter Q l.
Proof.
  induction l as [| x l IH]; [reflexivity |]. intros Hext. rewrite !filter_cons.
  rewrite IH by (intros y Hy; apply Hext; right; exact Hy).
  destruct (decide (P x)) as [HP | HP], (decide (Q x)) as [HQ | HQ]; try reflexivity.
  - contradiction HQ. apply (Hext x); [left | exact HP].
  - contradiction HP. apply (Hext x); [left | exact HQ].
Qed.

Lemma classify_words_frame
    (service : list request -> request -> http_outcome)
    (vocabulary_set ignored : gset pystr) (progress_id : option pystr) (total_unique : Z)
    (items : list (pystr * Z)) :
  forall processed acc w acc' w',
    NoDup (map fst items) ->
    classify_words service vocabulary_set ignored progress_id total_unique processed
      items acc w = Some (acc', w') ->
    ignored_words_file w' = ignored_words_file w /\
    active_yomitan_operations w' = active_yomitan_operations w /\
    (progress_id = None -> progress_tracker w' = progress_tracker w) /\
    requests_sent w'
      = requests_sent w ++ map PostTermEntries (filter (uncached w) (map fst items)) /\
    (forall other, other ∉ map fst items ->
       frequency_cache w' ≫= (.!! other) = frequency_cache w ≫= (.!! other)).
Proof.
  induction items as [| [word count] rest IH]; intros processed acc w acc' w' Hnd.
  - cbn [classify_words]. intros [= _ <-]. cbn [map filter]. rewrite app_nil_r.
    repeat split; reflexivity.
  - cbn [classify_words map fst] in *. apply NoDup_cons in Hnd as [Hfresh Hnd].
    unfold bind at 1.
    match goal with |- context [report ?p ?x w] =>
      destruct (report_run p x w) as (w1 & -> & (Hc1 & Ha1 & Hf1 & Hr1) & Hn1) end.
    unfold bind at 1.
    destruct (get_yomitan_frequency_data_run service word w1)
      as (freq_data & w2 & -> & Hp2 & Ha2 & Hf2 & Hcase).
    intros Hrun. apply IH in Hrun as (Hf & Ha & Hp & Hr & Hc); [| exact Hnd].
    assert (Hother : forall other, other <> word ->
              frequency_cache w2 ≫= (.!! other) = frequency_cache w ≫= (.!! other)).
    { intros other Hne. rewrite <- Hc1.
      destruct (frequency_cache w1 ≫= (.!! word)) as [cached_data |].
      - destruct Hcase as [_ ->]. reflexivity.
      - destruct Hcase as [_ Hres]. destruct freq_data as [best_rank best_source |].
        + destruct Hres as [_ ->]. cbn [mbind option_bind].
          rewrite lookup_insert_ne by congruence.
          destruct (frequency_cache w1); [reflexivity | apply lookup_empty].
        + rewrite Hres. reflexivity. }
    assert (Hfilter : filter (uncached w2) (map fst rest) = filter (uncached w) (map fst rest)).
    { apply filter_ext_elem. intros x Hx. unfold uncached.
      rewrite Hother; [reflexivity |]. intros ->. contradiction. }
    split; [congruence |]. split; [congruence |].
    split; [intros ->; rewrite Hp, Hp2, Hn1; reflexivity |].
    split.
    + rewrite Hr, Hfilter, filter_cons.
      destruct (frequency_cache w1 ≫= (.!! word)) as [cached_data |] eqn:Hcache.
      * destruct Hcase as [_ ->].
        rewrite (decide_False (P := uncached w word))
          by (unfold uncached; rewrite <- Hc1, Hcache; discriminate).
        rewrite Hr1. reflexivity.
      * destruct Hcase as [Hr2 _].
        rewrite (decide_True (P := uncached w word))
          by (unfold uncached; rewrite <- Hc1, Hcache; reflexivity).
        rewrite Hr2, Hr1. cbn [map]. rewrite <- app_assoc. reflexivity.
    + intros other Hnot. rewrite Hc.
      * apply Hother. intros ->. apply Hnot. left.
      * intros Hin. apply Hnot. right. exact Hin.
Qed.

(** What [analyze_text_vocabulary] returns and does, in terms of the tokens
    of the text and of the entries made of their counts. *)
Lemma analyze_text_vocabulary_run
    (service : list request -> request -> http_outcome)
    (text_content : option pystr) (vocabulary_set : gset pystr)
    (progress_id : option pystr) (w : world) :
  exists words chunks entries o w',
    analyze_text_vocabulary service text_content vocabulary_set progress_id w
      = Some (o, w') /\
    (exists w1 w2, same_but_progress w w1 /\
       tokenize_japanese_text service text_content progress_id w1 = Some (words, w2)) /\
    Forall (fun token => keep_token token = true) words /\
    Forall2 (entry_of vocabulary_set (loaded_ignored_words w)) (Counter words) entries /\
    ignored_words_file w' = ignored_words_file w /\
    (0 <= active_yomitan_operations w ->
     active_yomitan_operations w' = active_yomitan_operations w) /\
    (progress_id = None -> progress_tracker w' = progress_tracker w) /\
    requests_sent w'
      = requests_sent w ++ map (fun chunk => PostTokenize chunk 50) chunks
        ++ map PostTermEntries (filter (uncached w) (map fst (Counter words))) /\
    concat chunks = text_sent text_content /\
    Forall (fun chunk => chunk <> [] /\ len chunk <= 300) chunks /\
    o = (star_stats ← calculate_three_category_frequency_statistics
                        (sort_by_count (filter known_entry entries))
                        (sort_by_count (filter ignored_entry entries))
                        (sort_by_count (filter unknown_entry entries));
         Returns
           {| total_words := Z.of_nat (length words);
              unique_words := Z.of_nat (length (Counter words));
              all_words_analyzed := sort_by_count entries;
              known_words := sort_by_count (filter known_entry entries);
              unknown_words := sort_by_count (filter unknown_entry entries);
              ignored_words := sort_by_count (filter ignored_entry entries);
              known_word_count := sum_counts (sort_by_count (filter known_entry entries));
              unknown_word_count := sum_counts (sort_by_count (filter unknown_entry entries));
              ignored_word_count := sum_counts (sort_by_count (filter ignored_entry entries));
              total_processed_words :=
                sum_counts (sort_by_count (filter known_entry entries))
                + sum_counts (sort_by_count (filter unknown_entry entries));
              comprehension_rate :=
                comprehension
                  (sum_counts (sort_by_count (filter known_entry entries)))
                  (sum_counts (sort_by_count (filter known_entry entries))
                   + sum_counts (sort_by_count (filter unknown_entry entries)));
              difficulty_level :=
                calculate_difficulty_level
                  (comprehension
                     (sum_counts (sort_by_count (filter known_entry entries)))
                     (sum_counts (sort_by_count (filter known_entry entries))
                      + sum_counts (sort_by_count (filter unknown_entry entries))));
              star_statistics := star_stats;
              parsing_info :=
                {| total_raw_words := Z.of_nat (length words);
                   filtered_unique_words := Z.of_nat (length (Counter words));
                   words_with_frequency :=
                     count_where has_frequency (sort_by_count entries) |} |}).
Proof.
  unfold analyze_text_vocabulary.
  unfold bind at 1.
  match goal with |- context [report ?p ?x w] =>
    destruct (report_run p x w) as (w1 & -> & (Hc1 & Ha1 & Hf1 & Hr1) & Hn1) end.
  unfold bind at 1. unfold load_ignored_words at 1.
  unfold bind at 1.
  destruct (tokenize_japanese_text_run service text_content progress_id w1)
    as (words & chunks & w2 & Htok & Hkeep & Hc2 & Hf2 & Ha2 & Hp2 & Hr2 & Hcat & Hlen).
  rewrite Htok.
  unfold bind at 1.
  match goal with |- context [report ?p ?x w2] =>
    destruct (report_run p x w2) as (w3 & -> & (Hc3 & Ha3 & Hf3 & Hr3) & Hn3) end.
  unfold bind at 1.
  match goal with
  | |- context [classify_words service vocabulary_set ?ign progress_id ?t ?p ?items ?acc w3] =>
    destruct (classify_words_spec service vocabulary_set ign progress_id t items p acc w3)
      as (entries & lists & w4 & Hrun & Hent & Hall & Hign & Hkn & Hun)
  end.
  rewrite Hrun.
  apply classify_words_frame in Hrun as (Hf4 & Ha4 & Hp4 & Hr4 & _);
    [| apply Counter_keys_nodup].
  cbn [all_words_with_frequency ignored_words_with_data cl_known_words cl_unknown_words app]
    in Hall, Hign, Hkn, Hun.
  rewrite Hall, Hign, Hkn, Hun.
  assert (Hnd : NoDup (map word entries)).
  { rewrite (entries_words _ _ _ _ Hent). apply Counter_keys_nodup. }
  rewrite (dedup_distinct entries Hnd).
  rewrite (dedup_distinct (filter known_entry entries))
    by (apply nodup_words_filter; exact Hnd).
  rewrite (dedup_distinct (filter unknown_entry entries))
    by (apply nodup_words_filter; exact Hnd).
  unfold bind at 1.
  match goal with |- context [report ?p ?x w4] =>
    destruct (report_run p x w4) as (w5 & -> & (Hc5 & Ha5 & Hf5 & Hr5) & Hn5) end.
  unfold ret.
  assert (Hfilter : filter (uncached w3) (map fst (Counter words))
                    = filter (uncached w) (map fst (Counter words))).
  { apply filter_ext_elem. intros x _. unfold uncached.
    rewrite Hc3, Hc2, Hc1. reflexivity. }
  eexists words, chunks, entries, _, w5. split; [reflexivity |].
  split; [exists w1, w2; split; [repeat split; assumption | exact Htok] |].
  split; [exact Hkeep |].
  split; [unfold loaded_ignored_words; rewrite <- Hf1; exact Hent |].
  split; [congruence |].
  split; [intros H0; rewrite Ha5, Ha4, Ha3, Ha2, Ha1; lia |].
  split; [intros ->; rewrite Hn5, Hp4, Hn3, Hp2, Hn1; reflexivity |].
  split; [rewrite Hr5, Hr4, Hfilter, Hr3, Hr2, Hr1, <- app_assoc; reflexivity |].
  split; [exact Hcat |]. split; [exact Hlen |]. reflexivity.
Qed.

Lemma sum_counts_sorted (l : list word_entry) : sum_counts (sort_by_count l) = sum_counts l.
Proof. apply sum_counts_perm, sort_by_count_perm. Qed.

Lemma sum_counts_partition (l : list word_entry) :
  sum_counts (filter known_entry l) + sum_counts (filter unknown_entry l)
  + sum_counts (filter ignored_entry l) = sum_counts l.
Proof.
  rewrite <- (sum_counts_perm _ _ (entries_partition l)), !sum_counts_app. lia.
Qed.

(** X14 ([analyze_text_vocabulary]): the analysis returns, and in its result
    the known, unknown and ignored occurrence counts add up to
    [total_words], the number of tokens; [total_processed_words] is that
    number less the ignored occurrences; there are at most as many unique
    words as tokens, and [parsing_info] repeats both numbers. *)
Theorem analysis_word_totals
    (service : list request -> request -> http_outcome)
    (text_content : option pystr) (vocabulary_set : gset pystr)
    (progress_id : option pystr) (w : world) :
  exists o w',
    analyze_text_vocabulary service text_content vocabulary_set progress_id w
      = Some (o, w') /\
    forall a, o = Returns a ->
      known_word_count a + unknown_word_count a + ignored_word_count a = total_words a /\
      total_processed_words a = total_words a - ignored_word_count a /\
      0 <= unique_words a <= total_words a /\
      total_raw_words (parsing_info a) = total_words a /\
      filtered_unique_words (parsing_info a) = unique_words a.
Proof.
  destruct (analyze_text_vocabulary_run service text_content vocabulary_set progress_id w)
    as (words & chunks & entries & o & w' & Hrun & _ & _ & Hent & _ & _ & _ & _ & _ & _ & Ho).
  exists o, w'. split; [exact Hrun |]. intros a Ha. rewrite Ha in Ho.
  destruct (calculate_three_category_frequency_statistics _ _ _) as [ss | e];
    cbn [mbind outcome_bind obind] in Ho; [| discriminate].
  injection Ho as ->.
  cbn [known_word_count unknown_word_count ignored_word_count total_words
       total_processed_words unique_words parsing_info total_raw_words
       filtered_unique_words].
  rewrite !sum_counts_sorted.
  pose proof (sum_counts_partition entries) as Hsum.
  rewrite (entries_sum _ _ _ _ Hent), Counter_sum in Hsum.
  assert (Hlen : (length (Counter words) <= length words)%nat).
  { rewrite <- (length_map fst (Counter words)).
    apply submseteq_length, NoDup_submseteq; [apply Counter_keys_nodup |].
    intros x. apply Counter_keys. }
  repeat split; lia.
Qed.

Lemma analysis_word_totals_witness :
  exists a w',
    analyze_text_vocabulary service_80_20 (Some (u "猫と犬")) {[ u "猫" ]} None example_world
      = Some (Returns a, w') /\
    known_word_count a + unknown_word_count a + ignored_word_count a = total_words a /\
    total_words a = 100.
Proof.
  destruct (analysis_word_totals service_80_20 (Some (u "猫と犬")) {[ u "猫" ]} None
              example_world) as (o & w' & Hrun & Hres).
  assert (Ho : exists a, o = Returns a /\ total_words a = 100).
  { vm_compute in Hrun. injection Hrun as <- _. eexists. split; reflexivity. }
  destruct Ho as (a & -> & Htotal).
  exists a, w'. destruct (Hres a eq_refl) as (Hsum & _).
  split_and!; assumption.
Defined.

Lemma entries_item (vocabulary_set ignored : gset pystr) (items : list (pystr * Z))
    (entries : list word_entry) (e : word_entry) :
  Forall2 (entry_of vocabulary_set ignored) items entries -> e ∈ entries ->
  (word e, count e) ∈ items.
Proof.
  induction 1 as [| [k c] e0 items entries (Hw & Hc & _) _ IH].
  - intros H. apply elem_of_nil in H. contradiction.
  - intros [-> | Hin]%elem_of_cons.
    + cbn [fst snd] in Hw, Hc. rewrite Hw, Hc. left.
    + right. exact (IH Hin).
Qed.

(** X15 ([analyze_text_vocabulary]): the entries of [all_words_analyzed] are
    the distinct tokens of the text, one entry each; the count of an entry
    is the number of occurrences of its word among the tokens; and the four
    word lists come in order of decreasing count. *)
Theorem analysis_entries_count_tokens
    (service : list request -> request -> http_outcome)
    (text_content : option pystr) (vocabulary_set : gset pystr)
    (progress_id : option pystr) (w : world) :
  exists words w1 w2 o w',
    same_but_progress w w1 /\
    tokenize_japanese_text service text_content progress_id w1 = Some (words, w2) /\
    analyze_text_vocabulary service text_content vocabulary_set progress_id w
      = Some (o, w') /\
    forall a, o = Returns a ->
      NoDup (map word (all_words_analyzed a)) /\
      (forall x, x ∈ map word (all_words_analyzed a) <-> x ∈ words) /\
      (forall e, e ∈ all_words_analyzed a -> count e = occurrences (word e) words) /\
      Sorted (fun e1 e2 => count e2 <= count e1) (all_words_analyzed a) /\
      Sorted (fun e1 e2 => count e2 <= count e1) (known_words a) /\
      Sorted (fun e1 e2 => count e2 <= count e1) (unknown_words a) /\
      Sorted (fun e1 e2 => count e2 <= count e1) (ignored_words a).
Proof.
  destruct (analyze_text_vocabulary_run service text_content vocabulary_set progress_id w)
    as (words & chunks & entries & o & w' & Hrun & (w1 & w2 & Hsame & Htok) & _ & Hent
        & _ & _ & _ & _ & _ & _ & Ho).
  exists words, w1, w2, o, w'. split; [exact Hsame |]. split; [exact Htok |].
  split; [exact Hrun |]. intros a Ha. rewrite Ha in Ho.
  destruct (calculate_three_category_frequency_statistics _ _ _) as [ss | e];
    cbn [mbind outcome_bind obind] in Ho; [| discriminate].
  injection Ho as ->.
  cbn [all_words_analyzed known_words unknown_words ignored_words].
  assert (Hwords : map word (sort_by_count entries) ≡ₚ map fst (Counter words)).
  { rewrite <- (entries_words _ _ _ _ Hent). apply fmap_Permutation, sort_by_count_perm. }
  split; [rewrite Hwords; apply Counter_keys_nodup |].
  split; [intros x; rewrite Hwords; apply Counter_keys |].
  split; [| split_and!; apply sort_by_count_sorted].
  intros e He. rewrite sort_by_count_perm in He.
  exact (proj1 (Counter_counts words _ _ (entries_item _ _ _ _ e Hent He))).
Qed.

Lemma analysis_entries_count_tokens_witness :
  exists a w',
    analyze_text_vocabulary service_80_20 (Some (u "猫と犬")) {[ u "猫" ]} None example_world
      = Some (Returns a, w') /\
    map word (all_words_analyzed a) = [u "猫"; u "犬"] /\
    NoDup (map word (all_words_analyzed a)) /\
    Sorted (fun e1 e2 => count e2 <= count e1) (all_words_analyzed a).
Proof.
  destruct (analysis_entries_count_tokens service_80_20 (Some (u "猫と犬")) {[ u "猫" ]} None
              example_world) as (words & w1 & w2 & o & w' & _ & _ & Hrun & Hres).
  assert (Ho : exists a, o = Returns a /\ map word (all_words_analyzed a) = [u "猫"; u "犬"]).
  { vm_compute in Hrun. injection Hrun as <- _. eexists. split; reflexivity. }
  destruct Ho as (a & -> & Hwords).
  exists a, w'. destruct (Hres a eq_refl) as (Hnd & _ & _ & Hsorted & _).
  split_and!; assumption.
Defined.


Lemma tokenize_japanese_text_blank
    (service : list request -> request -> http_outcome)
    (text : option pystr) (progress_id : option pystr) (w : world) :
  match text with None => True | Some s => strip s = [] end ->
  tokenize_japanese_text service text progress_id w = Some ([], w).
Proof.
  unfold tokenize_japanese_text. destruct text as [s |]; [| reflexivity].
  intros Hs. rewrite (bool_decide_eq_true_2 (strip s = []) Hs), orb_true_r. reflexivity.
Qed.

(** X17 ([analyze_text_vocabulary]): the analysis of a missing or blank text
    sends no request and returns no words: every count is 0, the
    comprehension rate is the integer 0, and the difficulty level is
    "5★ Expert". *)
Theorem analysis_of_blank_text
    (service : list request -> request -> http_outcome)
    (text_content : option pystr) (vocabulary_set : gset pystr)
    (progress_id : option pystr) (w : world) :
  match text_content with None => True | Some s => strip s = [] end ->
  exists a w',
    analyze_text_vocabulary service text_content vocabulary_set progress_id w
      = Some (Returns a, w') /\
    requests_sent w' = requests_sent w /\
    total_words a = 0 /\ unique_words a = 0 /\
    all_words_analyzed a = [] /\ known_words a = [] /\
    unknown_words a = [] /\ ignored_words a = [] /\
    known_word_count a = 0 /\ unknown_word_count a = 0 /\ ignored_word_count a = 0 /\
    comprehension_rate a = NInt 0 /\
    difficulty_level a = u "5★ Expert".
Proof.
  intros Hblank.
  destruct (analyze_text_vocabulary_run service text_content vocabulary_set progress_id w)
    as (words & chunks & entries & o & w' & Hrun & (w1 & w2 & _ & Htok) & _ & Hent
        & _ & _ & _ & Hr & Hcat & Hlen & Ho).
  rewrite (tokenize_japanese_text_blank _ _ _ _ Hblank) in Htok. injection Htok as <- _.
  cbn in Hent. inversion Hent; subst entries. clear Hent.
  assert (Hsent : text_sent text_content = []).
  { unfold text_sent. destruct text_content as [s |]; [| reflexivity].
    rewrite (bool_decide_eq_true_2 (strip s = []) Hblank), orb_true_r. reflexivity. }
  assert (Hchunks : chunks = []).
  { rewrite Hsent in Hcat. destruct chunks as [| c chunks]; [reflexivity |].
    apply Forall_cons in Hlen as [[Hc _] _]. destruct c; [contradiction | discriminate]. }
  subst chunks. cbn [map filter Counter fold_left app] in Hr. rewrite app_nil_r in Hr.
  destruct (calculate_three_category_frequency_statistics
              (sort_by_count (filter known_entry []))
              (sort_by_count (filter ignored_entry []))
              (sort_by_count (filter unknown_entry []))) as [ss | e] eqn:Hss;
    [| vm_compute in Hss; discriminate].
  cbn [mbind outcome_bind obind] in Ho. subst o.
  eexists _, w'. split; [exact Hrun |]. split; [exact Hr |].
  split_and!; reflexivity.
Qed.

Lemma analysis_of_blank_text_witness :
  exists a w',
    analyze_text_vocabulary service_80_20 (Some (u " 　 ")) {[ u "猫" ]} None example_world
      = Some (Returns a, w') /\
    requests_sent w' = requests_sent example_world /\
    total_words a = 0 /\
    difficulty_level a = u "5★ Expert".
Proof.
  destruct (analysis_of_blank_text service_80_20 (Some (u " 　 ")) {[ u "猫" ]} None
              example_world) as (a & w' & Hrun & Hr & Ht & _ & _ & _ & _ & _ & _ & _ & _ & _ & Hd).
  - vm_compute. reflexivity.
  - exists a, w'. split_and!; assumption.
Defined.

(** ** StatsAggregator: what the statistics count *)

Lemma sum_values_fresh (d : gmap Z Z) (k v : Z) :
  d !! k = None -> sum_values (<[k := v]> d) = sum_values d + v.
Proof.
  intros Hk. unfold sum_values. rewrite map_fold_insert_L; [reflexivity | | exact Hk].
  intros. cbn beta. lia.
Qed.

Lemma sum_values_insert (d : gmap Z Z) (k old v : Z) :
  d !! k = Some old -> sum_values (<[k := v]> d) = sum_values d - old + v.
Proof.
  intros Hk.
  rewrite <- (insert_delete_eq d k v), sum_values_fresh by apply lookup_delete_eq.
  rewrite <- (insert_delete_id d k old Hk) at 2.
  rewrite sum_values_fresh by apply lookup_delete_eq. lia.
Qed.

Lemma star_levels_elem (k : Z) : k ∈ star_levels <-> 0 <= k <= 5.
Proof.
  unfold star_levels. rewrite elem_of_list_to_set, !elem_of_cons, elem_of_nil. lia.
Qed.

Lemma star_levels_lookup (d : gmap Z Z) (k : Z) :
  dom d = star_levels -> 0 <= k <= 5 -> d !! k = Some (d !!! k).
Proof.
  intros Hdom Hk. apply star_levels_elem in Hk. rewrite <- Hdom in Hk.
  apply elem_of_dom in Hk as [v Hv]. rewrite lookup_total_alt, Hv. reflexivity.
Qed.

Lemma sum_values_levels (d : gmap Z Z) :
  dom d = star_levels ->
  sum_values d = d !!! 0 + d !!! 1 + d !!! 2 + d !!! 3 + d !!! 4 + d !!! 5.
Proof.
  intros Hdom.
  assert (Hd : d = <[5 := d !!! 5]> (<[4 := d !!! 4]> (<[3 := d !!! 3]>
                 (<[2 := d !!! 2]> (<[1 := d !!! 1]> (<[0 := d !!! 0]> ∅)))))).
  { apply map_eq. intros i.
    destruct (decide (0 <= i <= 5)) as [Hi | Hi].
    - rewrite (star_levels_lookup d i Hdom Hi).
      assert (i = 0 \/ i = 1 \/ i = 2 \/ i = 3 \/ i = 4 \/ i = 5) as Hcase by lia.
      destruct Hcase as [-> | [-> | [-> | [-> | [-> | ->]]]]];
        repeat (rewrite lookup_insert_ne by lia); rewrite lookup_insert_eq; reflexivity.
    - repeat (rewrite lookup_insert_ne by lia). rewrite lookup_empty.
      apply not_elem_of_dom. rewrite Hdom, star_levels_elem. exact Hi. }
  rewrite Hd at 1.
  repeat (rewrite sum_values_fresh
            by (repeat (rewrite lookup_insert_ne by lia); apply lookup_empty)).
  unfold sum_values. rewrite map_fold_empty. lia.
Qed.

Lemma star_rating_range (rank : pyval) (stars : Z) :
  get_star_rating_from_rank rank = Returns stars -> 0 <= stars <= 5.
Proof.
  unfold get_star_rating_from_rank, py_le_int.
  destruct rank; try (intros [= <-]; lia);
    cbn [as_int mbind outcome_bind obind]; try discriminate;
    repeat match goal with
           | |- context [if ?b then _ else _] => destruct b
           end;
    intros [= <-]; lia.
Qed.

Lemma star_rating_returns (rank : pyval) :
  (exists stars, get_star_rating_from_rank rank = Returns stars)
  <-> rank = PNone \/ is_Some (as_int rank).
Proof.
  unfold get_star_rating_from_rank, py_le_int. split.
  - destruct rank; cbn [as_int mbind outcome_bind obind]; intros [stars H];
      try discriminate; try (left; reflexivity); right; eexists; reflexivity.
  - intros [-> | [n Hn]]; [eexists; reflexivity |].
    destruct rank; try discriminate; cbn [as_int mbind outcome_bind obind];
      repeat match goal with
             | |- context [if ?b then _ else _] => destruct b
             end; eexists; reflexivity.
Qed.

Lemma star_tally_cons (k : Z) (e : word_entry) (l : list word_entry) :
  star_tally k (e :: l) = (if has_stars k e then 1 else 0) + star_tally k l.
Proof.
  unfold star_tally. rewrite filter_cons. destruct (has_stars k e).
  - rewrite decide_True by reflexivity. cbn [length]. lia.
  - rewrite decide_False by discriminate. lia.
Qed.

Lemma star_tally_app (k : Z) (l1 l2 : list word_entry) :
  star_tally k (l1 ++ l2) = star_tally k l1 + star_tally k l2.
Proof. unfold star_tally. rewrite filter_app, length_app. lia. Qed.

Lemma add_words_returns (word_list : list word_entry) :
  forall data data',
    dom (cd_star_counts data) = star_levels ->
    add_words word_list data = Returns data' ->
    dom (cd_star_counts data') = star_levels /\
    cd_total_instances data' = cd_total_instances data + sum_counts word_list /\
    sum_values (cd_star_counts data')
      = sum_values (cd_star_counts data) + Z.of_nat (length word_list) /\
    (forall k, cd_star_counts data' !!! k
               = cd_star_counts data !!! k + star_tally k word_list).
Proof.
  induction word_list as [| e rest IH]; intros data data' Hdom; cbn [add_words].
  - intros [= <-]. unfold star_tally. cbn. repeat split; try lia. exact Hdom.
  - destruct (get_star_rating_from_rank (rank e)) as [stars | ex] eqn:Hstars;
      cbn [mbind outcome_bind obind]; [| discriminate].
    pose proof (star_rating_range _ _ Hstars) as Hrange.
    pose proof (star_levels_lookup _ stars Hdom Hrange) as Hlook.
    intros Hrun. apply IH in Hrun as (Hdom' & Hinst & Hsum & Htally).
    + cbn [cd_star_counts cd_total_instances] in *.
      split; [exact Hdom' |]. split; [rewrite Hinst, sum_counts_cons; lia |].
      split.
      * rewrite Hsum, (sum_values_insert _ _ _ _ Hlook). cbn [length]. lia.
      * intros k. rewrite Htally, star_tally_cons. unfold has_stars. rewrite Hstars.
        destruct (Z.eqb_spec stars k) as [-> | Hne].
        -- rewrite lookup_total_insert_eq. lia.
        -- rewrite lookup_total_insert_ne by exact Hne. lia.
    + cbn [cd_star_counts]. rewrite dom_insert_L, Hdom.
      apply star_levels_elem in Hrange. apply set_eq. intros x.
      rewrite elem_of_union, elem_of_singleton. split; [intros [-> | H] | right]; assumption.
Qed.

Lemma add_words_rated (word_list : list word_entry) :
  forall data,
    Forall rated word_list <-> exists data', add_words word_list data = Returns data'.
Proof.
  induction word_list as [| e rest IH]; intros data; cbn [add_words].
  - split; [intros _; eexists; reflexivity | intros _; constructor].
  - split.
    + intros [He Hrest]%Forall_cons. apply star_rating_returns in He as [stars ->].
      cbn [mbind outcome_bind obind]. apply IH, Hrest.
    + intros [data' Hrun].
      destruct (get_star_rating_from_rank (rank e)) as [stars | ex] eqn:Hstars;
        cbn [mbind outcome_bind obind] in Hrun; [| discriminate].
      constructor; [apply star_rating_returns; eexists; exact Hstars |].
      eapply IH. eexists. exact Hrun.
Qed.

Lemma add_distribution_levels (combined star_counts : gmap Z Z) :
  dom combined = star_levels ->
  dom (add_distribution combined star_counts) = star_levels /\
  forall k, 0 <= k <= 5 ->
    add_distribution combined star_counts !!! k = combined !!! k + star_counts !!! k.
Proof.
  intros Hdom. unfold add_distribution. cbn [fold_left]. split.
  - rewrite !dom_insert_L, Hdom. unfold star_levels. set_solver.
  - intros k Hk.
    assert (k = 0 \/ k = 1 \/ k = 2 \/ k = 3 \/ k = 4 \/ k = 5) as Hcase by lia.
    destruct Hcase as [-> | [-> | [-> | [-> | [-> | ->]]]]];
      repeat (rewrite lookup_total_insert_ne by lia); rewrite lookup_total_insert_eq;
      repeat (rewrite lookup_total_insert_ne by lia); reflexivity.
Qed.

Lemma empty_star_counts_levels :
  dom empty_star_counts = star_levels /\ forall k, 0 <= k <= 5 -> empty_star_counts !!! k = 0.
Proof.
  split.
  - unfold empty_star_counts, star_levels. rewrite !dom_insert_L, dom_empty_L. set_solver.
  - intros k Hk. unfold empty_star_counts.
    assert (k = 0 \/ k = 1 \/ k = 2 \/ k = 3 \/ k = 4 \/ k = 5) as Hcase by lia.
    destruct Hcase as [-> | [-> | [-> | [-> | [-> | ->]]]]];
      repeat (rewrite lookup_total_insert_ne by lia); rewrite lookup_total_insert_eq;
      reflexivity.
Qed.

Lemma three_category_statistics_spec (known_words ignored_words unknown_words : list word_entry) :
  (Forall rated (known_words ++ ignored_words ++ unknown_words) <->
   exists s, calculate_three_category_frequency_statistics
               known_words ignored_words unknown_words = Returns s) /\
  forall s,
    calculate_three_category_frequency_statistics known_words ignored_words unknown_words
      = Returns s ->
    map fst (ss_categories s) = [u "known"; u "ignored"; u "unknown"] /\
    Forall2 (fun category word_list =>
               cs_unique_words (snd category) = Z.of_nat (length word_list) /\
               cs_total_instances (snd category) = sum_counts word_list /\
               dom (cs_star_counts (snd category)) = star_levels /\
               forall k, 0 <= k <= 5 ->
                 cs_star_counts (snd category) !!! k = star_tally k word_list)
            (ss_categories s) [known_words; ignored_words; unknown_words] /\
    ss_total_unique_words s
      = Z.of_nat (length (known_words ++ ignored_words ++ unknown_words)) /\
    ss_total_word_instances s = sum_counts (known_words ++ ignored_words ++ unknown_words) /\
    dom (ss_combined_star_distribution s) = star_levels /\
    (forall k, 0 <= k <= 5 ->
       ss_combined_star_distribution s !!! k
       = star_tally k (known_words ++ ignored_words ++ unknown_words)) /\
    sum_values (ss_combined_star_distribution s) = ss_total_unique_words s /\
    Forall (fun item => sl_count (snd item) = ss_combined_star_distribution s !!! fst item)
           (ss_star_breakdown s).
Proof.
  destruct empty_star_counts_levels as [Hdom0 Hzero].
  assert (Hsum0 : sum_values empty_star_counts = 0).
  { rewrite (sum_values_levels _ Hdom0), !Hzero by lia. reflexivity. }
  unfold calculate_three_category_frequency_statistics. split.
  - rewrite !Forall_app,
      (add_words_rated known_words empty_category),
      (add_words_rated ignored_words empty_category),
      (add_words_rated unknown_words empty_category).
    split.
    + intros ([known ->] & [ignored ->] & [unknown ->]).
      cbn [mbind outcome_bind obind]. eexists. reflexivity.
    + intros [s Hs].
      destruct (add_words known_words empty_category) as [known | e];
        cbn [mbind outcome_bind obind] in Hs; [| discriminate].
      destruct (add_words ignored_words empty_category) as [ignored | e];
        cbn [mbind outcome_bind obind] in Hs; [| discriminate].
      destruct (add_words unknown_words empty_category) as [unknown | e];
        cbn [mbind outcome_bind obind] in Hs; [| discriminate].
      repeat split; eexists; reflexivity.
  - intros s.
    destruct (add_words known_words empty_category) as [known | e] eqn:Hk;
      cbn [mbind outcome_bind obind]; [| discriminate].
    destruct (add_words ignored_words empty_category) as [ignored | e] eqn:Hi;
      cbn [mbind outcome_bind obind]; [| discriminate].
    destruct (add_words unknown_words empty_category) as [unknown | e] eqn:Hu;
      cbn [mbind outcome_bind obind]; [| discriminate].
    apply add_words_returns in Hk as (Hkd & Hki & Hks & Hkt); [| exact Hdom0].
    apply add_words_returns in Hi as (Hid & Hii & His & Hit); [| exact Hdom0].
    apply add_words_returns in Hu as (Hud & Hui & Hus & Hut); [| exact Hdom0].
    cbn [empty_category cd_star_counts cd_total_instances] in *.
    intros [= <-].
    cbn [ss_categories ss_total_unique_words ss_total_word_instances
         ss_combined_star_distribution ss_star_breakdown fold_left map fst snd
         category_summary cs_unique_words cs_total_instances cs_star_counts].
    destruct (add_distribution_levels empty_star_counts (cd_star_counts known) Hdom0)
      as [Hd1 Hc1].
    destruct (add_distribution_levels _ (cd_star_counts ignored) Hd1) as [Hd2 Hc2].
    destruct (add_distribution_levels _ (cd_star_counts unknown) Hd2) as [Hd3 Hc3].
    assert (Hcombined : forall k, 0 <= k <= 5 ->
              add_distribution
                (add_distribution (add_distribution empty_star_counts (cd_star_counts known))
                   (cd_star_counts ignored)) (cd_star_counts unknown) !!! k
              = star_tally k (known_words ++ ignored_words ++ unknown_words)).
    { intros k Hk. rewrite (Hc3 k Hk), (Hc2 k Hk), (Hc1 k Hk), (Hzero k Hk).
      rewrite Hkt, Hit, Hut, (Hzero k Hk), !star_tally_app. lia. }
    split; [reflexivity |].
    split.
    { repeat constructor; try assumption; try lia.
      - intros k Hk. rewrite Hkt, (Hzero k Hk). lia.
      - intros k Hk. rewrite Hit, (Hzero k Hk). lia.
      - intros k Hk. rewrite Hut, (Hzero k Hk). lia. }
    split; [rewrite !length_app; lia |].
    split; [rewrite !sum_counts_app; lia |].
    split; [exact Hd3 |].
    split; [exact Hcombined |].
    split.
    { rewrite (sum_values_levels _ Hd3), !Hcombined by lia.
      rewrite Hks, His, Hus, Hsum0.
      rewrite (sum_values_levels _ Hkd) in Hks.
      rewrite (sum_values_levels _ Hid) in His.
      rewrite (sum_values_levels _ Hud) in Hus.
      rewrite !Hkt in Hks. rewrite !Hit in His. rewrite !Hut in Hus.
      rewrite !Hzero in Hks, His, Hus by lia.
      rewrite !star_tally_app. lia. }
    repeat constructor.
Qed.


(** X19 ([analyze_text_vocabulary] with
    [calculate_three_category_frequency_statistics]): in the result of an
    analysis the star statistics agree with the word lists: each category
    counts the entries and the occurrences of its list, the total of unique
    words is [unique_words], and the total of word instances is
    [total_words]. *)
Theorem analysis_statistics_agree
    (service : list request -> request -> http_outcome)
    (text_content : option pystr) (vocabulary_set : gset pystr)
    (progress_id : option pystr) (w : world) :
  exists o w',
    analyze_text_vocabulary service text_content vocabulary_set progress_id w
      = Some (o, w') /\
    forall a, o = Returns a ->
      Forall2 (fun category word_list =>
                 cs_unique_words (snd category) = Z.of_nat (length word_list) /\
                 cs_total_instances (snd category) = sum_counts word_list)
              (ss_categories (star_statistics a))
              [known_words a; ignored_words a; unknown_words a] /\
      ss_total_unique_words (star_statistics a) = unique_words a /\
      ss_total_word_instances (star_statistics a) = total_words a.
Proof.
  destruct (analyze_text_vocabulary_run service text_content vocabulary_set progress_id w)
    as (words & chunks & entries & o & w' & Hrun & _ & _ & Hent & _ & _ & _ & _ & _ & _ & Ho).
  exists o, w'. split; [exact Hrun |]. intros a Ha. rewrite Ha in Ho.
  destruct (calculate_three_category_frequency_statistics _ _ _) as [ss | e] eqn:Hss;
    cbn [mbind outcome_bind obind] in Ho; [| discriminate].
  injection Ho as ->.
  cbn [star_statistics known_words ignored_words unknown_words unique_words total_words].
  apply three_category_statistics_spec in Hss as (_ & Hcat & Huniq & Hinst & _).
  split; [| split].
  - eapply Forall2_impl; [exact Hcat |]. cbn beta. intros c l (H1 & H2 & _). split; assumption.
  - rewrite Huniq, (Forall2_length _ _ _ Hent). f_equal. apply Permutation_length.
    rewrite !sort_by_count_perm. apply entries_partition.
  - rewrite Hinst, !sum_counts_app, !sum_counts_sorted.
    pose proof (sum_counts_partition entries) as Hsum.
    rewrite (entries_sum _ _ _ _ Hent), Counter_sum in Hsum. lia.
Qed.

Lemma analysis_statistics_agree_witness :
  exists a w',
    analyze_text_vocabulary service_80_20 (Some (u "猫と犬")) {[ u "猫" ]} None example_world
      = Some (Returns a, w') /\
    ss_total_unique_words (star_statistics a) = 2 /\
    ss_total_word_instances (star_statistics a) = 100.
Proof.
  destruct (analysis_statistics_agree service_80_20 (Some (u "猫と犬")) {[ u "猫" ]} None
              example_world) as (o & w' & Hrun & Hres).
  assert (Ho : exists a, o = Returns a /\ unique_words a = 2 /\ total_words a = 100).
  { vm_compute in Hrun. injection Hrun as <- _. eexists. repeat split; reflexivity. }
  destruct Ho as (a & -> & Hu & Ht).
  exists a, w'. destruct (Hres a eq_refl) as (_ & Huniq & Hinst).
  split_and!; [exact Hrun | congruence | congruence].
Defined.

(** ** YomitanClient: reading a well-formed response *)

Lemma dict_get_single (k : pystr) (v : pyval) : dict_get [(k, v)] k = Some v.
Proof.
  cbn [dict_get]. unfold pystr_eqb. rewrite bool_decide_eq_true_2 by reflexivity. reflexivity.
Qed.

Lemma str_join_encoded (texts : list pystr) :
  str_join (option_texts (map (fun t => PDict [(u "text", PStr t)]) texts))
  = Returns (concat texts).
Proof.
  induction texts as [| t texts IH]; [reflexivity |].
  cbn [map option_texts]. rewrite dict_get_single. cbn [default str_join].
  rewrite IH. reflexivity.
Qed.

Lemma collect_segments_encoded (segments : list (list pystr)) (words : list pystr) :
  collect_segments (map encode_segment segments) words
  = Returns (words ++ filter (fun word => word <> []) (map (@concat Z) segments)).
Proof.
  revert words. induction segments as [| texts segments IH]; intros words.
  - cbn. rewrite app_nil_r. reflexivity.
  - cbn [map]. rewrite filter_cons. destruct texts as [| t texts].
    + cbn [encode_segment map collect_segments concat].
      rewrite decide_False by (intros H; apply H; reflexivity). apply IH.
    + unfold encode_segment at 1. cbn [map collect_segments].
      change (PDict [(u "text", PStr t)] :: map (fun t => PDict [(u "text", PStr t)]) texts)
        with (map (fun t => PDict [(u "text", PStr t)]) (t :: texts)).
      rewrite str_join_encoded. cbn [mbind outcome_bind obind].
      rewrite IH. case_bool_decide as He.
      * rewrite decide_False by (intros H; apply H; exact He). reflexivity.
      * rewrite decide_True by exact He. rewrite <- app_assoc. reflexivity.
Qed.

Lemma extract_words_encoded (segments : list (list pystr)) :
  extract_words (segments_response segments)
  = Returns (filter (fun word => word <> []) (map (@concat Z) segments)).
Proof.
  unfold extract_words, segments_response.
  cbn [truthy py_len length mbind outcome_bind obind isinstance_list andb py_iter
       collect_items].
  change (Z.of_nat 1 >? 0) with true. cbn [andb].
  rewrite dict_get_single. cbn [py_iter mbind outcome_bind obind].
  rewrite collect_segments_encoded. reflexivity.
Qed.

(** X20 ([_tokenize_single_chunk]): when the server answers the tokenize
    request with status 200 and a well-formed document, the words returned
    are the segments in order, each the concatenation of the texts of its
    parsing options, without the empty ones, and the success flag is
    true. *)
Theorem tokenize_single_chunk_segments
    (service : list request -> request -> http_outcome)
    (text : pystr) (max_scan_length : Z) (segments : list (list pystr)) (w : world) :
  service (requests_sent w) (PostTokenize text max_scan_length)
    = Responded 200 (Some (segments_response segments)) ->
  extract_words (segments_response segments)
    = Returns (filter (fun word => word <> []) (map (@concat Z) segments)) /\
  fst <$> _tokenize_single_chunk service text max_scan_length w
    = Some (filter (fun word => word <> []) (map (@concat Z) segments), true).
Proof.
  intros Hs. split; [apply extract_words_encoded |].
  unfold _tokenize_single_chunk, bind, modify, requests_post, ret.
  cbn [requests_sent set_active_yomitan_operations]. rewrite Hs.
  cbn [Z.eqb Pos.eqb]. rewrite extract_words_encoded. reflexivity.
Qed.

Lemma tokenize_single_chunk_segments_witness :
  fst <$> _tokenize_single_chunk
            (fun _ _ => Responded 200 (Some (segments_response
                                               [[u "熱"; u "い"]; []; [u "猫"]])))
            (u "熱い猫") 50 example_world
    = Some ([u "熱い"; u "猫"], true).
Proof.
  destruct (tokenize_single_chunk_segments
              (fun _ _ => Responded 200 (Some (segments_response
                                                 [[u "熱"; u "い"]; []; [u "猫"]])))
              (u "熱い猫") 50 [[u "熱"; u "い"]; []; [u "猫"]] example_world eq_refl)
    as [_ Hrun].
  rewrite Hrun. vm_compute. reflexivity.
Defined.

(** ** The two star scales *)







(** ** Vocabulary match *)

Lemma in_vocabulary_set_true (x : pyval) (vocabulary_set : gset pystr) :
  in_vocabulary_set x vocabulary_set = Returns true ->
  exists s, x = PStr s /\ s ∈ vocabulary_set.
Proof.
  destruct x; cbn [in_vocabulary_set]; try discriminate.
  intros [= H]. apply bool_decide_eq_true in H. eexists. split; [reflexivity | exact H].
Qed.

Lemma matching_field_sound (vocabulary_set : gset pystr) (headword : pyval) (k : pystr)
    (form : pyval) :
  matching_field vocabulary_set headword k = Returns (Some form) ->
  exists s, form = PStr s /\ s ∈ vocabulary_set.
Proof.
  unfold matching_field.
  destruct (py_contains k headword) as [[] | e]; cbn [mbind outcome_bind obind];
    try discriminate.
  destruct (py_getitem headword k) as [x | e]; cbn [mbind outcome_bind obind];
    [| discriminate].
  destruct (in_vocabulary_set x vocabulary_set) as [[] | e] eqn:Hin;
    cbn [mbind outcome_bind obind]; try discriminate.
  intros [= <-]. exact (in_vocabulary_set_true x vocabulary_set Hin).
Qed.

Lemma match_headwords_sound (vocabulary_set : gset pystr) (headwords : list pyval)
    (form : pyval) :
  match_headwords vocabulary_set headwords = Returns (Some form) ->
  exists s, form = PStr s /\ s ∈ vocabulary_set.
Proof.
  induction headwords as [| headword rest IH]; cbn [match_headwords]; [discriminate |].
  destruct (matching_field vocabulary_set headword (u "term")) as [[t |] | e] eqn:Ht;
    cbn [mbind outcome_bind obind]; try discriminate.
  - intros [= <-]. exact (matching_field_sound _ _ _ _ Ht).
  - destruct (matching_field vocabulary_set headword (u "reading")) as [[r |] | e] eqn:Hr;
      cbn [mbind outcome_bind obind]; try discriminate.
    + intros [= <-]. exact (matching_field_sound _ _ _ _ Hr).
    + exact IH.
Qed.

Lemma match_entries_sound (vocabulary_set : gset pystr) (entries : list pyval)
    (form : pyval) :
  match_entries vocabulary_set entries = Returns (Some form) ->
  exists s, form = PStr s /\ s ∈ vocabulary_set.
Proof.
  induction entries as [| entry rest IH]; cbn [match_entries]; [discriminate |].
  destruct (truthy_field entry (u "headwords")) as [[headwords |] | e];
    cbn [mbind outcome_bind obind]; try discriminate; [| exact IH].
  destruct (py_iter headwords) as [hs | e]; cbn [mbind outcome_bind obind];
    [| discriminate].
  destruct (match_headwords vocabulary_set hs) as [[m |] | e] eqn:Hm;
    cbn [mbind outcome_bind obind]; try discriminate.
  - intros [= <-]. exact (match_headwords_sound _ _ _ Hm).
  - exact IH.
Qed.

Lemma matched_form_of_sound (vocabulary_set : gset pystr) (data form : pyval) :
  matched_form_of vocabulary_set data = Returns (Some form) ->
  exists s, form = PStr s /\ s ∈ vocabulary_set.
Proof.
  unfold matched_form_of. destruct (negb (truthy data)); [discriminate |].
  destruct (match data with
            | PDict d => dict_get d (u "dictionaryEntries")
            | PList _ => Some data
            | _ => None
            end) as [entries |]; [| discriminate].
  destruct (negb (truthy entries)); [discriminate |].
  destruct (py_iter entries) as [es | e]; cbn [mbind outcome_bind obind]; [| discriminate].
  apply match_entries_sound.
Qed.

Lemma get_yomitan_vocabulary_match_run
    (service : list request -> request -> http_outcome)
    (word : pystr) (vocabulary_set : gset pystr) (w : world) :
  exists result w',
    get_yomitan_vocabulary_match service word vocabulary_set w = Some (result, w') /\
    vm_original_word result = word /\
    (if vm_found result
     then exists s, vm_matched_form result = PStr s /\ s ∈ vocabulary_set
     else vm_matched_form result = PNone) /\
    (if bool_decide (word ∈ vocabulary_set)
     then result = {| vm_found := true; vm_matched_form := PStr word;
                      vm_original_word := word |} /\ w' = w
     else w' = set_requests_sent (requests_sent w ++ [PostTermEntries word]) w).
Proof.
  unfold get_yomitan_vocabulary_match.
  case_bool_decide as Hin.
  { eexists _, w. split; [reflexivity |]. split; [reflexivity |].
    split; [| split; reflexivity]. exists word. split; [reflexivity | exact Hin]. }
  unfold bind, requests_post, ret.
  destruct (service (requests_sent w) (PostTermEntries word)) as [status_code body | e].
  - destruct (negb (status_code =? 200)).
    { eexists _, _. repeat split; reflexivity. }
    destruct body as [data |]; [| eexists _, _; repeat split; reflexivity].
    destruct (matched_form_of vocabulary_set data) as [[form |] | e] eqn:Hm.
    + eexists _, _. split; [reflexivity |]. split; [reflexivity |].
      split; [| reflexivity]. exact (matched_form_of_sound _ _ _ Hm).
    + eexists _, _. repeat split; reflexivity.
    + destruct e; eexists _, _; repeat split; reflexivity.
  - destruct e; eexists _, _; repeat split; reflexivity.
Qed.

(** X23 ([get_yomitan_vocabulary_match]): the call returns, whatever the
    server does, and never raises; [original_word] is the word; a match
    carries a string of the vocabulary as [matched_form], and no match
    carries [None]; a word of the vocabulary is matched by itself without a
    request; any other word costs exactly one term-entries request, and
    nothing else of the world changes. *)
Theorem vocabulary_match_sound
    (service : list request -> request -> http_outcome)
    (word : pystr) (vocabulary_set : gset pystr) (w : world) :
  exists result w',
    get_yomitan_vocabulary_match service word vocabulary_set w = Some (result, w') /\
    vm_original_word result = word /\
    (vm_found result = true ->
     exists s, vm_matched_form result = PStr s /\ s ∈ vocabulary_set) /\
    (vm_found result = false -> vm_matched_form result = PNone) /\
    (word ∈ vocabulary_set ->
     vm_found result = true /\ vm_matched_form result = PStr word /\ w' = w) /\
    ((word ∉ vocabulary_set) ->
     w' = set_requests_sent (requests_sent w ++ [PostTermEntries word]) w).
Proof.
  destruct (get_yomitan_vocabulary_match_run service word vocabulary_set w)
    as (result & w' & Hrun & Horig & Hform & Hcase).
  exists result, w'. split; [exact Hrun |]. split; [exact Horig |].
  split; [intros Hf; rewrite Hf in Hform; exact Hform |].
  split; [intros Hf; rewrite Hf in Hform; exact Hform |].
  split.
  - intros Hin. rewrite bool_decide_eq_true_2 in Hcase by exact Hin.
    destruct Hcase as [-> ->]. repeat split.
  - intros Hin. rewrite bool_decide_eq_false_2 in Hcase by exact Hin. exact Hcase.
Qed.

Lemma headword_term_field (h : headword_t) :
  py_contains (u "term") (encode_headword h) = Returns true /\
  py_getitem (encode_headword h) (u "term") = Returns (PStr (hw_term h)).
Proof. destruct h as [t [r |]]; split; vm_compute; reflexivity. Qed.

Lemma headword_reading_field (h : headword_t) :
  match hw_reading h with
  | Some r =>
    py_contains (u "reading") (encode_headword h) = Returns true /\
    py_getitem (encode_headword h) (u "reading") = Returns (PStr r)
  | None => py_contains (u "reading") (encode_headword h) = Returns false
  end.
Proof. destruct h as [t [r |]]; cbn [hw_reading]; [split |]; vm_compute; reflexivity. Qed.

Lemma match_headwords_encoded (vocabulary_set : gset pystr) (hs : list headword_t) :
  match_headwords vocabulary_set (map encode_headword hs)
  = Returns (PStr <$> head (filter (fun s => s ∈ vocabulary_set)
                                   (flat_map headword_forms hs))).
Proof.
  induction hs as [| h hs IH]; [reflexivity |].
  cbn [map match_headwords flat_map]. unfold matching_field, headword_forms at 1.
  destruct (headword_term_field h) as [-> ->].
  cbn [mbind outcome_bind obind in_vocabulary_set app].
  rewrite filter_cons. destruct (decide (hw_term h ∈ vocabulary_set)) as [Ht | Ht].
  { rewrite bool_decide_eq_true_2 by exact Ht. reflexivity. }
  rewrite bool_decide_eq_false_2 by exact Ht.
  pose proof (headword_reading_field h) as Hr.
  destruct (hw_reading h) as [r |].
  - destruct Hr as [-> ->]. cbn [mbind outcome_bind obind in_vocabulary_set app].
    rewrite filter_cons. destruct (decide (r ∈ vocabulary_set)) as [Hin | Hin].
    + rewrite bool_decide_eq_true_2 by exact Hin. reflexivity.
    + rewrite bool_decide_eq_false_2 by exact Hin. exact IH.
  - rewrite Hr. cbn [mbind outcome_bind obind app]. exact IH.
Qed.

Lemma match_entries_encoded (vocabulary_set : gset pystr) (entries : list entry_t) :
  match_entries vocabulary_set (map encode_entry entries)
  = Returns (PStr <$> head (filter (fun s => s ∈ vocabulary_set)
                                   (dictionary_forms entries))).
Proof.
  induction entries as [| e entries IH]; [reflexivity |].
  cbn [map match_entries]. unfold dictionary_forms. cbn [flat_map].
  fold (dictionary_forms entries). rewrite filter_app, truthy_field_headwords.
  cbn [mbind outcome_bind obind].
  destruct (en_headwords e) as [| h hs] eqn:Hhs; [exact IH |].
  cbn [py_iter mbind outcome_bind obind].
  change (encode_headword h :: map encode_headword hs) with (map encode_headword (h :: hs)).
  rewrite match_headwords_encoded.
  destruct (filter (fun s => s ∈ vocabulary_set) (flat_map headword_forms (h :: hs)))
    as [| form forms]; cbn [head fmap option_fmap option_map mbind outcome_bind obind app];
    [exact IH | reflexivity].
Qed.

Lemma matched_form_of_encoded (vocabulary_set : gset pystr) (entries : list entry_t) :
  matched_form_of vocabulary_set (encode_response entries)
  = Returns (PStr <$> head (filter (fun s => s ∈ vocabulary_set)
                                   (dictionary_forms entries))).
Proof.
  unfold matched_form_of, encode_response. cbn [truthy negb].
  rewrite dict_get_single. destruct entries as [| e entries]; [reflexivity |].
  cbn [map truthy negb py_iter mbind outcome_bind obind].
  change (encode_entry e :: map encode_entry entries) with (map encode_entry (e :: entries)).
  apply match_entries_encoded.
Qed.

(** X24 ([get_yomitan_vocabulary_match]): for a word that is not in the
    vocabulary and a 200 response with well-formed entries, the match is the
    first dictionary form that is in the vocabulary, the forms taken entry
    by entry and headword by headword, the term of a headword before its
    reading; there is no match when no form is in the vocabulary. *)
Theorem vocabulary_match_first_form
    (service : list request -> request -> http_outcome)
    (word : pystr) (vocabulary_set : gset pystr) (entries : list entry_t) (w : world) :
  (word ∉ vocabulary_set) ->
  service (requests_sent w) (PostTermEntries word)
    = Responded 200 (Some (encode_response entries)) ->
  fst <$> get_yomitan_vocabulary_match service word vocabulary_set w
    = Some match head (filter (fun s => s ∈ vocabulary_set) (dictionary_forms entries)) with
           | Some form =>
             {| vm_found := true; vm_matched_form := PStr form; vm_original_word := word |}
           | None =>
             {| vm_found := false; vm_matched_form := PNone; vm_original_word := word |}
           end.
Proof.
  intros Hin Hs. unfold get_yomitan_vocabulary_match.
  rewrite bool_decide_eq_false_2 by exact Hin.
  unfold bind, requests_post, ret. rewrite Hs. cbn [Z.eqb Pos.eqb negb].
  rewrite matched_form_of_encoded.
  destruct (head (filter (fun s => s ∈ vocabulary_set) (dictionary_forms entries)));
    reflexivity.
Qed.

Lemma vocabulary_match_first_form_witness :
  fst <$> get_yomitan_vocabulary_match service_neko (u "ねこ") {[ u "猫" ]} example_world
    = Some {| vm_found := true; vm_matched_form := PStr (u "猫");
              vm_original_word := u "ねこ" |}.
Proof.
  rewrite (vocabulary_match_first_form service_neko (u "ねこ") {[ u "猫" ]} neko_entries
             example_world).
  - vm_compute. reflexivity.
  - apply (bool_decide_unpack _). vm_compute. exact I.
  - reflexivity.
Defined.
